(** * zlog: the wire codec, the terminal decoder, the ring buffer and the
    buffer pool, as Rocq functions, and what the specification says of them.

    Source files embedded here (package zlog):
    - [async_writer_generic.go]: RingBuffer, AsyncWriterV2, nextPowerOf2;
    - the pool file (Pool, BufferPool, leadingZeros64, len64tab);
    - [fields.go]: Field, the field constructors, formatStructuredMessage,
      writeBinaryHeader, encodeField;
    - [ultimate_zero.go]: UltimateLogger.log, formatUltimateMessage;
    - the logger file: Level, MagicHeader, Version, Logger.log,
      Logger.formatMessage;
    - the terminal writer file: TerminalWriter.Write, decodeFieldValueBuf
      and the text helpers;
    - the compatibility file: OldRingBuffer.

    Conventions.  A Go [int] or [uint64] is a [Z] and every place where the
    source can wrap is written with [u64] or [i64].  A byte is a
    [Byte.byte]; a Go string or []byte value is a [list byte].  A call that
    can panic or fail to return yields an [outcome]. *)

From Stdlib Require Import ZArith Lia List Bool.
From Stdlib Require Import Strings.Byte Strings.String.
From coqutil Require Import Byte.
From stdpp Require Import base list numbers option.

Local Open Scope Z_scope.

(** [byte] is the standard library's type of the 256 bytes. *)
Abbreviation byte := Init.Byte.byte (only parsing).

(** ** Machine integers and bytes *)

(** Conversion to [uint64], and the wrap of unsigned 64-bit arithmetic. *)
Definition u64 (z : Z) : Z := z mod 2 ^ 64.

(** Conversion to [int] / [int64], and the wrap of signed 64-bit arithmetic. *)
Definition i64 (z : Z) : Z := (z + 2 ^ 63) mod 2 ^ 64 - 2 ^ 63.

Definition u32 (z : Z) : Z := z mod 2 ^ 32.
Definition u16 (z : Z) : Z := z mod 2 ^ 16.

(** [len(s)] as a Go int. *)
Definition zlen {A : Type} (l : list A) : Z := Z.of_nat (length l).

(** What a call does: it returns, it panics (index or slice bound out of
    range, nil dereference, negative [make]), it provably never returns in a
    run where no other goroutine acts ([Spin]), or it has not returned within
    the loop turns it was given ([OutOfFuel]). *)
Inductive outcome (A : Type) : Type :=
| Ret (a : A)
| Panic
| Spin
| OutOfFuel.
Arguments Ret {A} a.
Arguments Panic {A}.
Arguments Spin {A}.
Arguments OutOfFuel {A}.

#[global] Instance outcome_bind : MBind outcome := fun A B f m =>
  match m with
  | Ret a => f a
  | Panic => Panic
  | Spin => Spin
  | OutOfFuel => OutOfFuel
  end.

(** [b[i]] for reading. *)
Definition index {A : Type} (b : list A) (i : Z) : outcome A :=
  if decide (0 <= i)
  then match b !! Z.to_nat i with Some x => Ret x | None => Panic end
  else Panic.

(** [b[lo:hi]] on a slice whose capacity is its length. *)
Definition slice {A : Type} (b : list A) (lo hi : Z) : outcome (list A) :=
  if decide (0 <= lo <= hi /\ hi <= zlen b)
  then Ret (take (Z.to_nat (hi - lo)) (drop (Z.to_nat lo) b))
  else Panic.

(** [b[i] = v]. *)
Definition store {A : Type} (b : list A) (i : Z) (v : A) : outcome (list A) :=
  if decide (0 <= i < zlen b)
  then Ret (<[Z.to_nat i := v]> b)
  else Panic.

(** [copy(b[pos:], src)]: copies [min (len b - pos) (len src)] elements. *)
Definition copy_at {A : Type} (b : list A) (pos : Z) (src : list A) : outcome (list A) :=
  if decide (0 <= pos <= zlen b)
  then let n := Z.to_nat (Z.min (zlen b - pos) (zlen src)) in
       Ret (take (Z.to_nat pos) b ++ take n src ++ drop (Z.to_nat pos + n) b)
  else Panic.

(** ** The pool file: Pool[T], BufferPool, leadingZeros64 *)

(** A []byte value: its backing array and its length; the capacity is the
    length of the backing array. *)
Record Slice : Type := mkSlice { arr : list byte; len : Z }.

Definition cap (s : Slice) : Z := zlen (arr s).

(** [make([]byte, 0, size)], for [0 <= size]. *)
Definition make0 (size : Z) : Slice :=
  {| arr := replicate (Z.to_nat size) x00; len := 0 |}.

(** [s[:n]] on a slice value, for [0 <= n <= cap s]. *)
Definition reslice (s : Slice) (n : Z) : Slice := {| arr := arr s; len := n |}.

(** The bytes of a slice value. *)
Definition contents (s : Slice) : list byte := take (Z.to_nat (len s)) (arr s).

(** A [*[]byte] is an address in a heap of slice values: two pointers are
    the same buffer object exactly when the addresses are equal. *)
Abbreviation ptr := nat (only parsing).
Abbreviation Heap := (list Slice) (only parsing).

Definition alloc (s : Slice) (h : Heap) : ptr * Heap := (length h, h ++ [s]).

Definition deref (h : Heap) (p : ptr) : outcome Slice :=
  match h !! p with Some s => Ret s | None => Panic end.

(** [Pool[T]] wraps [sync.Pool].  The standard library's pool is modelled
    as a free list used last-in first-out (one processor, no collection
    between the calls): [Get] takes the last object put or, when there is
    none, calls [New]; [Put] adds the object. *)
Abbreviation Pool T := (list T) (only parsing).

Definition Pool_Get {T S : Type} (new : S -> T * S) (p : Pool T) (s : S) : T * Pool T * S :=
  match p with
  | x :: p' => (x, p', s)
  | [] => let '(x, s') := new s in (x, [], s')
  end.

Definition Pool_Put {T : Type} (v : T) (p : Pool T) : Pool T := v :: p.

Definition len64tab : list Z :=
  [ 64; 63; 62; 62; 61; 61; 61; 61; 60; 60; 60; 60; 60; 60; 60; 60;
    59; 59; 59; 59; 59; 59; 59; 59; 59; 59; 59; 59; 59; 59; 59; 59;
    58; 58; 58; 58; 58; 58; 58; 58; 58; 58; 58; 58; 58; 58; 58; 58;
    58; 58; 58; 58; 58; 58; 58; 58; 58; 58; 58; 58; 58; 58; 58; 58 ].

(** [len64tab[i]]; every index the source uses is a 6-bit value. *)
Definition tab (i : Z) : Z := default 0 (len64tab !! Z.to_nat i).

(** [leadingZeros64], on a [uint64]. *)
Definition leadingZeros64 (x : Z) : Z :=
  tab (x ≫ 58) +
  tab (Z.land (x ≫ 52) 63) +
  tab (Z.land (x ≫ 46) 63) +
  tab (Z.land (x ≫ 40) 63) +
  tab (Z.land (x ≫ 34) 63) +
  tab (Z.land (x ≫ 28) 63) +
  tab (Z.land (x ≫ 22) 63) +
  tab (Z.land (x ≫ 16) 63).

(** The twenty size-class pools; pool [i] makes buffers of capacity
    [1 << (i + 6)]. *)
Record BufferPool : Type := mkBufferPool { pools : list (Pool ptr) }.

Definition NewBufferPool : BufferPool := {| pools := replicate 20 [] |}.

Definition classSize (i : Z) : Z := 1 ≪ (i + 6).

(** [bp.pools[idx]], for an index the caller has checked to be in [0, 20). *)
Definition poolAt (bp : BufferPool) (idx : Z) : Pool ptr :=
  default [] (pools bp !! Z.to_nat idx).

Definition setPoolAt (bp : BufferPool) (idx : Z) (p : Pool ptr) : BufferPool :=
  {| pools := <[Z.to_nat idx := p]> (pools bp) |}.

(** The size-class index of [BufferPool.Get], after the default of a
    non-positive size: [bits := 64 - leadingZeros64(uint64(size-1))],
    [idx := bits - 6], clamped below at 0. *)
Definition sizeClass (size : Z) : Z :=
  let bits := 64 - leadingZeros64 (u64 (size - 1)) in
  let idx := bits - 6 in
  if idx <? 0 then 0 else idx.

(** [BufferPool.Get]. *)
Definition BufferPool_Get (size : Z) (bp : BufferPool) (h : Heap)
  : outcome (ptr * BufferPool * Heap) :=
  let size := if size <=? 0 then 64 else size in
  let idx := sizeClass size in
  if idx >=? 20 then
    let '(b, h) := alloc (make0 size) h in Ret (b, bp, h)
  else
    let '(buf, p, h) := Pool_Get (alloc (make0 (classSize idx))) (poolAt bp idx) h in
    let bp := setPoolAt bp idx p in
    s ← deref h buf;
    if cap s <? size
    then Ret (buf, bp, <[buf := make0 size]> h)
    else Ret (buf, bp, h).

(** [BufferPool.Put]. *)
Definition BufferPool_Put (buf : ptr) (bp : BufferPool) (h : Heap)
  : outcome (BufferPool * Heap) :=
  s ← deref h buf;
  let h := <[buf := reslice s 0]> h in
  let c := cap s in
  if c =? 0 then Ret (bp, h)
  else
    let bits := 64 - leadingZeros64 (u64 (c - 1)) in
    let idx := bits - 6 in
    if (0 <=? idx) && (idx <? 20) && (c =? classSize idx)
    then Ret (setPoolAt bp idx (Pool_Put buf (poolAt bp idx)), h)
    else Ret (bp, h).

(** The class index as the specification words it:
    [ceil(log2(size)) - 6], clamped to be at least 0. *)
Definition specClassIndex (size : Z) : Z := Z.max 0 (Z.log2_up size - 6).

(** ** async_writer_generic.go: RingBuffer[T] *)

(** [nextPowerOf2], on a Go [int]: the decrement and the increment wrap,
    [>>] is the arithmetic shift and [|] acts on the two's complement. *)
Definition nextPowerOf2 (n : Z) : Z :=
  let n := i64 (n - 1) in
  let n := Z.lor n (n ≫ 1) in
  let n := Z.lor n (n ≫ 2) in
  let n := Z.lor n (n ≫ 4) in
  let n := Z.lor n (n ≫ 8) in
  let n := Z.lor n (n ≫ 16) in
  let n := Z.lor n (n ≫ 32) in
  i64 (n + 1).

(** The ring: [mask], the producer position [head], the consumer position
    [tail] and the slots.  A slot holds [None] for a nil pointer.  The
    padding fields carry no data, and the [pool] field is never read by
    [Put] or [Get]. *)
Record RingBuffer (T : Type) : Type := mkRing {
  mask : Z;
  head : Z;
  tail : Z;
  buffer : list (option T)
}.
Arguments mkRing {T}.
Arguments mask {T}.
Arguments head {T}.
Arguments tail {T}.
Arguments buffer {T}.

(** [NewRingBuffer]; [make] panics on a negative length. *)
Definition NewRingBuffer {T : Type} (size : Z) : outcome (RingBuffer T) :=
  let size := nextPowerOf2 size in
  if size <? 0 then Panic
  else Ret {| buffer := replicate (Z.to_nat size) None;
              mask := u64 (size - 1);
              head := 0;
              tail := 0 |}.

(** [RingBuffer.Put], for a non-nil [item]. *)
Definition RingBuffer_Put {T : Type} (item : T) (rb : RingBuffer T)
  : outcome (bool * RingBuffer T) :=
  let hd := head rb in
  let next := Z.land (u64 (hd + 1)) (mask rb) in
  if next =? tail rb then Ret (false, rb)
  else
    b ← store (buffer rb) hd (Some item);
    Ret (true, {| mask := mask rb; head := next; tail := tail rb; buffer := b |}).

(** [RingBuffer.Get] in a run with no other goroutine: the compare-and-swap
    of [tail] succeeds, and a claimed slot that holds nil is waited on for
    ever. *)
Definition RingBuffer_Get {T : Type} (rb : RingBuffer T)
  : outcome (option T * RingBuffer T) :=
  let tl := tail rb in
  let hd := head rb in
  if tl =? hd then Ret (None, rb)
  else
    let next := Z.land (u64 (tl + 1)) (mask rb) in
    slot ← index (buffer rb) tl;
    match slot with
    | Some item =>
        b ← store (buffer rb) tl None;
        Ret (Some item, {| mask := mask rb; head := hd; tail := next; buffer := b |})
    | None => Spin
    end.

(** ** async_writer_generic.go: AsyncWriterV2 *)

Record LogEntry : Type := mkLogEntry { data : Slice }.

Inductive error : Type :=
| ErrClosedPipe
| ErrTooShort
| ErrInvalidMagic
| ErrCannotDetermineFormat
| ErrMessageTruncated
| ErrFormatTooShort.

(** The writer without its worker goroutines: the ring, the bytes the sink
    has received so far (one list per [Write] to it), the [done] flag and
    the pool of entries. *)
Record AsyncWriterV2 : Type := mkAsyncWriter {
  rb : RingBuffer LogEntry;
  writer : list (list byte);
  done : bool;
  pool : Pool LogEntry
}.

Definition newLogEntry (u : unit) : LogEntry * unit :=
  ({| data := {| arr := []; len := 0 |} |}, u).

(** Lines 127-132 of [AsyncWriterV2.Write]: size the entry's slice to
    [len(b)] and copy [b] into it. *)
Definition fillEntry (entry : LogEntry) (b : list byte) : LogEntry :=
  let d := data entry in
  let d := if cap d <? zlen b
           then {| arr := replicate (length b) x00; len := zlen b |}
           else reslice d (zlen b) in
  {| data := {| arr := b ++ drop (length b) (arr d); len := len d |} |}.

(** [consumed.data = consumed.data[:0]]. *)
Definition resetEntry (e : LogEntry) : LogEntry := {| data := reslice (data e) 0 |}.

(** The retry loop of [AsyncWriterV2.Write]; [n] is [len(b)]. *)
Fixpoint Write_loop (fuel : nat) (n : Z) (entry : LogEntry) (aw : AsyncWriterV2)
  : outcome ((Z * option error) * AsyncWriterV2) :=
  match fuel with
  | O => OutOfFuel
  | S fuel =>
      '(ok, r) ← RingBuffer_Put entry (rb aw);
      if ok : bool then
        Ret ((n, None),
             {| rb := r; writer := writer aw; done := done aw; pool := pool aw |})
      else if done aw then
        Ret ((0, Some ErrClosedPipe),
             {| rb := rb aw; writer := writer aw; done := done aw;
                pool := Pool_Put entry (pool aw) |})
      else
        '(got, r) ← RingBuffer_Get (rb aw);
        match got with
        | Some consumed =>
            Write_loop fuel n entry
              {| rb := r;
                 writer := writer aw ++ [contents (data consumed)];
                 done := done aw;
                 pool := Pool_Put (resetEntry consumed) (pool aw) |}
        | None =>
            Write_loop fuel n entry
              {| rb := r; writer := writer aw; done := done aw; pool := pool aw |}
        end
  end.

(** [AsyncWriterV2.Write]. *)
Definition AsyncWriterV2_Write (fuel : nat) (b : list byte) (aw : AsyncWriterV2)
  : outcome ((Z * option error) * AsyncWriterV2) :=
  let '(entry, p, _) := Pool_Get newLogEntry (pool aw) tt in
  let entry := fillEntry entry b in
  Write_loop fuel (zlen b) entry
    {| rb := rb aw; writer := writer aw; done := done aw; pool := p |}.

(** [AsyncWriterV2.Close]. *)
Definition AsyncWriterV2_Close (aw : AsyncWriterV2) : AsyncWriterV2 :=
  {| rb := rb aw; writer := writer aw; done := true; pool := pool aw |}.

(** [NewAsyncWriterV2], before its worker goroutines have run: [sink] is
    what the writer [w] has received so far. *)
Definition NewAsyncWriterV2 (sink : list (list byte)) (bufferSize : Z)
  : outcome AsyncWriterV2 :=
  r ← NewRingBuffer bufferSize;
  Ret {| rb := r; writer := sink; done := false; pool := [] |}.

(** The three statements every loop of the writer applies to an entry it
    took from the ring: write its bytes to the sink, truncate it, return it
    to the pool.  The result of the sink's [Write] is dropped. *)
Definition consume (e : LogEntry) (aw : AsyncWriterV2) (r : RingBuffer LogEntry)
  : AsyncWriterV2 :=
  {| rb := r;
     writer := writer aw ++ [contents (data e)];
     done := done aw;
     pool := Pool_Put (resetEntry e) (pool aw) |}.

(** The drain loop at the end of [worker]. *)
Fixpoint worker_drain (fuel : nat) (aw : AsyncWriterV2) : outcome AsyncWriterV2 :=
  match fuel with
  | O => OutOfFuel
  | S fuel =>
      '(got, r) ← RingBuffer_Get (rb aw);
      match got with
      | Some entry => worker_drain fuel (consume entry aw r)
      | None => Ret aw
      end
  end.

(** [worker], run alone: the polling loop while [done] is not set, then
    the drain loop.  In a run with no other goroutine the flag cannot
    change, so the polling loop is left only if the flag is set on entry. *)
Fixpoint worker (fuel : nat) (aw : AsyncWriterV2) : outcome AsyncWriterV2 :=
  match fuel with
  | O => OutOfFuel
  | S fuel' =>
      if done aw then worker_drain fuel aw
      else
        '(got, r) ← RingBuffer_Get (rb aw);
        match got with
        | Some entry => worker fuel' (consume entry aw r)
        | None => worker fuel' aw
        end
  end.

(** ** The logger file: levels and constants *)

(** [Level] is a [uint8]. *)
Abbreviation Level := byte (only parsing).
Definition LevelDebug : Level := x00.
Definition LevelInfo : Level := x01.
Definition LevelWarn : Level := x02.
Definition LevelError : Level := x03.
Definition LevelFatal : Level := x04.

Definition MagicHeader : Z := 0x5A4C4F47.
Definition Version : byte := x01.

(** The header is written and read through [unsafe] pointer casts, so its
    multi-byte fields are in the byte order of the machine. *)
Inductive ByteOrder : Type := LittleEndian | BigEndian.

(** The [w] low bytes of [v], least significant first. *)
Fixpoint leBytes (w : nat) (v : Z) : list byte :=
  match w with
  | O => []
  | S w' => byte.of_Z v :: leBytes w' (v ≫ 8)
  end.

Fixpoint leValue (bs : list byte) : Z :=
  match bs with
  | [] => 0
  | b :: bs' => byte.unsigned b + 256 * leValue bs'
  end.

Definition nativeBytes (o : ByteOrder) (w : nat) (v : Z) : list byte :=
  match o with
  | LittleEndian => leBytes w v
  | BigEndian => rev (leBytes w v)
  end.

Definition nativeValue (o : ByteOrder) (bs : list byte) : Z :=
  match o with
  | LittleEndian => leValue bs
  | BigEndian => leValue (rev bs)
  end.

(** The store of a [w]-byte integer [v] through an unsafe pointer to
    [buf[off]].  A
    store that would leave the slice is outside the model and reported as a
    panic (the source faults on [&buf[off]] or writes past the slice). *)
Definition storeNative (o : ByteOrder) (buf : list byte) (off : Z) (w : nat) (v : Z)
  : outcome (list byte) :=
  if decide (0 <= off /\ off + Z.of_nat w <= zlen buf)
  then Ret (take (Z.to_nat off) buf ++ nativeBytes o w v ++ drop (Z.to_nat off + w) buf)
  else Panic.

(** The load of a [w]-byte integer through an unsafe pointer to [b[off]]. *)
Definition loadNative (o : ByteOrder) (b : list byte) (off : Z) (w : nat) : outcome Z :=
  bs ← slice b off (off + Z.of_nat w);
  Ret (nativeValue o bs).

(** [buf[pos] = byte(v >> 8(w-1)); ...; buf[pos+w-1] = byte(v)]. *)
Fixpoint storeBE (w : nat) (buf : list byte) (pos : Z) (v : Z) : outcome (list byte) :=
  match w with
  | O => Ret buf
  | S w' =>
      buf ← store buf pos (byte.of_Z (v ≫ (8 * Z.of_nat w')));
      storeBE w' buf (pos + 1) v
  end.

(** [uint64(b[pos])<<8(w-1) | ... | uint64(b[pos+w-1])]. *)
Fixpoint loadBE (w : nat) (b : list byte) (pos : Z) : outcome Z :=
  match w with
  | O => Ret 0
  | S w' =>
      x ← index b pos;
      rest ← loadBE w' b (pos + 1);
      Ret (Z.lor (byte.unsigned x ≪ (8 * Z.of_nat w')) rest)
  end.

(** [Logger.formatMessage]; [now] is the value of [nanotime()]. *)
Definition formatMessage (o : ByteOrder) (now : Z) (buf : list byte) (level : Level)
  (msg : list byte) : outcome (list byte) :=
  buf ← storeNative o buf 0 4 MagicHeader;
  buf ← store buf 4 Version;
  buf ← store buf 5 level;
  buf ← storeNative o buf 6 8 (u64 now);
  buf ← storeNative o buf 14 2 (u16 (zlen msg));
  copy_at buf 16 msg.

(** The state the loggers share: the global buffer pool and the heap its
    buffers live in. *)
Record PoolState : Type := mkPoolState { gpool : BufferPool; gheap : Heap }.

(** [GetBuffer] followed by the reslice of the buffer to [n] bytes: the
    pointer and the bytes of the resliced buffer. *)
Definition getBufferSlice (n : Z) (ps : PoolState) : outcome (ptr * list byte * PoolState) :=
  '(p, bp, h) ← BufferPool_Get n (gpool ps) (gheap ps);
  s ← deref h p;
  buf ← slice (arr s) 0 n;
  Ret (p, buf, {| gpool := bp; gheap := h |}).

(** Writing through a slice of the buffer at [p] changes the buffer's
    backing array: [buf] replaces its first bytes. *)
Definition writeBack (p : ptr) (buf : list byte) (h : Heap) : outcome Heap :=
  s ← deref h p;
  Ret (<[p := {| arr := buf ++ drop (length buf) (arr s); len := len s |}]> h).

Definition PutBuffer (p : ptr) (ps : PoolState) : outcome PoolState :=
  '(bp, h) ← BufferPool_Put p (gpool ps) (gheap ps);
  Ret {| gpool := bp; gheap := h |}.

(** [Logger.log]: the bytes passed to [l.writer.Write] (when the writer is
    not nil) and the pool state afterwards. *)
Definition Logger_log (o : ByteOrder) (now : Z) (level : Level) (msg : list byte)
  (ps : PoolState) : outcome (list byte * PoolState) :=
  let msgLen := zlen msg in
  let requiredSize := 16 + msgLen in
  if requiredSize <=? 256 then
    buf ← slice (replicate 256 x00) 0 requiredSize;
    buf ← formatMessage o now buf level msg;
    Ret (buf, ps)
  else
    '(p, buf, ps) ← getBufferSlice requiredSize ps;
    buf ← formatMessage o now buf level msg;
    h ← writeBack p buf (gheap ps);
    ps ← PutBuffer p {| gpool := gpool ps; gheap := h |};
    Ret (buf, ps).

(** ** ultimate_zero.go *)

(** [formatUltimateMessage]; [seq] is the counter before the call. *)
Definition formatUltimateMessage (o : ByteOrder) (now seq : Z) (buf : list byte)
  (level : Level) (msg : list byte) (msgLen : Z) : outcome (list byte) :=
  buf ← storeNative o buf 0 4 MagicHeader;
  buf ← storeNative o buf 4 1 (byte.unsigned Version);
  buf ← storeNative o buf 5 1 (byte.unsigned level);
  buf ← storeNative o buf 6 8 (u64 (seq + 1));
  buf ← storeNative o buf 14 8 (u64 now);
  buf ← storeNative o buf 22 1 (byte.unsigned (byte.of_Z msgLen));
  if 0 <? msgLen then
    m ← slice msg 0 msgLen;
    copy_at buf 23 m
  else Ret buf.

(** [UltimateLogger.log]: the bytes passed to the writer, the new sequence
    counter and the pool state. *)
Definition UltimateLogger_log (o : ByteOrder) (now seq : Z) (level : Level)
  (msg : list byte) (ps : PoolState) : outcome (list byte * Z * PoolState) :=
  let msgLen := zlen msg in
  let msgLen := if msgLen >? 200 then 200 else msgLen in
  let requiredSize := 23 + msgLen in
  if requiredSize <=? 128 then
    buf ← slice (replicate 128 x00) 0 requiredSize;
    buf ← formatUltimateMessage o now seq buf level msg msgLen;
    Ret (buf, u64 (seq + 1), ps)
  else
    '(p, buf, ps) ← getBufferSlice requiredSize ps;
    buf ← formatUltimateMessage o now seq buf level msg msgLen;
    h ← writeBack p buf (gheap ps);
    ps ← PutBuffer p {| gpool := gpool ps; gheap := h |};
    Ret (buf, u64 (seq + 1), ps).

(** ** fields.go *)

(** [FieldType] is a [uint8]. *)
Abbreviation FieldType := byte (only parsing).
Definition FieldTypeInt : FieldType := x00.
Definition FieldTypeUint : FieldType := x01.
Definition FieldTypeFloat32 : FieldType := x02.
Definition FieldTypeFloat64 : FieldType := x03.
Definition FieldTypeString : FieldType := x04.
Definition FieldTypeBool : FieldType := x05.
Definition FieldTypeBytes : FieldType := x06.

(** A [Field].  [ptr] is [None] for a nil pointer and otherwise holds the
    bytes found at the address. *)
Record Field : Type := mkField {
  Key : list byte;
  Typ : FieldType;
  num : Z;
  str : list byte;
  fptr : option (list byte)
}.

(** The constructors.  A float argument is given by its bit pattern. *)
Definition Int (key : list byte) (val : Z) : Field :=
  {| Key := key; Typ := FieldTypeInt; num := u64 val; str := []; fptr := None |}.
Definition Int64 (key : list byte) (val : Z) : Field :=
  {| Key := key; Typ := FieldTypeInt; num := u64 val; str := []; fptr := None |}.
Definition Uint (key : list byte) (val : Z) : Field :=
  {| Key := key; Typ := FieldTypeUint; num := u64 val; str := []; fptr := None |}.
Definition Uint64 (key : list byte) (val : Z) : Field :=
  {| Key := key; Typ := FieldTypeUint; num := val; str := []; fptr := None |}.
Definition Float32 (key : list byte) (bits : Z) : Field :=
  {| Key := key; Typ := FieldTypeFloat32; num := u64 (u32 bits); str := []; fptr := None |}.
Definition Float64 (key : list byte) (bits : Z) : Field :=
  {| Key := key; Typ := FieldTypeFloat64; num := u64 bits; str := []; fptr := None |}.
Definition String (key : list byte) (val : list byte) : Field :=
  {| Key := key; Typ := FieldTypeString; num := 0; str := val; fptr := None |}.
Definition Bool (key : list byte) (val : bool) : Field :=
  {| Key := key; Typ := FieldTypeBool; num := if val then 1 else 0; str := []; fptr := None |}.
(** [Bytes] takes the address of [val[0]]: it panics on an empty slice. *)
Definition Bytes (key : list byte) (val : list byte) : outcome Field :=
  match val with
  | [] => Panic
  | _ :: _ =>
      Ret {| Key := key; Typ := FieldTypeBytes; num := u64 (zlen val); str := [];
             fptr := Some val |}
  end.

(** The [uint32] read through an unsafe pointer to the [uint64] [n]: its
    first four bytes in memory, the low half on a little-endian machine and
    the high half on a big-endian one. *)
Definition float32Word (o : ByteOrder) (n : Z) : Z :=
  match o with
  | LittleEndian => u32 n
  | BigEndian => u32 (n ≫ 32)
  end.

(** [writeBinaryHeader]; it returns 22. *)
Definition writeBinaryHeader (o : ByteOrder) (now : Z) (buf : list byte) (level : Level)
  (seq : Z) : outcome (list byte * Z) :=
  buf ← storeNative o buf 0 4 MagicHeader;
  buf ← storeNative o buf 4 1 (byte.unsigned Version);
  buf ← storeNative o buf 5 1 (byte.unsigned level);
  buf ← storeNative o buf 6 8 seq;
  buf ← storeNative o buf 14 8 (u64 now);
  Ret (buf, 22).

(** The length prefix and the payload of a String or Bytes value:
    lines 309-322 and 329-342 with [n] the length and [payload] the bytes to
    copy, [None] when the copy is skipped. *)
Definition encodeLenPrefixed (buf : list byte) (pos : Z) (n : Z)
  (payload : option (list byte)) : outcome (list byte * Z) :=
  let maxLen := zlen buf - pos - 2 in
  let n := if n >? maxLen then maxLen else n in
  let n := if n >? 65535 then 65535 else n in
  buf ← store buf pos (byte.of_Z (n ≫ 8));
  buf ← store buf (pos + 1) (byte.of_Z n);
  let pos := pos + 2 in
  match payload with
  | Some src =>
      if 0 <? n then
        d ← slice src 0 n;
        buf ← copy_at buf pos d;
        Ret (buf, pos + n)
      else Ret (buf, pos)
  | None => Ret (buf, pos)
  end.

(** [encodeField]: the buffer after the call and the number of bytes
    written. *)
Definition encodeField (o : ByteOrder) (buf : list byte) (f : Field)
  : outcome (list byte * Z) :=
  if zlen buf <? 10 then Ret (buf, 0)
  else
    let pos := 0 in
    let keyLen := zlen (Key f) in
    let keyLen := if keyLen >? 255 then 255 else keyLen in
    let keyLen := if keyLen >? zlen buf - pos - 2 then zlen buf - pos - 2 else keyLen in
    if keyLen <? 0 then Ret (buf, 0)
    else
      buf ← store buf pos (byte.of_Z keyLen);
      let pos := pos + 1 in
      k ← slice (Key f) 0 keyLen;
      buf ← copy_at buf pos k;
      let pos := pos + keyLen in
      buf ← store buf pos (Typ f);
      let pos := pos + 1 in
      match Typ f with
      | x00 | x01 | x05 | x03 =>
          if zlen buf - pos <? 8 then Ret (buf, pos)
          else
            buf ← storeBE 8 buf pos (num f);
            Ret (buf, pos + 8)
      | x02 =>
          if zlen buf - pos <? 4 then Ret (buf, pos)
          else
            let v := float32Word o (num f) in
            buf ← storeBE 4 buf pos v;
            Ret (buf, pos + 4)
      | x04 =>
          if zlen buf - pos <? 2 then Ret (buf, pos)
          else encodeLenPrefixed buf pos (zlen (str f)) (Some (str f))
      | x06 =>
          if zlen buf - pos <? 2 then Ret (buf, pos)
          else encodeLenPrefixed buf pos (i64 (num f)) (fptr f)
      | _ => Ret (buf, pos)
      end.

(** The field loop of [formatStructuredMessage]: [encodeField] writes into
    the slice [buf[pos:]], which shares its bytes with [buf]. *)
Fixpoint encodeFields (o : ByteOrder) (fs : list Field) (buf : list byte) (pos : Z)
  : outcome (list byte * Z) :=
  match fs with
  | [] => Ret (buf, pos)
  | f :: fs' =>
      if pos <? zlen buf - 64 then
        sub ← slice buf pos (zlen buf);
        '(sub, n) ← encodeField o sub f;
        encodeFields o fs' (take (Z.to_nat pos) buf ++ sub) (pos + n)
      else Ret (buf, pos)
  end.

(** [formatStructuredMessage]: the buffer, the number of bytes written and
    the new sequence counter ([seq] is the counter before the call). *)
Definition formatStructuredMessage (o : ByteOrder) (now seq : Z) (buf : list byte)
  (level : Level) (msg : list byte) (fields : list Field)
  : outcome (list byte * Z * Z) :=
  let pos := 0 in
  '(buf, n) ← writeBinaryHeader o now buf level (u64 (seq + 1));
  let pos := pos + n in
  let msgLen := zlen msg in
  let msgLen := if msgLen >? 255 then 255 else msgLen in
  buf ← store buf pos (byte.of_Z msgLen);
  let pos := pos + 1 in
  m ← slice msg 0 msgLen;
  buf ← copy_at buf pos m;
  let pos := pos + msgLen in
  let fieldCount := zlen fields in
  let fieldCount := if fieldCount >? 255 then 255 else fieldCount in
  buf ← store buf pos (byte.of_Z fieldCount);
  let pos := pos + 1 in
  '(buf, pos) ← encodeFields o (take (Z.to_nat fieldCount) fields) buf pos;
  Ret (buf, pos, u64 (seq + 1)).

(** [StructuredLogger.logFields]: the bytes passed to the writer, the new
    sequence counter and the pool state. *)
Definition logFields (o : ByteOrder) (now seq : Z) (level : Level) (msg : list byte)
  (fields : list Field) (ps : PoolState) : outcome (list byte * Z * PoolState) :=
  let msgLen := zlen msg in
  let msgLen := if msgLen >? 255 then 255 else msgLen in
  let estimatedSize :=
    fold_left (fun acc f => acc + (2 + zlen (Key f) + 16)) fields (24 + msgLen) in
  if estimatedSize <=? 512 then
    '(buf, n, seq) ← formatStructuredMessage o now seq (replicate 512 x00) level msg fields;
    out ← slice buf 0 n;
    Ret (out, seq, ps)
  else
    '(p, bp, h) ← BufferPool_Get (estimatedSize + 256) (gpool ps) (gheap ps);
    s ← deref h p;
    let s := if cap s <? estimatedSize then make0 estimatedSize else s in
    '(buf, n, seq) ← formatStructuredMessage o now seq (arr s) level msg fields;
    out ← slice buf 0 n;
    let h := <[p := {| arr := buf; len := len s |}]> h in
    ps ← PutBuffer p {| gpool := bp; gheap := h |};
    Ret (out, seq, ps).

(** ** The terminal writer file *)

Definition bytesOf (s : string) : list byte := list_byte_of_string s.

Definition colorReset : list byte := x1b :: bytesOf "[0m".
Definition colorRed : list byte := x1b :: bytesOf "[31m".
Definition colorGreen : list byte := x1b :: bytesOf "[32m".
Definition colorYellow : list byte := x1b :: bytesOf "[33m".
Definition colorMagenta : list byte := x1b :: bytesOf "[35m".
Definition colorCyan : list byte := x1b :: bytesOf "[36m".

Definition termMsgJust : Z := 40.

Definition spaces : list byte := replicate 40 x20.

Definition levelStrings : list (list byte) :=
  [ bytesOf "DEBUG"; bytesOf "INFO "; bytesOf "WARN "; bytesOf "ERROR";
    bytesOf "FATAL"; bytesOf "UNKN " ].

Definition levelColors : list (list byte) :=
  [ colorCyan; colorGreen; colorYellow; colorRed; colorMagenta; [] ].

(** The loop of [appendUint] over its 20-byte scratch array: one turn per
    decimal digit, the array filled from its end. *)
Fixpoint digitsLoop (room : nat) (v : Z) (tmp : list byte) : outcome (list byte) :=
  if 0 <? v then
    match room with
    | O => Panic
    | S room' => digitsLoop room' (v / 10) (byte.of_Z (v mod 10 + 48) :: tmp)
    end
  else Ret tmp.

(** [appendUint], on a [uint64]. *)
Definition appendUint (buf : list byte) (v : Z) : outcome (list byte) :=
  if v =? 0 then Ret (buf ++ [x30])
  else
    tmp ← digitsLoop 20 v [];
    Ret (buf ++ tmp).

(** [appendInt], on an [int64]; the negation wraps. *)
Definition appendInt (buf : list byte) (v : Z) : outcome (list byte) :=
  if v <? 0 then appendUint (buf ++ [x2d]) (u64 (i64 (- v)))
  else appendUint buf (u64 v).

Definition hexDigits : list byte := bytesOf "0123456789abcdef".

(** [appendHex]. *)
Fixpoint appendHex (buf : list byte) (data : list byte) : outcome (list byte) :=
  match data with
  | [] => Ret buf
  | b :: data' =>
      hi ← index hexDigits (byte.unsigned b ≫ 4);
      lo ← index hexDigits (Z.land (byte.unsigned b) 15);
      appendHex (buf ++ [hi; lo]) data'
  end.

(** The bytes [escapeStringOptimized] looks for: the double quote, the
    backslash, line feed, carriage return and tab. *)
Definition isSpecial (b : byte) : bool :=
  match b with
  | x22 | x5c | x0a | x0d | x09 => true
  | _ => false
  end.

Definition isSpace (b : byte) : bool :=
  match b with
  | x20 => true
  | _ => false
  end.

(** The first loop of [escapeStringOptimized], four bytes a turn: whether a
    special byte was met, the [hasSpace] flag, and the bytes from the
    position [i] where the loop stopped. *)
Fixpoint scanUnrolled (s : list byte) (hasSpace : bool) : bool * bool * list byte :=
  match s with
  | a :: ((b :: c :: d :: rest) as s1) =>
      if isSpecial a || isSpecial b || isSpecial c || isSpecial d
      then (true, hasSpace, s)
      else scanUnrolled rest
             (if isSpace a || isSpace b || isSpace c || isSpace d then true else hasSpace)
  | _ => (false, hasSpace, s)
  end.

(** The second loop, over the remaining bytes. *)
Fixpoint scanRest (s : list byte) (hasSpace : bool) : bool * bool :=
  match s with
  | [] => (false, hasSpace)
  | a :: s' =>
      if isSpecial a then (true, hasSpace)
      else scanRest s' (if isSpace a then true else hasSpace)
  end.

(** The escaping loop. *)
Fixpoint escapeBytes (buf : list byte) (s : list byte) : list byte :=
  match s with
  | [] => buf
  | b :: s' =>
      escapeBytes
        (match b with
         | x5c => buf ++ [x5c; x5c]
         | x22 => buf ++ [x5c; x22]
         | x0a => buf ++ [x5c; x6e]
         | x0d => buf ++ [x5c; x72]
         | x09 => buf ++ [x5c; x74]
         | _ => buf ++ [b]
         end) s'
  end.

(** [escapeStringOptimized]. *)
Definition escapeStringOptimized (buf : list byte) (s : list byte) : list byte :=
  let '(needsEscape, hasSpace, rest) := scanUnrolled s false in
  let '(needsEscape, hasSpace) :=
    if negb needsEscape then scanRest rest hasSpace else (needsEscape, hasSpace) in
  if negb needsEscape && hasSpace then (buf ++ [x22]) ++ s ++ [x22]
  else if negb needsEscape then buf ++ s
  else escapeBytes (buf ++ [x22]) s ++ [x22].

(** [escapeString]. *)
Definition escapeString (s : list byte) : list byte := escapeStringOptimized [] s.

(** What [decodeFieldValueBuf] reads before it renders: the integer or the
    bytes of the value, or nothing when it appends the placeholder. *)
Inductive Value : Type :=
| VInt (v : Z)
| VUint (v : Z)
| VBool (v : Z)
| VFloat32 (bits : Z)
| VFloat64 (bits : Z)
| VString (s : list byte)
| VBytes (s : list byte)
| VPlaceholder.

(** What [TerminalWriter.Write] holds in its local variables while it parses
    a record. *)
Record Parsed : Type := mkParsed {
  p_level : Level;
  p_timestamp : Z;
  p_msgStart : Z;
  p_msg : list byte;
  p_fields : list (list byte * FieldType * Value)
}.

Section Terminal.
(** The byte order of the machine, the text of a time stamp in the
    writer's format ([time.Unix(0, t).AppendFormat]), the text
    [appendFloat64] produces for a float64 given by its bits, and the
    conversion [float64(f)] of a float32, on bit patterns. *)
Context (o : ByteOrder) (timeText : Z -> list byte)
        (float64Text : Z -> list byte) (float32to64 : Z -> Z).

Definition appendFloat64 (buf : list byte) (bits : Z) : list byte :=
  buf ++ float64Text bits.

Definition appendFloat32 (buf : list byte) (bits : Z) : list byte :=
  appendFloat64 buf (float32to64 bits).

(** The reading half of [decodeFieldValueBuf]: the value and the cursor
    it returns. *)
Definition readFieldValue (b : list byte) (pos : Z) (fieldType : FieldType)
  : outcome (Value * Z) :=
  match fieldType with
  | x00 =>
      if zlen b - pos <? 8 then Ret (VPlaceholder, pos + 8)
      else v ← loadBE 8 b pos; Ret (VInt v, pos + 8)
  | x01 =>
      if zlen b - pos <? 8 then Ret (VPlaceholder, pos + 8)
      else v ← loadBE 8 b pos; Ret (VUint v, pos + 8)
  | x05 =>
      if zlen b - pos <? 8 then Ret (VPlaceholder, pos + 8)
      else v ← loadBE 8 b pos; Ret (VBool v, pos + 8)
  | x02 =>
      if zlen b - pos <? 4 then Ret (VPlaceholder, pos + 4)
      else v ← loadBE 4 b pos; Ret (VFloat32 v, pos + 4)
  | x03 =>
      if zlen b - pos <? 8 then Ret (VPlaceholder, pos + 8)
      else v ← loadBE 8 b pos; Ret (VFloat64 v, pos + 8)
  | x04 =>
      if zlen b - pos <? 2 then Ret (VPlaceholder, pos + 2)
      else
        slen ← loadBE 2 b pos;
        if zlen b - pos <? 2 + slen then Ret (VPlaceholder, pos + 2 + slen)
        else s ← slice b (pos + 2) (pos + 2 + slen); Ret (VString s, pos + 2 + slen)
  | x06 =>
      if zlen b - pos <? 2 then Ret (VPlaceholder, pos + 2)
      else
        blen ← loadBE 2 b pos;
        if zlen b - pos <? 2 + blen then Ret (VPlaceholder, pos + 2 + blen)
        else s ← slice b (pos + 2) (pos + 2 + blen); Ret (VBytes s, pos + 2 + blen)
  | _ => Ret (VPlaceholder, pos)
  end.

(** The rendering half. *)
Definition appendValue (buf : list byte) (v : Value) : outcome (list byte) :=
  match v with
  | VInt v => appendInt buf (i64 v)
  | VUint v => appendUint buf v
  | VBool v => if v =? 0 then Ret (buf ++ bytesOf "false") else Ret (buf ++ bytesOf "true")
  | VFloat32 bits => Ret (appendFloat32 buf bits)
  | VFloat64 bits => Ret (appendFloat64 buf bits)
  | VString s => Ret (escapeStringOptimized buf s)
  | VBytes s => appendHex buf s
  | VPlaceholder => Ret (buf ++ [x3f])
  end.

(** [decodeFieldValueBuf]. *)
Definition decodeFieldValueBuf (buf b : list byte) (pos : Z) (fieldType : FieldType)
  : outcome (list byte * Z) :=
  '(v, pos') ← readFieldValue b pos fieldType;
  buf ← appendValue buf v;
  Ret (buf, pos').

(** [fieldValueSize]. *)
Definition fieldValueSize (b : list byte) (fieldType : FieldType) : outcome Z :=
  match fieldType with
  | x00 | x01 | x05 | x03 => Ret 8
  | x02 => Ret 4
  | x04 | x06 =>
      if zlen b >=? 2 then n ← loadBE 2 b 0; Ret (2 + n) else Ret 0
  | _ => Ret 0
  end.

(** [decodeFieldValue]. *)
Definition decodeFieldValue (b : list byte) (fieldType : FieldType) : outcome (list byte) :=
  '(result, _) ← decodeFieldValueBuf [] b 0 fieldType;
  Ret result.

(** Lines 104-136 of [Write]: the time stamp, the message length and the
    message start, or the error returned. *)
Definition detectFormat (b : list byte) : outcome (error + Z * Z * Z) :=
  if zlen b >=? 16 then
    possibleMsgLen ← loadNative o b 14 2;
    if (0 <? possibleMsgLen) && (possibleMsgLen <=? 65535)
       && (zlen b >=? 16 + possibleMsgLen)
    then
      timestamp ← loadNative o b 6 8;
      Ret (inr (timestamp, possibleMsgLen, 16))
    else if zlen b >=? 23 then
      x ← index b 22;
      let possibleMsgLen := byte.unsigned x in
      if zlen b >=? 23 + possibleMsgLen then
        timestamp ← loadNative o b 14 8;
        Ret (inr (timestamp, possibleMsgLen, 23))
      else Ret (inl ErrCannotDetermineFormat)
    else Ret (inl ErrMessageTruncated)
  else Ret (inl ErrFormatTooShort).

(** The field loop of [Write], with [n] turns left and loop counter [i];
    [acc] collects the fields parsed so far. *)
Fixpoint decodeFields (n : nat) (i : Z) (useColor : bool) (level : Level)
  (b : list byte) (pos : Z) (buf : list byte)
  (acc : list (list byte * FieldType * Value))
  : outcome (list byte * list (list byte * FieldType * Value)) :=
  match n with
  | O => Ret (buf, acc)
  | S n' =>
      if pos <? zlen b then
        let buf := if 0 <? i then buf ++ [x20] else buf in
        kl ← index b pos;
        let keyLen := byte.unsigned kl in
        let pos := pos + 1 in
        if pos + keyLen >? zlen b then Ret (buf, acc)
        else
          let keyStart := pos in
          let keyEnd := pos + keyLen in
          let pos := pos + keyLen in
          if pos >=? zlen b then Ret (buf, acc)
          else
            fieldType ← index b pos;
            let pos := pos + 1 in
            key ← slice b keyStart keyEnd;
            buf ← (if useColor && (byte.unsigned level <? 5) then
                     color ← index levelColors (byte.unsigned level);
                     Ret (buf ++ color ++ key ++ colorReset ++ [x3d])
                   else Ret (buf ++ key ++ [x3d]));
            '(v, pos) ← readFieldValue b pos fieldType;
            buf ← appendValue buf v;
            decodeFields n' (i + 1) useColor level b pos buf (acc ++ [(key, fieldType, v)])
      else Ret (buf, acc)
  end.

(** The body of [TerminalWriter.Write] up to the call of [w.out.Write]:
    the error it returns, or the line it has built together with what it
    parsed. *)
Definition decodeLine (useColor : bool) (b : list byte)
  : outcome (error + list byte * Parsed) :=
  if zlen b <? 16 then Ret (inl ErrTooShort)
  else
    magic ← loadNative o b 0 4;
    if negb (magic =? MagicHeader) then Ret (inl ErrInvalidMagic)
    else
      level ← index b 5;
      d ← detectFormat b;
      match d with
      | inl e => Ret (inl e)
      | inr (timestamp, msgLen, msgStart) =>
          let msgEnd := if 0 <? msgLen then msgStart + msgLen else 0 in
          let buf := [] in
          buf ← (if useColor && (byte.unsigned level <? 5) then
                   color ← index levelColors (byte.unsigned level);
                   name ← index levelStrings (byte.unsigned level);
                   Ret (buf ++ color ++ name ++ colorReset)
                 else if byte.unsigned level <? 5 then
                   name ← index levelStrings (byte.unsigned level);
                   Ret (buf ++ name)
                 else
                   name ← index levelStrings 5;
                   Ret (buf ++ name));
          let buf := buf ++ [x5b] in
          let buf := buf ++ timeText (i64 timestamp) in
          let buf := buf ++ bytesOf "] " in
          msg ← (if msgEnd >? msgStart then slice b msgStart msgEnd else Ret []);
          let buf := buf ++ msg in
          let pos := msgStart + msgLen in
          buf ← (if (pos <? zlen b) && (msgEnd - msgStart <? termMsgJust) then
                   let padding := termMsgJust - (msgEnd - msgStart) in
                   if (0 <? padding) && (padding <=? zlen spaces) then
                     sp ← slice spaces 0 padding;
                     Ret (buf ++ sp)
                   else Ret buf
                 else Ret buf);
          '(buf, fields) ←
            (if pos <? zlen b then
               fc ← index b pos;
               let fieldCount := byte.unsigned fc in
               let pos := pos + 1 in
               decodeFields (Z.to_nat fieldCount) 0 useColor level b pos buf []
             else Ret (buf, []));
          let buf := buf ++ [x0a] in
          Ret (inr (buf, {| p_level := level; p_timestamp := timestamp;
                            p_msgStart := msgStart; p_msg := msg;
                            p_fields := fields |}))
      end.

(** [TerminalWriter.Write]: the result pair and the line passed to
    [w.out.Write], if any; [outErr] is the error that call returns. *)
Definition TerminalWriter_Write (useColor : bool) (outErr : option error)
  (b : list byte) : outcome (Z * option error * option (list byte)) :=
  d ← decodeLine useColor b;
  match d with
  | inl e => Ret (0, Some e, None)
  | inr (line, _) => Ret (zlen b, outErr, Some line)
  end.
End Terminal.

(** ** Notions used to state and prove the properties *)

(** [buf] with the bytes [bs] written over it from position [pos] on. *)
Definition splice {A : Type} (buf : list A) (pos : Z) (bs : list A) : list A :=
  take (Z.to_nat pos) buf ++ bs ++ drop (Z.to_nat pos + length bs) buf.

(** The [w] low bytes of [v], most significant first. *)
Definition beBytes (w : nat) (v : Z) : list byte := rev (leBytes w v).

(** The wire bytes of a record, written as one expression: what the encoder
    is shown to produce when nothing has to be cut. *)
Definition headerBytes (o : ByteOrder) (now : Z) (level : Level) (seq : Z) : list byte :=
  nativeBytes o 4 MagicHeader ++ [Version; level] ++
  nativeBytes o 8 seq ++ nativeBytes o 8 (u64 now).

Definition valueBytes (o : ByteOrder) (f : Field) : list byte :=
  match Typ f with
  | x00 | x01 | x05 | x03 => beBytes 8 (num f)
  | x02 => beBytes 4 (float32Word o (num f))
  | x04 => beBytes 2 (zlen (str f)) ++ str f
  | x06 => beBytes 2 (num f) ++ default [] (fptr f)
  | _ => []
  end.

Definition fieldBytes (o : ByteOrder) (f : Field) : list byte :=
  [byte.of_Z (zlen (Key f))] ++ Key f ++ [Typ f] ++ valueBytes o f.

Definition fieldsBytes (o : ByteOrder) (fs : list Field) : list byte :=
  concat (map (fieldBytes o) fs).

Definition wireBytes (o : ByteOrder) (now seq : Z) (level : Level) (msg : list byte)
  (fields : list Field) : list byte :=
  headerBytes o now level (u64 (seq + 1)) ++
  [byte.of_Z (zlen msg)] ++ msg ++
  [byte.of_Z (zlen fields)] ++ fieldsBytes o fields.

(** The wire bytes of a Basic record, as [Logger.log] is shown to write
    them: the whole message behind a 16-byte header. *)
Definition basicBytes (o : ByteOrder) (now : Z) (level : byte) (msg : list byte)
  : list byte :=
  nativeBytes o 4 MagicHeader ++ [Version; level] ++ nativeBytes o 8 (u64 now) ++
  nativeBytes o 2 (u16 (zlen msg)) ++ msg.

(** The wire bytes of a record of the UltimateLogger: the message cut at 200
    bytes behind the 22-byte header and a one-byte length. *)
Definition ultimateBytes (o : ByteOrder) (now seq : Z) (level : byte) (msg : list byte)
  : list byte :=
  headerBytes o now level (u64 (seq + 1)) ++
  [byte.of_Z (zlen (take 200 msg))] ++ take 200 msg.

(** Every pointer kept in a class pool is the address of a buffer. *)
Definition poolsValid (ps : PoolState) : Prop :=
  Forall (Forall (fun p : ptr => (p < length (gheap ps))%nat)) (pools (gpool ps)).

(** A field the wire format can carry whole: a key of at most 255 bytes, one
    of the seven types, a number that is a [uint64] (a [uint32] the encoder
    reads back unchanged for Float32), a string of at most 65535 bytes, or a
    pointer to between 1 and 65535 bytes whose count is [num]. *)
Definition wfField (o : ByteOrder) (f : Field) : Prop :=
  zlen (Key f) <= 255 /\
  match Typ f with
  | x00 | x01 | x03 | x05 => 0 <= num f < 2 ^ 64
  | x02 => 0 <= num f < 2 ^ 32 /\ float32Word o (num f) = num f
  | x04 => zlen (str f) <= 65535
  | x06 => exists mem, fptr f = Some mem /\ num f = zlen mem /\ 1 <= zlen mem <= 65535
  | _ => False
  end.

(** What the decoder should read back from a field: its key, its type and
    its value. *)
Definition fieldView (f : Field) : list byte * FieldType * Value :=
  (Key f, Typ f,
   match Typ f with
   | x00 => VInt (num f)
   | x01 => VUint (num f)
   | x05 => VBool (num f)
   | x02 => VFloat32 (num f)
   | x03 => VFloat64 (num f)
   | x04 => VString (str f)
   | x06 => VBytes (default [] (fptr f))
   | _ => VPlaceholder
   end).

(** A value [readFieldValue] can return: an unsigned number is a [uint64]. *)
Definition valueInRange (v : Value) : Prop :=
  match v with
  | VUint n => n < 2 ^ 64
  | _ => True
  end.

(** The 16-bit number the decoder finds at offset 14 of a Structured
    record: the first two bytes in memory of the time stamp. *)
Definition tsProbe (o : ByteOrder) (now : Z) : Z :=
  nativeValue o (take 2 (nativeBytes o 8 (u64 now))).

(** One [n |= n >> k] step of [nextPowerOf2]. *)
Definition orShift (k x : Z) : Z := Z.lor x (x ≫ k).

(** Bit [i] of [x] is set exactly when one of the [w] bits of [m] from [i]
    upwards is set. *)
Definition smeared (w m x : Z) : Prop :=
  forall i, 0 <= i ->
    (Z.testbit x i = true <-> exists j, 0 <= j < w /\ Z.testbit m (i + j) = true).

(** A capacity [NewRingBuffer] can produce: a power of two up to [2^62]. *)
Definition pow2cap (c : Z) : Prop := exists k, 0 <= k <= 62 /\ c = 2 ^ k.

(** The distance from [tl] forward to [j] around a ring of [c] slots. *)
Definition dist (c tl j : Z) : Z := if tl <=? j then j - tl else j - tl + c.

(** The ring [r] has capacity [c] and holds the items [l], oldest first: the
    slots from [tail] up to [head] hold them in order and every other slot
    is nil. *)
Definition ring_repr {T : Type} (r : RingBuffer T) (c : Z) (l : list T) : Prop :=
  pow2cap c /\
  zlen (buffer r) = c /\
  mask r = c - 1 /\
  0 <= head r < c /\
  0 <= tail r < c /\
  zlen l = dist c (tail r) (head r) /\
  forall j, 0 <= j < c ->
    buffer r !! Z.to_nat j = Some (l !! Z.to_nat (dist c (tail r) j)).

(** The number of slots that hold an item. *)
Definition occupied {T : Type} (r : RingBuffer T) : Z :=
  zlen (filter (fun s : option T => is_Some s) (buffer r)).

(** A sequential run on a ring: a list of calls, made one after the other
    by a single goroutine.  [runOps] performs them and keeps the occupancy:
    the number of [Put]s that returned true less the number of [Get]s that
    returned an item. *)
Inductive RingOp (T : Type) : Type :=
| DoPut (x : T)
| DoGet.
Arguments DoPut {T} x.
Arguments DoGet {T}.

Definition stepOp {T : Type} (op : RingOp T) (st : RingBuffer T * Z)
  : outcome (RingBuffer T * Z) :=
  let '(r, n) := st in
  match op with
  | DoPut x =>
      '(ok, r') ← RingBuffer_Put x r;
      Ret (r', if ok : bool then n + 1 else n)
  | DoGet =>
      '(got, r') ← RingBuffer_Get r;
      Ret (r', match got with Some _ => n - 1 | None => n end)
  end.

Fixpoint runOps {T : Type} (ops : list (RingOp T)) (st : RingBuffer T * Z)
  : outcome (RingBuffer T * Z) :=
  match ops with
  | [] => Ret st
  | op :: ops' => st' ← stepOp op st; runOps ops' st'
  end.

(** [Put] each item in turn; the results of the calls. *)
Fixpoint putAll {T : Type} (items : list T) (r : RingBuffer T)
  : outcome (list bool * RingBuffer T) :=
  match items with
  | [] => Ret ([], r)
  | x :: items' =>
      '(ok, r) ← RingBuffer_Put x r;
      '(oks, r) ← putAll items' r;
      Ret (ok :: oks, r)
  end.

(** [n] calls of [Get]; the results of the calls. *)
Fixpoint getN {T : Type} (n : nat) (r : RingBuffer T)
  : outcome (list (option T) * RingBuffer T) :=
  match n with
  | O => Ret ([], r)
  | S n' =>
      '(got, r) ← RingBuffer_Get r;
      '(gots, r) ← getN n' r;
      Ret (got :: gots, r)
  end.

(** ** The compatibility ring buffer *)

(** [OldRingBuffer] wraps a ring of entries and the pool the entries come
    from; the fields are [rb] and [pool] in the source. *)
Record OldRingBuffer : Type := mkOldRing {
  orb_rb : RingBuffer LogEntry;
  orb_pool : Pool LogEntry
}.

(** [NewCompatRingBuffer]: it panics unless [size & (size-1)] is zero. *)
Definition NewCompatRingBuffer (size : Z) : outcome OldRingBuffer :=
  if negb (Z.land size (i64 (size - 1)) =? 0) then Panic
  else
    r ← NewRingBuffer size;
    Ret {| orb_rb := r; orb_pool := [] |}.

(** [OldRingBuffer.Put]: the entry taken from the pool is filled with a copy
    of [data] and offered to the ring; it is not put back when the ring
    refuses it. *)
Definition OldRingBuffer_Put (d : list byte) (orb : OldRingBuffer)
  : outcome (bool * OldRingBuffer) :=
  let '(entry, p, _) := Pool_Get newLogEntry (orb_pool orb) tt in
  let entry := fillEntry entry d in
  '(ok, r) ← RingBuffer_Put entry (orb_rb orb);
  Ret (ok, {| orb_rb := r; orb_pool := p |}).

(** [OldRingBuffer.Get]: the bytes of the oldest entry, which goes back to
    the pool truncated; [None] stands for [(nil, false)]. *)
Definition OldRingBuffer_Get (orb : OldRingBuffer)
  : outcome (option (list byte) * OldRingBuffer) :=
  '(got, r) ← RingBuffer_Get (orb_rb orb);
  match got with
  | None => Ret (None, {| orb_rb := r; orb_pool := orb_pool orb |})
  | Some entry =>
      Ret (Some (contents (data entry)),
           {| orb_rb := r; orb_pool := Pool_Put (resetEntry entry) (orb_pool orb) |})
  end.

(** ** Further notions *)

(** What one call on a ring returned. *)
Inductive RingRes (T : Type) : Type :=
| PutRes (ok : bool)
| GetRes (got : option T).
Arguments PutRes {T} ok.
Arguments GetRes {T} got.

(** A sequential run on a ring with the result of every call. *)
Fixpoint ringTrace {T : Type} (ops : list (RingOp T)) (r : RingBuffer T)
  : outcome (list (RingRes T) * RingBuffer T) :=
  match ops with
  | [] => Ret ([], r)
  | DoPut x :: ops' =>
      '(ok, r) ← RingBuffer_Put x r;
      '(rs, r) ← ringTrace ops' r;
      Ret (PutRes ok :: rs, r)
  | DoGet :: ops' =>
      '(got, r) ← RingBuffer_Get r;
      '(rs, r) ← ringTrace ops' r;
      Ret (GetRes got :: rs, r)
  end.

(** The same run on a first-in first-out queue that holds at most [c - 1]
    items: what a ring of capacity [c] is meant to be. *)
Fixpoint queueTrace {T : Type} (c : Z) (ops : list (RingOp T)) (q : list T)
  : list (RingRes T) * list T :=
  match ops with
  | [] => ([], q)
  | DoPut x :: ops' =>
      if zlen q =? c - 1
      then let '(rs, q') := queueTrace c ops' q in (PutRes false :: rs, q')
      else let '(rs, q') := queueTrace c ops' (q ++ [x]) in (PutRes true :: rs, q')
  | DoGet :: ops' =>
      match q with
      | [] => let '(rs, q') := queueTrace c ops' [] in (GetRes None :: rs, q')
      | x :: q0 => let '(rs, q') := queueTrace c ops' q0 in (GetRes (Some x) :: rs, q')
      end
  end.

(** [Write] each byte string in turn, by one goroutine; the results of the
    calls. *)
Fixpoint writeAll (fuel : nat) (bs : list (list byte)) (aw : AsyncWriterV2)
  : outcome (list (Z * option error) * AsyncWriterV2) :=
  match bs with
  | [] => Ret ([], aw)
  | b :: bs' =>
      '(res, aw) ← AsyncWriterV2_Write fuel b aw;
      '(ress, aw) ← writeAll fuel bs' aw;
      Ret (res :: ress, aw)
  end.

(** The bytes the entries of a queue carry. *)
Definition payloads (l : list LogEntry) : list (list byte) :=
  map (fun e => contents (data e)) l.

(** The number a string of decimal digits denotes. *)
Definition decimalValue (ds : list byte) : Z :=
  fold_left (fun acc d => 10 * acc + (byte.unsigned d - 48)) ds 0.

Definition isDigit (b : byte) : bool :=
  (48 <=? byte.unsigned b) && (byte.unsigned b <=? 57).

(** The value of a lower-case hexadecimal digit, and the bytes a string of
    such digits denotes, two digits a byte. *)
Definition hexValue (d : byte) : Z :=
  if byte.unsigned d <? 58 then byte.unsigned d - 48 else byte.unsigned d - 87.

Fixpoint unhex (ds : list byte) : list byte :=
  match ds with
  | hi :: lo :: rest => byte.of_Z (16 * hexValue hi + hexValue lo) :: unhex rest
  | _ => []
  end.

(** The reading of an escaped string: a backslash and the byte after it
    stand for one byte. *)
Fixpoint unescape (s : list byte) : list byte :=
  match s with
  | [] => []
  | x5c :: c :: rest =>
      match c with
      | x6e => x0a
      | x72 => x0d
      | x74 => x09
      | _ => c
      end :: unescape rest
  | b :: rest => b :: unescape rest
  end.

(** The pointer of a Bytes field points to at least as many bytes as the
    field announces. *)
Definition ptrValid (f : Field) : Prop :=
  Typ f = x06 -> forall mem, fptr f = Some mem -> i64 (num f) <= zlen mem.


(** * Properties *)

(** ** Machine integers *)

Lemma u64_range (z : Z) : 0 <= u64 z < 2 ^ 64.
Proof. unfold u64. apply Z.mod_pos_bound. reflexivity. Qed.

Lemma u64_small (z : Z) : 0 <= z < 2 ^ 64 -> u64 z = z.
Proof. intros H. unfold u64. now apply Z.mod_small. Qed.

Lemma i64_small (z : Z) : - 2 ^ 63 <= z < 2 ^ 63 -> i64 z = z.
Proof. intros H. unfold i64. rewrite Z.mod_small; lia. Qed.

Ltac split_cmp :=
  repeat match goal with
         | |- context [?a <=? ?b] => destruct (Z.leb_spec a b)
         | |- context [?a <? ?b] => destruct (Z.ltb_spec a b)
         end.

(** ** The buffer pool *)

Lemma tab_range (k : Z) : 0 <= k < 64 -> 58 <= tab k <= 64.
Proof.
  intros Hk. unfold tab.
  assert (Hn : (Z.to_nat k < 64)%nat) by lia.
  revert Hn. generalize (Z.to_nat k) as n. intros n Hn.
  do 64 (destruct n as [|n]; [vm_compute; split; discriminate|]).
  lia.
Qed.

Lemma land63_range (a : Z) : 0 <= Z.land a 63 < 64.
Proof.
  change 63 with (Z.ones 6). rewrite Z.land_ones by lia.
  apply Z.mod_pos_bound. lia.
Qed.

Lemma shiftr58_range (x : Z) : 0 <= x < 2 ^ 64 -> 0 <= x ≫ 58 < 64.
Proof.
  intros Hx. rewrite Z.shiftr_div_pow2 by lia.
  change (2 ^ 64) with (2 ^ 58 * 64) in Hx.
  split.
  - apply Z.div_pos; lia.
  - apply Z.div_lt_upper_bound; lia.
Qed.

(** Whatever its argument, [leadingZeros64] returns a number between 464
    and 512: each of its eight table terms is between 58 and 64. *)
Lemma leadingZeros64_range (x : Z) :
  0 <= x < 2 ^ 64 -> 464 <= leadingZeros64 x <= 512.
Proof.
  intros Hx. unfold leadingZeros64.
  pose proof (tab_range _ (shiftr58_range _ Hx)).
  pose proof (tab_range _ (land63_range (x ≫ 52))).
  pose proof (tab_range _ (land63_range (x ≫ 46))).
  pose proof (tab_range _ (land63_range (x ≫ 40))).
  pose proof (tab_range _ (land63_range (x ≫ 34))).
  pose proof (tab_range _ (land63_range (x ≫ 28))).
  pose proof (tab_range _ (land63_range (x ≫ 22))).
  pose proof (tab_range _ (land63_range (x ≫ 16))).
  clear Hx. lia.
Qed.

Lemma sizeClass_zero (size : Z) : sizeClass size = 0.
Proof.
  unfold sizeClass.
  pose proof (leadingZeros64_range _ (u64_range (size - 1))) as H.
  revert H. generalize (leadingZeros64 (u64 (size - 1))) as z. intros z H.
  destruct (Z.ltb_spec (64 - z - 6) 0); lia.
Qed.

Lemma BufferPool_Put_keeps_pools (buf : ptr) (bp bp' : BufferPool) (h h' : Heap) :
  BufferPool_Put buf bp h = Ret (bp', h') -> bp' = bp.
Proof.
  unfold BufferPool_Put, deref.
  destruct (h !! buf) as [s|]; cbn [mbind outcome_bind]; [|discriminate].
  destruct (cap s =? 0); [congruence|].
  pose proof (leadingZeros64_range _ (u64_range (cap s - 1))) as H.
  revert H. generalize (leadingZeros64 (u64 (cap s - 1))) as z. intros z H.
  destruct (Z.leb_spec 0 (64 - z - 6)); [lia|].
  cbn [andb]. congruence.
Qed.

(** C4.  The class index [BufferPool.Get] computes is 0 at size 65 and at
    size 8192, where [ceil(log2(size)) - 6] clamped at 0 is 1 and 7. *)
Theorem C4_sizeClass_at_65 :
  sizeClass 65 = 0 /\ specClassIndex 65 = 1 /\
  sizeClass 8192 = 0 /\ specClassIndex 8192 = 7.
Proof. vm_compute. repeat split. Qed.

(** C3.  On a new pool, a buffer of capacity 64 obtained by [Get(64)] and
    returned by [Put] is not the buffer the next [Get(64)] returns: the
    second [Get] allocates, and every class pool is empty afterwards. *)
Theorem C3_put_then_get_allocates :
  exists b1 bp1 h1 s1 bp2 h2 b3 bp3 h3,
    BufferPool_Get 64 NewBufferPool [] = Ret (b1, bp1, h1) /\
    deref h1 b1 = Ret s1 /\ cap s1 = 64 /\
    BufferPool_Put b1 bp1 h1 = Ret (bp2, h2) /\
    BufferPool_Get 64 bp2 h2 = Ret (b3, bp3, h3) /\
    b3 <> b1 /\
    length h3 = S (length h1) /\
    pools bp2 = replicate 20 [].
Proof.
  do 9 eexists.
  split; [vm_compute; reflexivity|].
  split; [vm_compute; reflexivity|].
  split; [vm_compute; reflexivity|].
  split; [vm_compute; reflexivity|].
  split; [vm_compute; reflexivity|].
  split; [vm_compute; discriminate|].
  split; vm_compute; reflexivity.
Qed.


(** ** nextPowerOf2 *)

Lemma smeared_init (m : Z) : smeared 1 m m.
Proof.
  intros i Hi. split.
  - intros H. exists 0. split; [lia|]. now rewrite Z.add_0_r.
  - intros (j & Hj & H). assert (j = 0) by lia. subst. now rewrite Z.add_0_r in H.
Qed.

Lemma orShift_smeared (w m x : Z) :
  0 < w -> smeared w m x -> smeared (2 * w) m (orShift w x).
Proof.
  intros Hw Hx i Hi. unfold orShift. rewrite Z.lor_spec, Z.shiftr_spec by lia.
  rewrite orb_true_iff, (Hx i Hi), (Hx (i + w)) by lia. split.
  - intros [(j & Hj & H)|(j & Hj & H)].
    + exists j. split; [lia|exact H].
    + exists (w + j). split; [lia|]. now replace (i + (w + j)) with (i + w + j) by lia.
  - intros (j & Hj & H). destruct (Z.lt_ge_cases j w).
    + left. exists j. split; [lia|exact H].
    + right. exists (j - w). split; [lia|].
      now replace (i + w + (j - w)) with (i + j) by lia.
Qed.

Lemma orShift_nonneg (k x : Z) : 0 <= x -> 0 <= orShift k x.
Proof.
  intros Hx. apply Z.lor_nonneg. split; [exact Hx|]. now apply Z.shiftr_nonneg.
Qed.

Lemma smeared_ones (m x : Z) :
  0 < m -> Z.log2 m < 63 -> smeared 64 m x -> 0 <= x -> x = Z.ones (Z.log2 m + 1).
Proof.
  intros Hm HL Hx Hx0.
  pose proof (Z.log2_nonneg m) as HL0.
  apply Z.bits_inj'. intros i Hi.
  destruct (Z.lt_ge_cases i (Z.log2 m + 1)) as [Hlt|Hge].
  - rewrite Z.ones_spec_low by lia. apply (Hx i Hi).
    exists (Z.log2 m - i). split; [lia|].
    replace (i + (Z.log2 m - i)) with (Z.log2 m) by lia.
    apply Z.bit_log2. lia.
  - rewrite Z.ones_spec_high by lia.
    destruct (Z.testbit x i) eqn:E; [|reflexivity].
    apply (Hx i Hi) in E. destruct E as (j & Hj & E).
    rewrite Z.bits_above_log2 in E by lia. discriminate.
Qed.

Lemma nextPowerOf2_unfold (n : Z) :
  nextPowerOf2 n =
  i64 (orShift 32 (orShift 16 (orShift 8 (orShift 4 (orShift 2
         (orShift 1 (i64 (n - 1))))))) + 1).
Proof. reflexivity. Qed.

Lemma pow2_bounds (k : Z) : 0 <= k <= 62 -> 1 <= 2 ^ k <= 2 ^ 62.
Proof.
  intros Hk. split.
  - assert (0 < 2 ^ k) by (apply Z.pow_pos_nonneg; lia). lia.
  - apply Z.pow_le_mono_r; lia.
Qed.

Lemma pow2cap_bounds (c : Z) : pow2cap c -> 1 <= c <= 2 ^ 62.
Proof. intros (k & Hk & ->). now apply pow2_bounds. Qed.

Lemma log2_up_bounds (n : Z) : 1 <= n <= 2 ^ 62 -> 0 <= Z.log2_up n <= 62.
Proof.
  intros Hn. split; [apply Z.log2_up_nonneg|].
  change 62 with (Z.log2_up (2 ^ 62)). apply Z.log2_up_le_mono. lia.
Qed.

Lemma nextPowerOf2_log2_up (n : Z) :
  1 <= n <= 2 ^ 62 -> nextPowerOf2 n = 2 ^ Z.log2_up n.
Proof.
  intros Hn. rewrite nextPowerOf2_unfold.
  assert (H63 : 2 ^ 62 < 2 ^ 63) by reflexivity.
  rewrite (i64_small (n - 1)) by lia.
  destruct (Z.eq_dec n 1) as [->|Hn1]; [reflexivity|].
  set (m := n - 1).
  assert (Hm : 0 < m < 2 ^ 62) by lia.
  assert (HL : 0 <= Z.log2 m < 62).
  { split; [apply Z.log2_nonneg|]. apply Z.log2_lt_pow2; lia. }
  clear H63.
  pose proof (orShift_smeared 1 m _ ltac:(lia) (smeared_init m)) as H1.
  pose proof (orShift_smeared 2 m _ ltac:(lia) H1) as H2.
  pose proof (orShift_smeared 4 m _ ltac:(lia) H2) as H3.
  pose proof (orShift_smeared 8 m _ ltac:(lia) H3) as H4.
  pose proof (orShift_smeared 16 m _ ltac:(lia) H4) as H5.
  pose proof (orShift_smeared 32 m _ ltac:(lia) H5) as H6.
  assert (Hnn : 0 <= orShift 32 (orShift 16 (orShift 8 (orShift 4 (orShift 2 (orShift 1 m)))))).
  { repeat apply orShift_nonneg. lia. }
  rewrite (smeared_ones m _ ltac:(lia) ltac:(lia) H6 Hnn).
  rewrite Z.ones_equiv, Z.log2_up_eqn by lia.
  replace (Z.pred n) with m by lia.
  replace (Z.succ (Z.log2 m)) with (Z.log2 m + 1) by lia.
  pose proof (pow2_bounds (Z.log2 m + 1) ltac:(lia)) as Hb.
  revert Hb. generalize (2 ^ (Z.log2 m + 1)) as c. intros c Hb.
  replace (Z.pred c + 1) with c by lia.
  apply i64_small. assert (2 ^ 62 < 2 ^ 63) by reflexivity. lia.
Qed.

Lemma nextPowerOf2_pow2cap (n : Z) :
  1 <= n <= 2 ^ 62 -> pow2cap (nextPowerOf2 n).
Proof.
  intros Hn. exists (Z.log2_up n). split; [now apply log2_up_bounds|].
  now apply nextPowerOf2_log2_up.
Qed.


(** ** The ring buffer *)

Lemma next_index (c x : Z) :
  pow2cap c -> 0 <= x < c ->
  Z.land (u64 (x + 1)) (c - 1) = if x + 1 <? c then x + 1 else 0.
Proof.
  intros Hp Hx. pose proof (pow2cap_bounds c Hp) as Hc.
  destruct Hp as (k & Hk & Hck).
  assert (H62 : 2 ^ 62 < 2 ^ 64) by reflexivity.
  rewrite u64_small by lia.
  replace (c - 1) with (Z.ones k) by (rewrite Z.ones_equiv; lia).
  rewrite Z.land_ones by lia. rewrite <- Hck. clear Hck.
  destruct (Z.ltb_spec (x + 1) c).
  - apply Z.mod_small. lia.
  - replace (x + 1) with c by lia. apply Z.mod_same. lia.
Qed.

Section Ring.
Context {T : Type}.
Implicit Types (r : RingBuffer T) (l : list T) (x : T).

Lemma ring_repr_length r c l : ring_repr r c l -> 0 <= zlen l <= c - 1.
Proof.
  intros (Hp & Hlen & Hmask & Hh & Ht & Hl & Hslots).
  rewrite Hl. unfold dist. split_cmp; lia.
Qed.

Lemma Put_repr r c l x :
  ring_repr r c l ->
  if decide (zlen l = c - 1)
  then RingBuffer_Put x r = Ret (false, r)
  else exists r', RingBuffer_Put x r = Ret (true, r') /\ ring_repr r' c (l ++ [x]).
Proof.
  intros (Hp & Hlen & Hmask & Hh & Ht & Hl & Hslots).
  unfold RingBuffer_Put. rewrite Hmask.
  rewrite next_index by assumption.
  pose proof (pow2cap_bounds c Hp) as Hc.
  unfold dist in Hl.
  destruct (decide (zlen l = c - 1)) as [Hfull|Hfull].
  - replace (_ =? tail r) with true; [reflexivity|].
    symmetry; apply Z.eqb_eq. revert Hl. split_cmp; lia.
  - set (next := if head r + 1 <? c then head r + 1 else 0).
    assert (Hnext : 0 <= next < c /\ next <> tail r /\ dist c (tail r) next = zlen l + 1).
    { subst next. unfold dist. revert Hl. split_cmp; lia. }
    destruct Hnext as (Hn1 & Hn2 & Hn3).
    replace (next =? tail r) with false by (symmetry; apply Z.eqb_neq; lia).
    unfold store. rewrite decide_True by lia. cbn [mbind outcome_bind].
    eexists. split; [reflexivity|].
    split; [assumption|]. cbn [buffer mask head tail].
    split; [unfold zlen in *; rewrite length_insert; assumption|].
    split; [reflexivity|]. split; [assumption|]. split; [assumption|].
    split; [rewrite Hn3; unfold zlen in *; rewrite length_app; simpl; lia|].
    intros j Hj.
    destruct (decide (j = head r)) as [->|Hne].
    + rewrite list_lookup_insert_eq by (unfold zlen in *; lia).
      f_equal. replace (dist c (tail r) (head r)) with (zlen l) by (unfold dist; lia).
      unfold zlen. rewrite Nat2Z.id. symmetry. apply list_lookup_middle. reflexivity.
    + rewrite list_lookup_insert_ne by lia.
      rewrite Hslots by assumption. f_equal.
      assert (Hd : 0 <= dist c (tail r) j /\ dist c (tail r) j <> zlen l).
      { unfold dist. revert Hl. split_cmp; lia. }
      destruct Hd as [Hd0 Hd].
      destruct (Z.lt_ge_cases (dist c (tail r) j) (zlen l)).
      * symmetry. apply lookup_app_l. unfold zlen in *. lia.
      * rewrite !lookup_ge_None_2; [reflexivity| |]; unfold zlen in *;
          rewrite ?length_app; simpl; lia.
Qed.

Lemma Get_repr r c l :
  ring_repr r c l ->
  match l with
  | [] => RingBuffer_Get r = Ret (None, r)
  | x :: l' => exists r', RingBuffer_Get r = Ret (Some x, r') /\ ring_repr r' c l'
  end.
Proof.
  intros (Hp & Hlen & Hmask & Hh & Ht & Hl & Hslots).
  unfold RingBuffer_Get. rewrite Hmask.
  rewrite next_index by assumption.
  pose proof (pow2cap_bounds c Hp) as Hc.
  destruct l as [|x l'].
  - replace (tail r =? head r) with true; [reflexivity|].
    symmetry; apply Z.eqb_eq. unfold dist, zlen in Hl. simpl in Hl.
    revert Hl. split_cmp; lia.
  - assert (Hlx : zlen (x :: l') = zlen l' + 1) by (unfold zlen; simpl; lia).
    rewrite Hlx in Hl.
    replace (tail r =? head r) with false
      by (symmetry; apply Z.eqb_neq; unfold dist, zlen in Hl; revert Hl; split_cmp; lia).
    unfold index. rewrite decide_True by lia.
    rewrite (Hslots (tail r)) by lia.
    replace (dist c (tail r) (tail r)) with 0 by (unfold dist; split_cmp; lia).
    cbn [Z.to_nat lookup list_lookup mbind outcome_bind].
    unfold store. rewrite decide_True by lia. cbn [mbind outcome_bind].
    eexists. split; [reflexivity|].
    set (next := if tail r + 1 <? c then tail r + 1 else 0).
    split; [assumption|]. cbn [buffer mask head tail].
    split; [unfold zlen in *; rewrite length_insert; assumption|].
    split; [reflexivity|]. split; [assumption|].
    split; [subst next; split_cmp; lia|].
    split; [clear Hslots; subst next; unfold dist, zlen in *; revert Hl; split_cmp; lia|].
    intros j Hj.
    destruct (decide (j = tail r)) as [->|Hne].
    + rewrite list_lookup_insert_eq by (unfold zlen in *; lia).
      f_equal. symmetry. apply lookup_ge_None_2.
      assert (zlen l' <= dist c next (tail r)); [|unfold zlen in *; lia].
      clear Hslots; subst next; unfold dist, zlen in *; revert Hl; split_cmp; lia.
    + rewrite list_lookup_insert_ne by lia.
      rewrite Hslots by assumption. f_equal.
      assert (Hd : dist c (tail r) j = dist c next j + 1 /\ 0 <= dist c next j).
      { clear Hslots; subst next; unfold dist, zlen in *; revert Hl; split_cmp; lia. }
      destruct Hd as [-> Hd0].
      rewrite Z2Nat.inj_add by lia.
      replace (Z.to_nat (dist c next j) + Z.to_nat 1)%nat
        with (S (Z.to_nat (dist c next j))) by lia.
      reflexivity.
Qed.

Lemma NewRingBuffer_repr (R : Z) :
  1 <= R <= 2 ^ 62 ->
  exists r, NewRingBuffer (T := T) R = Ret r /\ ring_repr r (2 ^ Z.log2_up R) [] /\
            head r = 0 /\ tail r = 0 /\ Forall (fun s => s = None) (buffer r).
Proof.
  intros HR. unfold NewRingBuffer.
  pose proof (nextPowerOf2_pow2cap R HR) as Hp.
  rewrite nextPowerOf2_log2_up in * by assumption.
  pose proof (pow2cap_bounds _ Hp) as Hc.
  revert Hp Hc. generalize (2 ^ Z.log2_up R) as c. intros c Hp Hc.
  replace (c <? 0) with false by (symmetry; apply Z.ltb_ge; lia).
  eexists. split; [reflexivity|]. cbn [buffer mask head tail].
  split; [|split; [reflexivity|split; [reflexivity|apply Forall_replicate; reflexivity]]].
  split; [assumption|]. cbn [buffer mask head tail].
  split; [unfold zlen; rewrite length_replicate; lia|].
  split; [apply u64_small; assert (2 ^ 62 < 2 ^ 64) by reflexivity; lia|].
  split; [lia|]. split; [lia|].
  split; [reflexivity|].
  intros j Hj. rewrite lookup_replicate_2 by lia. reflexivity.
Qed.

Lemma runOps_repr (ops : list (RingOp T)) r c l :
  ring_repr r c l ->
  exists r' l', runOps ops (r, zlen l) = Ret (r', zlen l') /\ ring_repr r' c l'.
Proof.
  revert r l. induction ops as [|op ops IH]; intros r l Hr.
  - exists r, l. split; [reflexivity|assumption].
  - destruct op as [x|]; cbn [runOps stepOp].
    + pose proof (Put_repr r c l x Hr) as HP.
      destruct (decide (zlen l = c - 1)).
      * rewrite HP. cbn [mbind outcome_bind]. now apply IH.
      * destruct HP as (r' & -> & Hr'). cbn [mbind outcome_bind].
        destruct (IH r' (l ++ [x]) Hr') as (r2 & l2 & Hrun & Hr2).
        exists r2, l2. split; [|assumption].
        rewrite <- Hrun. f_equal. f_equal. unfold zlen. rewrite length_app. simpl. lia.
    + pose proof (Get_repr r c l Hr) as HG.
      destruct l as [|x l'].
      * rewrite HG. cbn [mbind outcome_bind]. now apply IH.
      * destruct HG as (r' & -> & Hr'). cbn [mbind outcome_bind].
        destruct (IH r' l' Hr') as (r2 & l2 & Hrun & Hr2).
        exists r2, l2. split; [|assumption].
        rewrite <- Hrun. f_equal. f_equal. unfold zlen. simpl. lia.
Qed.

Lemma putAll_repr (items : list T) r c l :
  ring_repr r c l -> zlen l + zlen items <= c - 1 ->
  exists r', putAll items r = Ret (replicate (length items) true, r') /\
             ring_repr r' c (l ++ items).
Proof.
  revert r l. induction items as [|x items IH]; intros r l Hr Hn.
  - exists r. split; [reflexivity|]. now rewrite app_nil_r.
  - assert (Hx : zlen (x :: items) = zlen items + 1) by (unfold zlen; simpl; lia).
    rewrite Hx in Hn.
    pose proof (Put_repr r c l x Hr) as HP.
    assert (0 <= zlen items) by (unfold zlen; lia).
    rewrite decide_False in HP by lia.
    destruct HP as (r' & HP & Hr').
    destruct (IH r' (l ++ [x]) Hr') as (r2 & Hrun & Hr2).
    { unfold zlen in *. rewrite length_app. simpl. lia. }
    exists r2. cbn [putAll]. rewrite HP. cbn [mbind outcome_bind].
    rewrite Hrun. cbn [mbind outcome_bind].
    split; [reflexivity|]. now rewrite <- app_assoc in Hr2.
Qed.

Lemma getN_repr (items l : list T) r c :
  ring_repr r c (items ++ l) ->
  exists r', getN (length items) r = Ret (map Some items, r') /\ ring_repr r' c l.
Proof.
  revert r. induction items as [|x items IH]; intros r Hr.
  - exists r. split; [reflexivity|assumption].
  - pose proof (Get_repr r c _ Hr) as HG. cbn [app] in HG.
    destruct HG as (r' & HG & Hr').
    destruct (IH r' Hr') as (r2 & Hrun & Hr2).
    exists r2. cbn [getN length]. rewrite HG. cbn [mbind outcome_bind].
    rewrite Hrun. cbn [mbind outcome_bind]. split; [reflexivity|assumption].
Qed.

Lemma ring_repr_inj_length r c l l' :
  ring_repr r c l -> ring_repr r c l' -> l = l'.
Proof.
  intros (Hp & Hlen & Hmask & Hh & Ht & Hl & Hslots)
         (_ & _ & _ & _ & _ & Hl' & Hslots').
  pose proof (pow2cap_bounds c Hp) as Hc.
  apply list_eq. intros i.
  destruct (Z.lt_ge_cases (Z.of_nat i) (zlen l)) as [Hi|Hi].
  - set (j := if tail r + Z.of_nat i <? c then tail r + Z.of_nat i
              else tail r + Z.of_nat i - c).
    assert (Hj : 0 <= j < c /\ dist c (tail r) j = Z.of_nat i).
    { subst j. unfold dist in *. revert Hl. split_cmp; lia. }
    destruct Hj as [Hj Hd].
    pose proof (Hslots j Hj) as H1. pose proof (Hslots' j Hj) as H2.
    rewrite Hd, Nat2Z.id in H1, H2. congruence.
  - rewrite !lookup_ge_None_2; [reflexivity| |]; unfold zlen in *; lia.
Qed.
End Ring.


(** C6.  A ring requested with size 0 gets capacity 0, which is not the
    next power of two (that is 1), and its first [Put] indexes an empty slot
    array and panics. *)
Theorem C6_ring_of_size_zero :
  nextPowerOf2 0 = 0 /\
  exists r : RingBuffer unit,
    NewRingBuffer 0 = Ret r /\ zlen (buffer r) = 0 /\ mask r = 2 ^ 64 - 1 /\
    RingBuffer_Put tt r = Panic.
Proof.
  split; [vm_compute; reflexivity|].
  eexists. split; [vm_compute; reflexivity|].
  split; [vm_compute; reflexivity|].
  split; vm_compute; reflexivity.
Qed.

(** X28.  For a requested size from 1 to [2^62] the ring has
    [2 ^ ceil(log2 R)] slots: the least power of two that is at least [R];
    the mask is the capacity less one and the ring starts empty. *)
Theorem NewRingBuffer_capacity (T : Type) (R : Z) :
  1 <= R <= 2 ^ 62 ->
  exists r : RingBuffer T,
    NewRingBuffer R = Ret r /\
    zlen (buffer r) = 2 ^ Z.log2_up R /\
    R <= zlen (buffer r) < 2 * R /\
    mask r = zlen (buffer r) - 1 /\
    head r = 0 /\ tail r = 0 /\
    Forall (fun s => s = None) (buffer r).
Proof.
  intros HR.
  destruct (NewRingBuffer_repr (T := T) R HR) as (r & Hnew & Hr & Hhd & Htl & Hnil).
  exists r. split; [exact Hnew|].
  pose proof Hr as (Hp & Hlen & Hmask & Hh & Ht & Hl & Hslots).
  split; [exact Hlen|]. rewrite Hlen.
  split; [|repeat split; assumption].
  clear Hnew Hr Hp Hlen Hmask Hh Ht Hl Hslots Hhd Htl Hnil.
  destruct (Z.eq_dec R 1) as [->|HR1]; [vm_compute; split; [discriminate|reflexivity]|].
  pose proof (Z.log2_up_spec R ltac:(lia)) as [Hlo Hhi].
  assert (Hpos : 0 < Z.log2_up R) by (apply Z.log2_up_pos; lia).
  split; [exact Hhi|].
  replace (Z.log2_up R) with (Z.succ (Z.pred (Z.log2_up R))) at 1 by lia.
  rewrite Z.pow_succ_r by lia.
  revert Hlo. generalize (2 ^ Z.pred (Z.log2_up R)) as p. intros p Hlo. lia.
Qed.

Lemma NewRingBuffer_capacity_witness :
  exists r : RingBuffer nat,
    NewRingBuffer 5 = Ret r /\
    zlen (buffer r) = 2 ^ Z.log2_up 5 /\
    5 <= zlen (buffer r) < 2 * 5 /\
    mask r = zlen (buffer r) - 1 /\
    head r = 0 /\ tail r = 0 /\
    Forall (fun s => s = None) (buffer r).
Proof. apply (NewRingBuffer_capacity nat 5). vm_compute. split; discriminate. Defined.






(** ** The asynchronous writer *)

Lemma contents_fillEntry (e : LogEntry) (b : list byte) :
  contents (data (fillEntry e b)) = b.
Proof.
  unfold fillEntry, contents. cbn [data arr len].
  destruct (cap (data e) <? zlen b); cbn [reslice arr len];
    unfold zlen; rewrite Nat2Z.id; apply take_app_length.
Qed.

(** The entry [Write] takes from the pool and fills with [b], and the pool
    it leaves. *)
Lemma Write_unfold (fuel : nat) (b : list byte) (aw : AsyncWriterV2) :
  exists entry p,
    contents (data entry) = b /\
    AsyncWriterV2_Write fuel b aw =
      Write_loop fuel (zlen b) entry
        {| rb := rb aw; writer := writer aw; done := done aw; pool := p |}.
Proof.
  unfold AsyncWriterV2_Write, Pool_Get, newLogEntry.
  destruct (pool aw) as [|e p].
  - eexists _, _. split; [apply contents_fillEntry|reflexivity].
  - eexists _, _. split; [apply contents_fillEntry|reflexivity].
Qed.

(** Where [Write] reads the [done] flag.  After [Close], a [Write] on a ring
    that holds the items [l] returns the closed-pipe error when the ring is
    full ([l] has capacity less one items): the flag is read in the retry
    loop.  When a slot is free the loop is never entered, the flag is not
    read, and the entry that carries [b] is queued behind [l]. *)
Theorem Write_after_close (fuel : nat) (b : list byte) (aw : AsyncWriterV2)
  (c : Z) (l : list LogEntry) :
  done aw = true ->
  ring_repr (rb aw) c l ->
  exists entry p,
    contents (data entry) = b /\
    if decide (zlen l = c - 1) then
      AsyncWriterV2_Write (S fuel) b aw =
        Ret ((0, Some ErrClosedPipe),
             {| rb := rb aw; writer := writer aw; done := true; pool := entry :: p |})
    else
      exists r',
        AsyncWriterV2_Write (S fuel) b aw =
          Ret ((zlen b, None),
               {| rb := r'; writer := writer aw; done := true; pool := p |}) /\
        ring_repr r' c (l ++ [entry]).
Proof.
  intros Hdone Hr.
  destruct (Write_unfold (S fuel) b aw) as (entry & p & Hc & ->).
  exists entry, p. split; [exact Hc|].
  cbn [Write_loop rb done writer pool].
  pose proof (Put_repr (rb aw) c l entry Hr) as HP.
  destruct (decide (zlen l = c - 1)).
  - rewrite HP. cbn [mbind outcome_bind]. rewrite Hdone. reflexivity.
  - destruct HP as (r' & -> & Hr'). cbn [mbind outcome_bind].
    exists r'. rewrite Hdone. split; [reflexivity|exact Hr'].
Qed.

Lemma Write_after_close_witness :
  exists entry p,
    contents (data entry) = [x41; x42] /\
    if decide (zlen (@nil LogEntry) = 4 - 1) then
      AsyncWriterV2_Write 1 [x41; x42] (mkAsyncWriter (mkRing 3 0 0 [None; None; None; None]) [] true []) =
        Ret ((0, Some ErrClosedPipe),
             {| rb := rb (mkAsyncWriter (mkRing 3 0 0 [None; None; None; None]) [] true []); writer := writer (mkAsyncWriter (mkRing 3 0 0 [None; None; None; None]) [] true []);
                done := true; pool := entry :: p |})
    else
      exists r',
        AsyncWriterV2_Write 1 [x41; x42] (mkAsyncWriter (mkRing 3 0 0 [None; None; None; None]) [] true []) =
          Ret ((zlen [x41; x42], None),
               {| rb := r'; writer := writer (mkAsyncWriter (mkRing 3 0 0 [None; None; None; None]) [] true []); done := true; pool := p |}) /\
        ring_repr r' 4 ([] ++ [entry]).
Proof.
  apply (Write_after_close 0 [x41; x42] (mkAsyncWriter (mkRing 3 0 0 [None; None; None; None]) [] true []) 4 []).
  - reflexivity.
  - split; [exists 2; split; [lia|reflexivity]|].
    split; [reflexivity|]. split; [reflexivity|].
    split; [vm_compute; split; [discriminate|reflexivity]|].
    split; [vm_compute; split; [discriminate|reflexivity]|].
    split; [reflexivity|].
    intros j Hj.
    assert (Hc : j = 0 \/ j = 1 \/ j = 2 \/ j = 3) by (cbn in Hj; lia).
    destruct Hc as [-> | [-> | [-> | ->]]]; reflexivity.
Defined.

(** C2.  A [Write] that starts after [Close] is not always rejected.  A
    writer made with four slots and then closed accepts it: the call returns
    2 and no error, the entry sits in slot 0 of the ring and the sink has
    received nothing.  The rejection the claim describes is in the code, on
    the retry path only: the same call on a closed writer whose ring is full
    returns the closed-pipe error and queues nothing. *)
Theorem C2_write_accepted_after_close :
  (exists aw0 aw1 e,
     NewAsyncWriterV2 [] 4 = Ret aw0 /\
     done (AsyncWriterV2_Close aw0) = true /\
     AsyncWriterV2_Write 1 [x41; x42] (AsyncWriterV2_Close aw0) = Ret ((2, None), aw1) /\
     buffer (rb aw1) !! 0%nat = Some (Some e) /\
     contents (data e) = [x41; x42] /\
     writer aw1 = []) /\
  (exists aw0 aw1 aw2,
     NewAsyncWriterV2 [] 2 = Ret aw0 /\
     AsyncWriterV2_Write 1 [x41] aw0 = Ret ((1, None), aw1) /\
     AsyncWriterV2_Write 1 [x42] (AsyncWriterV2_Close aw1)
     = Ret ((0, Some ErrClosedPipe), aw2) /\
     rb aw2 = rb aw1 /\ writer aw2 = []).
Proof.
  split.
  - do 3 eexists.
    split; [vm_compute; reflexivity|].
    split; [reflexivity|].
    split; [vm_compute; reflexivity|].
    split; [vm_compute; reflexivity|].
    split; reflexivity.
  - do 3 eexists.
    split; [vm_compute; reflexivity|].
    split; [vm_compute; reflexivity|].
    split; [vm_compute; reflexivity|].
    split; reflexivity.
Qed.


(** ** Bytes, slices and fixed-width integers *)

Lemma zlen_nonneg {A : Type} (l : list A) : 0 <= zlen l.
Proof. unfold zlen. lia. Qed.

Lemma zlen_app {A : Type} (l k : list A) : zlen (l ++ k) = zlen l + zlen k.
Proof. unfold zlen. rewrite length_app. lia. Qed.

Lemma zlen_cons {A : Type} (x : A) (l : list A) : zlen (x :: l) = 1 + zlen l.
Proof. unfold zlen. cbn [length]. lia. Qed.

Lemma zlen_nil {A : Type} : zlen (@nil A) = 0.
Proof. reflexivity. Qed.

Lemma index_Ret {A : Type} (b : list A) (i : Z) :
  0 <= i < zlen b -> exists x, index b i = Ret x /\ b !! Z.to_nat i = Some x.
Proof.
  intros Hi. unfold index. rewrite decide_True by lia.
  destruct (lookup_lt_is_Some_2 b (Z.to_nat i)) as [x Hx]; [unfold zlen in Hi; lia|].
  exists x. rewrite Hx. split; reflexivity.
Qed.

Lemma slice_Ret {A : Type} (b : list A) (lo hi : Z) :
  0 <= lo <= hi -> hi <= zlen b ->
  slice b lo hi = Ret (take (Z.to_nat (hi - lo)) (drop (Z.to_nat lo) b)).
Proof. intros H1 H2. unfold slice. rewrite decide_True by lia. reflexivity. Qed.

Lemma byte_unsigned_range (x : byte) : 0 <= byte.unsigned x < 256.
Proof. pose proof (byte.unsigned_range x) as H. change (2 ^ 8) with 256 in H. exact H. Qed.

Lemma byte_unsigned_of_Z (z : Z) : byte.unsigned (byte.of_Z z) = z mod 256.
Proof. rewrite byte.unsigned_of_Z. reflexivity. Qed.

Lemma byte_unsigned_of_Z_small (z : Z) : 0 <= z < 256 -> byte.unsigned (byte.of_Z z) = z.
Proof. intros H. rewrite byte_unsigned_of_Z. now apply Z.mod_small. Qed.

Lemma pow256 (n : nat) : 2 ^ (8 * Z.of_nat (S n)) = 256 * 2 ^ (8 * Z.of_nat n).
Proof.
  replace (8 * Z.of_nat (S n)) with (8 + 8 * Z.of_nat n) by lia.
  rewrite Z.pow_add_r by lia. reflexivity.
Qed.

Lemma pow8_pos (n : nat) : 0 < 2 ^ (8 * Z.of_nat n).
Proof. apply Z.pow_pos_nonneg; lia. Qed.

Lemma leValue_range (bs : list byte) : 0 <= leValue bs < 2 ^ (8 * Z.of_nat (length bs)).
Proof.
  induction bs as [|x bs IH].
  - cbn. lia.
  - cbn [leValue length]. rewrite pow256.
    pose proof (byte_unsigned_range x).
    revert IH. generalize (2 ^ (8 * Z.of_nat (length bs))) (leValue bs). intros p v IH. lia.
Qed.

Lemma leValue_app (a b : list byte) :
  leValue (a ++ b) = leValue a + 2 ^ (8 * Z.of_nat (length a)) * leValue b.
Proof.
  induction a as [|x a IH].
  - cbn. lia.
  - cbn [app leValue length]. rewrite IH, pow256.
    generalize (2 ^ (8 * Z.of_nat (length a))) (leValue a) (leValue b). intros. lia.
Qed.

Lemma length_leBytes (w : nat) (v : Z) : length (leBytes w v) = w.
Proof. revert v. induction w as [|w IH]; intros v; cbn [leBytes length]; [|rewrite IH]; reflexivity. Qed.

Lemma leValue_leBytes (w : nat) (v : Z) :
  leValue (leBytes w v) = v mod 2 ^ (8 * Z.of_nat w).
Proof.
  revert v. induction w as [|w IH]; intros v.
  - cbn. now rewrite Z.mod_1_r.
  - cbn [leBytes leValue]. rewrite IH, byte_unsigned_of_Z, pow256.
    rewrite Z.shiftr_div_pow2 by lia. change (2 ^ 8) with 256.
    pose proof (pow8_pos w) as Hp.
    revert Hp. generalize (2 ^ (8 * Z.of_nat w)). intros p Hp.
    rewrite Z.rem_mul_r by lia. reflexivity.
Qed.

Lemma length_beBytes (w : nat) (v : Z) : length (beBytes w v) = w.
Proof. unfold beBytes. now rewrite length_rev, length_leBytes. Qed.

Lemma length_nativeBytes (o : ByteOrder) (w : nat) (v : Z) : length (nativeBytes o w v) = w.
Proof. destruct o; cbn [nativeBytes]; rewrite ?length_rev; apply length_leBytes. Qed.

Lemma nativeValue_nativeBytes (o : ByteOrder) (w : nat) (v : Z) :
  nativeValue o (nativeBytes o w v) = v mod 2 ^ (8 * Z.of_nat w).
Proof.
  destruct o; cbn [nativeValue nativeBytes]; rewrite ?rev_involutive; apply leValue_leBytes.
Qed.

Lemma nativeValue_range (o : ByteOrder) (bs : list byte) :
  0 <= nativeValue o bs < 2 ^ (8 * Z.of_nat (length bs)).
Proof.
  destruct o; cbn [nativeValue]; [apply leValue_range|].
  rewrite <- (length_rev bs). apply leValue_range.
Qed.

Lemma lor_shiftl_add (x k r : Z) :
  0 <= k -> 0 <= r < 2 ^ k -> Z.lor (x ≪ k) r = x * 2 ^ k + r.
Proof.
  intros Hk Hr. rewrite <- Z.add_nocarry_lor.
  - now rewrite Z.shiftl_mul_pow2.
  - apply Z.bits_inj'. intros i Hi. rewrite Z.land_spec, Z.bits_0.
    destruct (Z.lt_ge_cases i k).
    + rewrite Z.shiftl_spec_low by lia. reflexivity.
    + destruct (Z.eq_dec r 0) as [->|Hr0]; [rewrite Z.bits_0; apply andb_false_r|].
      rewrite (Z.bits_above_log2 r i); [apply andb_false_r|lia|].
      assert (Z.log2 r < k) by (apply Z.log2_lt_pow2; lia). lia.
Qed.

(** [loadBE] reads the [w] bytes at [pos], most significant first. *)
Lemma loadBE_slice (w : nat) (b : list byte) (pos : Z) :
  0 <= pos -> pos + Z.of_nat w <= zlen b ->
  loadBE w b pos = Ret (leValue (rev (take w (drop (Z.to_nat pos) b)))).
Proof.
  revert pos. induction w as [|w IH]; intros pos Hpos Hlen.
  - reflexivity.
  - cbn [loadBE].
    destruct (index_Ret b pos ltac:(lia)) as (x & -> & Hx). cbn [mbind outcome_bind].
    rewrite IH by lia. cbn [mbind outcome_bind]. f_equal.
    replace (Z.to_nat (pos + 1)) with (S (Z.to_nat pos)) by lia.
    rewrite (drop_S b x (Z.to_nat pos) Hx). cbn [take rev].
    rewrite leValue_app. cbn [leValue].
    rewrite length_rev, length_take, length_drop.
    replace (w `min` (length b - S (Z.to_nat pos)))%nat with w by (unfold zlen in *; lia).
    set (t := rev (take w (drop (S (Z.to_nat pos)) b))).
    pose proof (leValue_range t) as Ht.
    assert (length t = w) as Hlt.
    { subst t. rewrite length_rev, length_take, length_drop. unfold zlen in *; lia. }
    rewrite Hlt in Ht.
    rewrite lor_shiftl_add by lia.
    revert Ht. generalize (2 ^ (8 * Z.of_nat w)) (leValue t). intros. lia.
Qed.

Lemma loadBE_Ret (w : nat) (b : list byte) (pos : Z) :
  0 <= pos -> pos + Z.of_nat w <= zlen b ->
  exists v, loadBE w b pos = Ret v /\ 0 <= v < 2 ^ (8 * Z.of_nat w).
Proof.
  intros Hpos Hlen. rewrite loadBE_slice by assumption.
  eexists. split; [reflexivity|].
  pose proof (leValue_range (rev (take w (drop (Z.to_nat pos) b)))) as H.
  rewrite length_rev, length_take, length_drop in H.
  replace (w `min` (length b - Z.to_nat pos))%nat with w in H by (unfold zlen in *; lia).
  exact H.
Qed.

Lemma loadNative_Ret (o : ByteOrder) (b : list byte) (off : Z) (w : nat) :
  0 <= off -> off + Z.of_nat w <= zlen b ->
  exists v, loadNative o b off w = Ret v /\ 0 <= v < 2 ^ (8 * Z.of_nat w) /\
            v = nativeValue o (take w (drop (Z.to_nat off) b)).
Proof.
  intros Hoff Hlen. unfold loadNative. rewrite slice_Ret by lia.
  cbn [mbind outcome_bind]. eexists. split; [reflexivity|].
  replace (Z.to_nat (off + Z.of_nat w - off)) with w by lia.
  split; [|reflexivity].
  pose proof (nativeValue_range o (take w (drop (Z.to_nat off) b))) as H.
  rewrite length_take, length_drop in H.
  replace (w `min` (length b - Z.to_nat off))%nat with w in H by (unfold zlen in *; lia).
  exact H.
Qed.


(** ** The terminal decoder never leaves its buffer *)

Lemma digitsLoop_total (room : nat) (v : Z) (tmp : list byte) :
  v < 10 ^ Z.of_nat room -> exists r, digitsLoop room v tmp = Ret r.
Proof.
  revert v tmp. induction room as [|room IH]; intros v tmp Hv.
  - cbn [digitsLoop]. destruct (Z.ltb_spec 0 v); [cbn in Hv; lia|].
    destruct (0 <? v); eexists; reflexivity.
  - cbn [digitsLoop]. destruct (Z.ltb_spec 0 v); [|eexists; reflexivity].
    apply IH. apply Z.div_lt_upper_bound; [lia|].
    rewrite <- Z.pow_succ_r by lia. now rewrite <- Nat2Z.inj_succ.
Qed.

Lemma appendUint_total (buf : list byte) (v : Z) :
  v < 2 ^ 64 -> exists r, appendUint buf v = Ret r.
Proof.
  intros Hv. unfold appendUint. destruct (v =? 0); [eexists; reflexivity|].
  destruct (digitsLoop_total 20 v []) as [r ->].
  - assert (2 ^ 64 < 10 ^ Z.of_nat 20) by reflexivity. lia.
  - eexists. reflexivity.
Qed.

Lemma appendInt_total (buf : list byte) (v : Z) : exists r, appendInt buf v = Ret r.
Proof.
  unfold appendInt. destruct (v <? 0); apply appendUint_total; apply u64_range.
Qed.

Lemma hexDigits_index (k : Z) : 0 <= k < 16 -> exists x, index hexDigits k = Ret x.
Proof.
  intros Hk. destruct (index_Ret hexDigits k) as (x & Hx & _); [exact Hk|].
  exists x. exact Hx.
Qed.

Lemma appendHex_total (buf data : list byte) : exists r, appendHex buf data = Ret r.
Proof.
  revert buf. induction data as [|b data IH]; intros buf.
  - eexists. reflexivity.
  - cbn [appendHex]. pose proof (byte_unsigned_range b) as Hb.
    destruct (hexDigits_index (byte.unsigned b ≫ 4)) as [hi ->].
    { rewrite Z.shiftr_div_pow2 by lia. change (2 ^ 4) with 16. split.
      - apply Z.div_pos; lia.
      - apply Z.div_lt_upper_bound; lia. }
    destruct (hexDigits_index (Z.land (byte.unsigned b) 15)) as [lo ->].
    { change 15 with (Z.ones 4). rewrite Z.land_ones by lia.
      apply Z.mod_pos_bound. reflexivity. }
    cbn [mbind outcome_bind]. apply IH.
Qed.

Section TerminalTotal.
Context (o : ByteOrder) (timeText : Z -> list byte)
        (float64Text : Z -> list byte) (float32to64 : Z -> Z).

Lemma appendValue_total (buf : list byte) (v : Value) :
  valueInRange v -> exists r, appendValue float64Text float32to64 buf v = Ret r.
Proof.
  intros Hv. destruct v as [n|n|n|n|n|s|s|]; cbn [appendValue].
  - apply appendInt_total.
  - apply appendUint_total. exact Hv.
  - destruct (n =? 0); eexists; reflexivity.
  - eexists; reflexivity.
  - eexists; reflexivity.
  - eexists; reflexivity.
  - apply appendHex_total.
  - eexists; reflexivity.
Qed.

Lemma readFixed_total (w : nat) (mk : Z -> Value) (b : list byte) (pos : Z) :
  0 <= pos ->
  (forall n, 0 <= n < 2 ^ (8 * Z.of_nat w) -> valueInRange (mk n)) ->
  exists v pos',
    (if zlen b - pos <? Z.of_nat w then Ret (VPlaceholder, pos + Z.of_nat w)
     else n ← loadBE w b pos; Ret (mk n, pos + Z.of_nat w)) = Ret (v, pos') /\
    pos <= pos' /\ valueInRange v.
Proof.
  intros Hpos Hmk. destruct (Z.ltb_spec (zlen b - pos) (Z.of_nat w)).
  - eexists _, _. split; [reflexivity|]. split; [lia|exact I].
  - destruct (loadBE_Ret w b pos) as (n & -> & Hn); [lia|lia|].
    cbn [mbind outcome_bind]. eexists _, _. split; [reflexivity|].
    split; [lia|apply Hmk; exact Hn].
Qed.

Lemma readPrefixed_total (mk : list byte -> Value) (b : list byte) (pos : Z) :
  0 <= pos ->
  (forall s, valueInRange (mk s)) ->
  exists v pos',
    (if zlen b - pos <? 2 then Ret (VPlaceholder, pos + 2)
     else
       n ← loadBE 2 b pos;
       if zlen b - pos <? 2 + n then Ret (VPlaceholder, pos + 2 + n)
       else s ← slice b (pos + 2) (pos + 2 + n); Ret (mk s, pos + 2 + n))
    = Ret (v, pos') /\
    pos <= pos' /\ valueInRange v.
Proof.
  intros Hpos Hmk. destruct (Z.ltb_spec (zlen b - pos) 2).
  - eexists _, _. split; [reflexivity|]. split; [lia|exact I].
  - destruct (loadBE_Ret 2 b pos) as (n & -> & Hn); [lia|lia|].
    cbn [mbind outcome_bind]. destruct (Z.ltb_spec (zlen b - pos) (2 + n)).
    + eexists _, _. split; [reflexivity|]. split; [lia|exact I].
    + rewrite slice_Ret by lia. cbn [mbind outcome_bind].
      eexists _, _. split; [reflexivity|]. split; [lia|apply Hmk].
Qed.

Lemma readFieldValue_total (b : list byte) (pos : Z) (fieldType : FieldType) :
  0 <= pos ->
  exists v pos',
    readFieldValue b pos fieldType = Ret (v, pos') /\ pos <= pos' /\ valueInRange v.
Proof.
  intros Hpos.
  destruct fieldType; cbn [readFieldValue];
    try (eexists _, _; split; [reflexivity|split; [lia|exact I]]).
  - apply (readFixed_total 8 VInt); [exact Hpos|intros; exact I].
  - apply (readFixed_total 8 VUint); [exact Hpos|].
    intros n Hn. cbn [valueInRange]. change (2 ^ (8 * Z.of_nat 8)) with (2 ^ 64) in Hn. lia.
  - apply (readFixed_total 4 VFloat32); [exact Hpos|intros; exact I].
  - apply (readFixed_total 8 VFloat64); [exact Hpos|intros; exact I].
  - apply (readPrefixed_total VString); [exact Hpos|intros; exact I].
  - apply (readFixed_total 8 VBool); [exact Hpos|intros; exact I].
  - apply (readPrefixed_total VBytes); [exact Hpos|intros; exact I].
Qed.

Lemma decodeFieldValueBuf_total (buf b : list byte) (pos : Z) (fieldType : FieldType) :
  0 <= pos ->
  exists buf' pos',
    decodeFieldValueBuf float64Text float32to64 buf b pos fieldType = Ret (buf', pos') /\
    pos <= pos'.
Proof.
  intros Hpos. unfold decodeFieldValueBuf.
  destruct (readFieldValue_total b pos fieldType Hpos) as (v & pos' & -> & Hle & Hv).
  cbn [mbind outcome_bind].
  destruct (appendValue_total buf v Hv) as (r & ->). cbn [mbind outcome_bind].
  eexists _, _. split; [reflexivity|exact Hle].
Qed.

Lemma levelColors_index (level : Level) :
  byte.unsigned level < 5 -> exists c, index levelColors (byte.unsigned level) = Ret c.
Proof.
  intros H. pose proof (byte_unsigned_range level).
  destruct (index_Ret levelColors (byte.unsigned level)) as (c & Hc & _).
  - change (zlen levelColors) with 6. lia.
  - exists c. exact Hc.
Qed.

Lemma levelStrings_index (k : Z) :
  0 <= k < 6 -> exists c, index levelStrings k = Ret c.
Proof.
  intros H. destruct (index_Ret levelStrings k) as (c & Hc & _).
  - change (zlen levelStrings) with 6. lia.
  - exists c. exact Hc.
Qed.

Lemma decodeFields_total (n : nat) (i : Z) (useColor : bool) (level : Level)
  (b : list byte) (pos : Z) (buf : list byte)
  (acc : list (list byte * FieldType * Value)) :
  0 <= pos ->
  exists r, decodeFields float64Text float32to64 n i useColor level b pos buf acc = Ret r.
Proof.
  revert i pos buf acc. induction n as [|n IH]; intros i pos buf acc Hpos.
  - eexists. reflexivity.
  - cbn [decodeFields]. destruct (Z.ltb_spec pos (zlen b)); [|eexists; reflexivity].
    destruct (index_Ret b pos) as (kl & -> & _); [lia|]. cbn [mbind outcome_bind].
    pose proof (byte_unsigned_range kl) as Hkl.
    destruct (Z.gtb_spec (pos + 1 + byte.unsigned kl) (zlen b)); [eexists; reflexivity|].
    destruct (Z.geb_spec (pos + 1 + byte.unsigned kl) (zlen b)); [eexists; reflexivity|].
    destruct (index_Ret b (pos + 1 + byte.unsigned kl)) as (ft & -> & _); [lia|].
    cbn [mbind outcome_bind].
    rewrite slice_Ret by lia. cbn [mbind outcome_bind].
    set (buf0 := if 0 <? i then buf ++ [x20] else buf).
    assert (exists buf1,
               (if useColor && (byte.unsigned level <? 5)
                then color ← index levelColors (byte.unsigned level);
                     Ret (buf0 ++ color ++
                          take (Z.to_nat (pos + 1 + byte.unsigned kl - (pos + 1)))
                            (drop (Z.to_nat (pos + 1)) b) ++ colorReset ++ [x3d])
                else Ret (buf0 ++
                          take (Z.to_nat (pos + 1 + byte.unsigned kl - (pos + 1)))
                            (drop (Z.to_nat (pos + 1)) b) ++ [x3d])) = Ret buf1)
      as (buf1 & ->).
    { destruct useColor; cbn [andb]; [|eexists; reflexivity].
      destruct (Z.ltb_spec (byte.unsigned level) 5); [|eexists; reflexivity].
      destruct (levelColors_index level) as (c & ->); [assumption|].
      eexists; reflexivity. }
    cbn [mbind outcome_bind].
    destruct (readFieldValue_total b (pos + 1 + byte.unsigned kl + 1) ft)
      as (v & pos' & -> & Hle & Hv); [lia|].
    cbn [mbind outcome_bind].
    destruct (appendValue_total buf1 v Hv) as (buf2 & ->). cbn [mbind outcome_bind].
    apply IH. lia.
Qed.
End TerminalTotal.


Section TerminalWrite.
Context (o : ByteOrder) (timeText : Z -> list byte)
        (float64Text : Z -> list byte) (float32to64 : Z -> Z).

Lemma detectFormat_total (b : list byte) :
  16 <= zlen b ->
  exists d, detectFormat o b = Ret d /\
    match d with
    | inl _ => True
    | inr (ts, msgLen, msgStart) =>
        0 <= msgLen /\ (msgStart = 16 \/ msgStart = 23) /\ msgStart + msgLen <= zlen b
    end.
Proof.
  intros Hlen. unfold detectFormat.
  replace (zlen b >=? 16) with true by (symmetry; apply Z.geb_le; lia).
  destruct (loadNative_Ret o b 14 2) as (p & -> & Hp & _); [lia|cbn; lia|].
  cbn [mbind outcome_bind].
  destruct (Z.ltb_spec 0 p); cbn [andb].
  - destruct (Z.leb_spec p 65535); cbn [andb].
    + destruct (Z.geb_spec (zlen b) (16 + p)).
      * destruct (loadNative_Ret o b 6 8) as (ts & -> & _); [lia|cbn; lia|].
        cbn [mbind outcome_bind]. eexists. split; [reflexivity|]. cbn. lia.
      * destruct (Z.geb_spec (zlen b) 23);
          [|eexists; split; [reflexivity|exact I]].
        destruct (index_Ret b 22) as (x & -> & _); [lia|]. cbn [mbind outcome_bind].
        pose proof (byte_unsigned_range x).
        destruct (Z.geb_spec (zlen b) (23 + byte.unsigned x));
          [|eexists; split; [reflexivity|exact I]].
        destruct (loadNative_Ret o b 14 8) as (ts & -> & _); [lia|cbn; lia|].
        cbn [mbind outcome_bind]. eexists. split; [reflexivity|]. cbn. lia.
    + change (2 ^ (8 * Z.of_nat 2)) with 65536 in Hp. lia.
  - destruct (Z.geb_spec (zlen b) 23);
      [|eexists; split; [reflexivity|exact I]].
    destruct (index_Ret b 22) as (x & -> & _); [lia|]. cbn [mbind outcome_bind].
    pose proof (byte_unsigned_range x).
    destruct (Z.geb_spec (zlen b) (23 + byte.unsigned x));
      [|eexists; split; [reflexivity|exact I]].
    destruct (loadNative_Ret o b 14 8) as (ts & -> & _); [lia|cbn; lia|].
    cbn [mbind outcome_bind]. eexists. split; [reflexivity|]. cbn. lia.
Qed.

(** Once the layout is known, the rest of [Write] builds its line without
    leaving [b]; the record it parsed has the level byte, the time stamp,
    the message start and the message bytes of that layout. *)
Lemma decodeLine_body_total (useColor : bool) (b : list byte) (level : Level)
  (ts msgLen msgStart : Z) :
  0 <= msgLen -> (msgStart = 16 \/ msgStart = 23) -> msgStart + msgLen <= zlen b ->
  exists line fields,
    (let msgEnd := if 0 <? msgLen then msgStart + msgLen else 0 in
     let buf := [] in
     buf ← (if useColor && (byte.unsigned level <? 5) then
              color ← index levelColors (byte.unsigned level);
              name ← index levelStrings (byte.unsigned level);
              Ret (buf ++ color ++ name ++ colorReset)
            else if byte.unsigned level <? 5 then
              name ← index levelStrings (byte.unsigned level);
              Ret (buf ++ name)
            else
              name ← index levelStrings 5;
              Ret (buf ++ name));
     let buf := buf ++ [x5b] in
     let buf := buf ++ timeText (i64 ts) in
     let buf := buf ++ bytesOf "] " in
     msg ← (if msgEnd >? msgStart then slice b msgStart msgEnd else Ret []);
     let buf := buf ++ msg in
     let pos := msgStart + msgLen in
     buf ← (if (pos <? zlen b) && (msgEnd - msgStart <? termMsgJust) then
              let padding := termMsgJust - (msgEnd - msgStart) in
              if (0 <? padding) && (padding <=? zlen spaces) then
                sp ← slice spaces 0 padding;
                Ret (buf ++ sp)
              else Ret buf
            else Ret buf);
     '(buf, fields) ←
       (if pos <? zlen b then
          fc ← index b pos;
          let fieldCount := byte.unsigned fc in
          let pos := pos + 1 in
          decodeFields float64Text float32to64 (Z.to_nat fieldCount) 0 useColor level b pos buf []
        else Ret (buf, []));
     let buf := buf ++ [x0a] in
     Ret (inr (buf, {| p_level := level; p_timestamp := ts;
                       p_msgStart := msgStart; p_msg := msg;
                       p_fields := fields |})))
    = Ret (inr (line, {| p_level := level; p_timestamp := ts;
                          p_msgStart := msgStart;
                          p_msg := take (Z.to_nat msgLen) (drop (Z.to_nat msgStart) b);
                          p_fields := fields |}) : error + list byte * Parsed) /\
    (msgStart + msgLen < zlen b ->
     exists fc buf3 bufF,
       b !! Z.to_nat (msgStart + msgLen) = Some fc /\
       decodeFields float64Text float32to64 (Z.to_nat (byte.unsigned fc)) 0 useColor
         level b (msgStart + msgLen + 1) buf3 [] = Ret (bufF, fields)) /\
    (zlen b <= msgStart + msgLen -> fields = []).
Proof.
  intros Hlen Hstart Hend. cbv zeta.
  pose proof (byte_unsigned_range level) as Hlv.
  assert (exists buf1,
    (if useColor && (byte.unsigned level <? 5) then
       color ← index levelColors (byte.unsigned level);
       name ← index levelStrings (byte.unsigned level);
       Ret ([] ++ color ++ name ++ colorReset)
     else if byte.unsigned level <? 5 then
       name ← index levelStrings (byte.unsigned level);
       Ret ([] ++ name)
     else
       name ← index levelStrings 5;
       Ret ([] ++ name)) = Ret buf1) as (buf1 & ->).
  { destruct (Z.ltb_spec (byte.unsigned level) 5).
    - destruct (levelStrings_index (byte.unsigned level)) as (nm & Hnm); [lia|].
      destruct (levelColors_index level) as (c & Hc); [assumption|].
      destruct useColor; cbn [andb]; rewrite ?Hc, ?Hnm; cbn [mbind outcome_bind];
        eexists; reflexivity.
    - destruct (levelStrings_index 5) as (nm & Hnm); [lia|].
      rewrite andb_false_r, Hnm. cbn [mbind outcome_bind]. eexists; reflexivity. }
  cbn [mbind outcome_bind].
  assert ((if (if 0 <? msgLen then msgStart + msgLen else 0) >? msgStart
           then slice b msgStart (if 0 <? msgLen then msgStart + msgLen else 0)
           else Ret []) = Ret (take (Z.to_nat msgLen) (drop (Z.to_nat msgStart) b))) as ->.
  { destruct (Z.ltb_spec 0 msgLen).
    - replace (msgStart + msgLen >? msgStart) with true by (symmetry; apply Z.gtb_lt; lia).
      rewrite slice_Ret by lia. do 2 f_equal. lia.
    - replace (0 >? msgStart) with false by (symmetry; rewrite Z.gtb_ltb; apply Z.ltb_ge; lia).
      replace msgLen with 0 by lia. reflexivity. }
  cbn [mbind outcome_bind].
  set (msg := take (Z.to_nat msgLen) (drop (Z.to_nat msgStart) b)).
  set (buf2 := (((buf1 ++ [x5b]) ++ timeText (i64 ts)) ++ bytesOf "] ") ++ msg).
  set (msgEnd := if 0 <? msgLen then msgStart + msgLen else 0).
  assert (exists buf3,
    (if (msgStart + msgLen <? zlen b) && (msgEnd - msgStart <? termMsgJust) then
       if (0 <? termMsgJust - (msgEnd - msgStart))
          && (termMsgJust - (msgEnd - msgStart) <=? zlen spaces)
       then sp ← slice spaces 0 (termMsgJust - (msgEnd - msgStart)); Ret (buf2 ++ sp)
       else Ret buf2
     else Ret buf2) = Ret buf3) as (buf3 & ->).
  { destruct ((msgStart + msgLen <? zlen b) && (msgEnd - msgStart <? termMsgJust));
      [|eexists; reflexivity].
    destruct (Z.ltb_spec 0 (termMsgJust - (msgEnd - msgStart))); cbn [andb];
      [|eexists; reflexivity].
    destruct (Z.leb_spec (termMsgJust - (msgEnd - msgStart)) (zlen spaces));
      [|eexists; reflexivity].
    rewrite slice_Ret by lia. cbn [mbind outcome_bind]. eexists; reflexivity. }
  cbn [mbind outcome_bind].
  destruct (Z.ltb_spec (msgStart + msgLen) (zlen b)).
  - destruct (index_Ret b (msgStart + msgLen)) as (fc & -> & Hfc); [lia|].
    cbn [mbind outcome_bind].
    destruct (decodeFields_total float64Text float32to64 (Z.to_nat (byte.unsigned fc)) 0
                useColor level b (msgStart + msgLen + 1) buf3 []) as ([bufF fs] & Hfs);
      [lia|].
    rewrite Hfs. cbn [mbind outcome_bind]. eexists _, fs.
    split; [reflexivity|]. split; [|intros; lia].
    intros _. exists fc, buf3, bufF. split; assumption.
  - cbn [mbind outcome_bind]. eexists _, [].
    split; [reflexivity|]. split; [intros; lia|reflexivity].
Qed.

Lemma decodeLine_total (useColor : bool) (b : list byte) :
  exists d, decodeLine o timeText float64Text float32to64 useColor b = Ret d.
Proof.
  unfold decodeLine. destruct (Z.ltb_spec (zlen b) 16); [eexists; reflexivity|].
  destruct (loadNative_Ret o b 0 4) as (magic & -> & _); [lia|cbn; lia|].
  cbn [mbind outcome_bind].
  destruct (negb (magic =? MagicHeader)); [eexists; reflexivity|].
  destruct (index_Ret b 5) as (level & -> & _); [lia|]. cbn [mbind outcome_bind].
  destruct (detectFormat_total b) as (d & -> & Hd); [lia|]. cbn [mbind outcome_bind].
  destruct d as [e|[[ts msgLen] msgStart]]; [eexists; reflexivity|].
  destruct Hd as (H1 & H2 & H3).
  destruct (decodeLine_body_total useColor b level ts msgLen msgStart H1 H2 H3)
    as (line & fields & Hbody & _).
  eexists. exact Hbody.
Qed.

(** C8.  For every byte slice, [TerminalWriter.Write] returns: no index
    and no slice bound it uses leaves the input or its own tables.  It
    either returns 0 with an error and writes nothing, or passes one line to
    the output and returns [len(b)] with the output's error. *)
Theorem C8_Write_total (useColor : bool) (outErr : option error) (b : list byte) :
  (exists e,
      TerminalWriter_Write o timeText float64Text float32to64 useColor outErr b
      = Ret (0, Some e, None)) \/
  (exists line,
      TerminalWriter_Write o timeText float64Text float32to64 useColor outErr b
      = Ret (zlen b, outErr, Some line)).
Proof.
  unfold TerminalWriter_Write.
  destruct (decodeLine_total useColor b) as (d & ->). cbn [mbind outcome_bind].
  destruct d as [e|[line p]].
  - left. exists e. reflexivity.
  - right. exists line. reflexivity.
Qed.
End TerminalWrite.


Section FieldValues.
Context (float64Text : Z -> list byte) (float32to64 : Z -> Z).

Lemma placeholder_fixed (w : nat) (mk : Z -> Value) (buf b : list byte) (pos : Z) :
  zlen b - pos < Z.of_nat w ->
  ('(v, pos') ← (if zlen b - pos <? Z.of_nat w then Ret (VPlaceholder, pos + Z.of_nat w)
                 else n ← loadBE w b pos; Ret (mk n, pos + Z.of_nat w));
   buf ← appendValue float64Text float32to64 buf v;
   Ret (buf, pos')) = Ret (buf ++ [x3f], pos + Z.of_nat w).
Proof.
  intros H. replace (zlen b - pos <? Z.of_nat w) with true
    by (symmetry; apply Z.ltb_lt; exact H).
  reflexivity.
Qed.

Lemma loadBE_2 (b : list byte) (pos : Z) (hi lo : byte) :
  0 <= pos ->
  b !! Z.to_nat pos = Some hi -> b !! Z.to_nat (pos + 1) = Some lo ->
  loadBE 2 b pos = Ret (256 * byte.unsigned hi + byte.unsigned lo).
Proof.
  intros Hpos Hhi Hlo.
  assert (Hlen : pos + 2 <= zlen b).
  { apply lookup_lt_Some in Hlo. unfold zlen. lia. }
  rewrite loadBE_slice by (cbn; lia). f_equal.
  rewrite (drop_S b hi (Z.to_nat pos) Hhi).
  replace (Z.to_nat (pos + 1)) with (S (Z.to_nat pos)) in Hlo by lia.
  rewrite (drop_S b lo (S (Z.to_nat pos)) Hlo).
  cbn [firstn]. rewrite firstn_O. cbn [rev app leValue]. lia.
Qed.

(** C9.  [decodeFieldValueBuf] always returns a buffer and a cursor.  When
    fewer bytes remain than the value declares (8 for Int, Uint, Bool and
    Float64, 4 for Float32, 2 for the length prefix of String and Bytes, 2
    plus the big-endian length the prefix holds for their payload) it
    appends the placeholder ['?'] and returns the cursor moved past the
    declared bytes. *)
Theorem C9_placeholder (buf b : list byte) (pos : Z) (fieldType : FieldType) :
  0 <= pos ->
  (exists buf' pos',
      decodeFieldValueBuf float64Text float32to64 buf b pos fieldType = Ret (buf', pos')) /\
  (fieldType = FieldTypeInt \/ fieldType = FieldTypeUint \/
   fieldType = FieldTypeBool \/ fieldType = FieldTypeFloat64 ->
   zlen b - pos < 8 ->
   decodeFieldValueBuf float64Text float32to64 buf b pos fieldType
   = Ret (buf ++ [x3f], pos + 8)) /\
  (fieldType = FieldTypeFloat32 ->
   zlen b - pos < 4 ->
   decodeFieldValueBuf float64Text float32to64 buf b pos fieldType
   = Ret (buf ++ [x3f], pos + 4)) /\
  (fieldType = FieldTypeString \/ fieldType = FieldTypeBytes ->
   (zlen b - pos < 2 ->
    decodeFieldValueBuf float64Text float32to64 buf b pos fieldType
    = Ret (buf ++ [x3f], pos + 2)) /\
   (forall hi lo : byte,
       b !! Z.to_nat pos = Some hi -> b !! Z.to_nat (pos + 1) = Some lo ->
       zlen b - pos < 2 + (256 * byte.unsigned hi + byte.unsigned lo) ->
       decodeFieldValueBuf float64Text float32to64 buf b pos fieldType
       = Ret (buf ++ [x3f], pos + 2 + (256 * byte.unsigned hi + byte.unsigned lo)))).
Proof.
  intros Hpos. split.
  { destruct (decodeFieldValueBuf_total float64Text float32to64 buf b pos fieldType Hpos)
      as (buf' & pos' & H & _).
    exists buf', pos'. exact H. }
  split.
  { intros [-> | [-> | [-> | ->]]] H; apply (placeholder_fixed 8); exact H. }
  split.
  { intros -> H. apply (placeholder_fixed 4); exact H. }
  intros Hty. split.
  - intros H. unfold decodeFieldValueBuf.
    destruct Hty as [-> | ->]; cbn [readFieldValue FieldTypeString FieldTypeBytes];
      replace (zlen b - pos <? 2) with true by (symmetry; apply Z.ltb_lt; exact H);
      reflexivity.
  - intros hi lo Hhi Hlo H. unfold decodeFieldValueBuf.
    assert (Hlen : pos + 2 <= zlen b).
    { apply lookup_lt_Some in Hlo. unfold zlen. lia. }
    destruct Hty as [-> | ->]; cbn [readFieldValue FieldTypeString FieldTypeBytes];
      replace (zlen b - pos <? 2) with false by (symmetry; apply Z.ltb_ge; lia);
      rewrite (loadBE_2 b pos hi lo Hpos Hhi Hlo); cbn [mbind outcome_bind];
      replace (zlen b - pos <? 2 + (256 * byte.unsigned hi + byte.unsigned lo))
        with true by (symmetry; apply Z.ltb_lt; exact H);
      reflexivity.
Qed.
End FieldValues.

Lemma C9_placeholder_witness :
  0 <= 0 /\
  decodeFieldValueBuf (fun _ => []) (fun z => z) [x6b; x3d] [x00; x05; x41] 0 FieldTypeString
  = Ret ([x6b; x3d; x3f], 7).
Proof.
  split; [lia|].
  destruct (C9_placeholder (fun _ => []) (fun z => z) [x6b; x3d] [x00; x05; x41] 0
              FieldTypeString ltac:(lia)) as (_ & _ & _ & H).
  destruct (H (or_introl eq_refl)) as [_ H2].
  apply (H2 x00 x05); [reflexivity|reflexivity|vm_compute; reflexivity].
Defined.

Section EmptyBasic.
Context (o : ByteOrder) (timeText : Z -> list byte)
        (float64Text : Z -> list byte) (float32to64 : Z -> Z).

(** C10, as the code has it.  A record with the magic number and a zero
    16-bit length at offset 14 is never read as Basic.  Shorter than 23
    bytes it is rejected as truncated.  From 23 bytes on, the byte at offset
    22 is taken as the message length: when the record is too short for
    that message it is rejected (the format cannot be determined), otherwise
    it is read as Structured, the message starting at offset 23 and the time
    stamp taken from offset 14. *)
Theorem C10_empty_basic (useColor : bool) (b : list byte) :
  16 <= zlen b ->
  loadNative o b 0 4 = Ret MagicHeader ->
  loadNative o b 14 2 = Ret 0 ->
  (zlen b < 23 ->
   decodeLine o timeText float64Text float32to64 useColor b
   = Ret (inl ErrMessageTruncated)) /\
  (23 <= zlen b ->
   exists x,
     b !! 22%nat = Some x /\
     (zlen b < 23 + byte.unsigned x ->
      decodeLine o timeText float64Text float32to64 useColor b
      = Ret (inl ErrCannotDetermineFormat)) /\
     (23 + byte.unsigned x <= zlen b ->
      exists line p,
        decodeLine o timeText float64Text float32to64 useColor b = Ret (inr (line, p)) /\
        p_msgStart p = 23 /\
        p_msg p = take (Z.to_nat (byte.unsigned x)) (drop 23 b) /\
        loadNative o b 14 8 = Ret (p_timestamp p))).
Proof.
  intros Hlen Hmagic Hprobe.
  unfold decodeLine.
  replace (zlen b <? 16) with false by (symmetry; apply Z.ltb_ge; lia).
  rewrite Hmagic. cbn [mbind outcome_bind]. rewrite Z.eqb_refl. cbn [negb].
  destruct (index_Ret b 5) as (level & -> & _); [lia|]. cbn [mbind outcome_bind].
  unfold detectFormat.
  replace (zlen b >=? 16) with true by (symmetry; apply Z.geb_le; lia).
  rewrite Hprobe. cbn [mbind outcome_bind]. cbn [Z.ltb Z.compare andb].
  split.
  - intros Hshort.
    replace (zlen b >=? 23) with false
      by (symmetry; rewrite Z.geb_leb; apply Z.leb_gt; lia).
    reflexivity.
  - intros Hlong.
    replace (zlen b >=? 23) with true by (symmetry; apply Z.geb_le; lia).
    destruct (index_Ret b 22) as (x & -> & Hx); [lia|]. cbn [mbind outcome_bind].
    exists x. split; [exact Hx|].
    pose proof (byte_unsigned_range x) as Hxr.
    split.
    + intros Hs.
      replace (zlen b >=? 23 + byte.unsigned x) with false
        by (symmetry; rewrite Z.geb_leb; apply Z.leb_gt; lia).
      reflexivity.
    + intros Hfit.
      replace (zlen b >=? 23 + byte.unsigned x) with true
        by (symmetry; apply Z.geb_le; lia).
      destruct (loadNative_Ret o b 14 8) as (ts & Hts & _); [lia|cbn; lia|].
      rewrite Hts. cbn [mbind outcome_bind].
      destruct (decodeLine_body_total timeText float64Text float32to64 useColor b level ts
                  (byte.unsigned x) 23) as (line & fields & Hbody & _); [lia|now right|lia|].
      eexists line, _. split; [exact Hbody|].
      cbn [p_msgStart p_msg p_timestamp]. split; [reflexivity|]. split; reflexivity.
Qed.
End EmptyBasic.


(** ** Writing into a buffer *)

Lemma length_splice {A : Type} (buf : list A) (pos : Z) (bs : list A) :
  0 <= pos -> pos + zlen bs <= zlen buf -> length (splice buf pos bs) = length buf.
Proof.
  intros Hp Hl. unfold splice, zlen in *.
  rewrite !length_app, length_take, length_drop. lia.
Qed.

Lemma zlen_splice {A : Type} (buf : list A) (pos : Z) (bs : list A) :
  0 <= pos -> pos + zlen bs <= zlen buf -> zlen (splice buf pos bs) = zlen buf.
Proof. intros Hp Hl. unfold zlen. f_equal. now apply length_splice. Qed.

Lemma splice_nil {A : Type} (buf : list A) (pos : Z) : splice buf pos [] = buf.
Proof. unfold splice. cbn [app length]. rewrite Nat.add_0_r. apply take_drop. Qed.

Lemma splice_splice {A : Type} (buf : list A) (pos : Z) (a b : list A) :
  0 <= pos -> pos + zlen a + zlen b <= zlen buf ->
  splice (splice buf pos a) (pos + zlen a) b = splice buf pos (a ++ b).
Proof.
  intros Hp Hl. unfold splice at 1 3.
  assert (Hla : (Z.to_nat pos + length a <= length buf)%nat)
    by (pose proof (zlen_nonneg b); unfold zlen in *; lia).
  replace (Z.to_nat (pos + zlen a)) with (Z.to_nat pos + length a)%nat
    by (unfold zlen; lia).
  assert (Htl : length (take (Z.to_nat pos) buf) = Z.to_nat pos)
    by (rewrite length_take; lia).
  unfold splice.
  rewrite (app_assoc (take (Z.to_nat pos) buf) a).
  rewrite take_app_length' by (rewrite length_app; lia).
  rewrite <- (app_assoc (take (Z.to_nat pos) buf) a).
  rewrite <- !app_assoc. f_equal. f_equal. f_equal.
  rewrite !app_assoc.
  rewrite drop_app_ge by (rewrite !length_app; lia).
  rewrite !length_app, Htl, drop_drop. f_equal. lia.
Qed.

Lemma take_splice {A : Type} (buf : list A) (bs : list A) :
  zlen bs <= zlen buf -> take (length bs) (splice buf 0 bs) = bs.
Proof.
  intros H. unfold splice. cbn [Z.to_nat take app]. rewrite take_0. cbn [app].
  apply take_app_length.
Qed.

Lemma store_splice {A : Type} (buf : list A) (pos : Z) (v : A) :
  0 <= pos < zlen buf -> store buf pos v = Ret (splice buf pos [v]).
Proof.
  intros H. unfold store, splice. rewrite decide_True by lia. f_equal.
  rewrite insert_take_drop by (unfold zlen in H; lia).
  cbn [length app].
  replace (Z.to_nat pos + 1)%nat with (S (Z.to_nat pos)) by lia. reflexivity.
Qed.

Lemma copy_at_splice {A : Type} (buf : list A) (pos : Z) (src : list A) :
  0 <= pos -> pos + zlen src <= zlen buf -> copy_at buf pos src = Ret (splice buf pos src).
Proof.
  intros Hp Hl. unfold copy_at, splice. rewrite decide_True by (pose proof (zlen_nonneg src); lia).
  rewrite Z.min_r by lia. unfold zlen. rewrite Nat2Z.id, firstn_all. reflexivity.
Qed.

Lemma storeNative_splice (o : ByteOrder) (buf : list byte) (off : Z) (w : nat) (v : Z) :
  0 <= off -> off + Z.of_nat w <= zlen buf ->
  storeNative o buf off w v = Ret (splice buf off (nativeBytes o w v)).
Proof.
  intros Hp Hl. unfold storeNative, splice. rewrite decide_True by lia.
  now rewrite length_nativeBytes.
Qed.

Lemma leBytes_S_rev (w : nat) (v : Z) :
  rev (leBytes (S w) v) = byte.of_Z (v ≫ (8 * Z.of_nat w)) :: rev (leBytes w v).
Proof.
  revert v. induction w as [|w IH]; intros v.
  - cbn. now rewrite Z.shiftr_0_r.
  - change (leBytes (S (S w)) v) with (byte.of_Z v :: leBytes (S w) (v ≫ 8)).
    cbn [rev]. rewrite IH. cbn [app]. rewrite Z.shiftr_shiftr by lia.
    replace (8 + 8 * Z.of_nat w) with (8 * Z.of_nat (S w)) by lia.
    reflexivity.
Qed.

Lemma storeBE_splice (w : nat) (buf : list byte) (pos : Z) (v : Z) :
  0 <= pos -> pos + Z.of_nat w <= zlen buf ->
  storeBE w buf pos v = Ret (splice buf pos (beBytes w v)).
Proof.
  revert buf pos. induction w as [|w IH]; intros buf pos Hp Hl.
  - cbn [storeBE]. unfold beBytes. cbn [leBytes rev]. now rewrite splice_nil.
  - cbn [storeBE]. rewrite store_splice by lia. cbn [mbind outcome_bind].
    rewrite IH; [|lia|rewrite zlen_splice; [lia|lia|rewrite zlen_cons, zlen_nil; lia]].
    f_equal.
    change (pos + 1) with (pos + zlen [byte.of_Z (v ≫ (8 * Z.of_nat w))]).
    rewrite splice_splice;
      [|lia|rewrite zlen_cons, zlen_nil; unfold zlen at 1; rewrite length_beBytes; lia].
    unfold beBytes. now rewrite leBytes_S_rev.
Qed.

(** Reading back at a known place. *)
Lemma index_at {A : Type} (b pre : list A) (x : A) (rest : list A) (p : Z) :
  b = pre ++ x :: rest -> p = zlen pre -> index b p = Ret x.
Proof.
  intros -> ->. unfold index, zlen. rewrite decide_True by lia.
  rewrite Nat2Z.id, list_lookup_middle; reflexivity.
Qed.

Lemma slice_at {A : Type} (b pre seg rest : list A) (lo hi : Z) :
  b = pre ++ seg ++ rest -> lo = zlen pre -> hi = zlen pre + zlen seg ->
  slice b lo hi = Ret seg.
Proof.
  intros -> -> ->. unfold slice. pose proof (zlen_nonneg pre). pose proof (zlen_nonneg seg).
  rewrite decide_True by (rewrite !zlen_app; pose proof (zlen_nonneg rest); lia).
  f_equal. unfold zlen. rewrite Nat2Z.id, drop_app_length.
  replace (Z.to_nat (Z.of_nat (length pre) + Z.of_nat (length seg) - Z.of_nat (length pre)))
    with (length seg) by lia.
  apply take_app_length.
Qed.

Lemma loadBE_at (w : nat) (b pre rest : list byte) (v p : Z) :
  b = pre ++ beBytes w v ++ rest -> p = zlen pre ->
  loadBE w b p = Ret (v mod 2 ^ (8 * Z.of_nat w)).
Proof.
  intros -> ->. rewrite loadBE_slice.
  - f_equal. unfold zlen. rewrite Nat2Z.id, drop_app_length.
    rewrite (take_app_length' (beBytes w v) rest w) by (symmetry; apply length_beBytes).
    unfold beBytes. rewrite rev_involutive. apply leValue_leBytes.
  - apply zlen_nonneg.
  - rewrite !zlen_app. unfold zlen. rewrite length_beBytes. lia.
Qed.

Lemma loadNative_at (o : ByteOrder) (w : nat) (b pre seg rest : list byte) (p : Z) :
  b = pre ++ seg ++ rest -> p = zlen pre -> length seg = w ->
  loadNative o b p w = Ret (nativeValue o seg).
Proof.
  intros -> -> Hw. unfold loadNative.
  rewrite (slice_at _ pre seg rest); [reflexivity|reflexivity|reflexivity|].
  unfold zlen. lia.
Qed.


(** ** The encoder writes the wire bytes *)

Ltac zlen_lia :=
  unfold zlen in *; repeat rewrite length_app in *; cbn [length] in *; lia.

Lemma store_emit {A : Type} (buf w : list A) (v : A) (p : Z) :
  p = zlen w -> zlen w + 1 <= zlen buf ->
  store (splice buf 0 w) p v = Ret (splice buf 0 (w ++ [v])).
Proof.
  intros -> H. pose proof (zlen_nonneg w).
  rewrite store_splice by (rewrite zlen_splice; lia).
  f_equal. rewrite <- splice_splice by zlen_lia.
  now rewrite Z.add_0_l.
Qed.

Lemma copy_emit {A : Type} (buf w src : list A) (p : Z) :
  p = zlen w -> zlen w + zlen src <= zlen buf ->
  copy_at (splice buf 0 w) p src = Ret (splice buf 0 (w ++ src)).
Proof.
  intros -> H. pose proof (zlen_nonneg w). pose proof (zlen_nonneg src).
  rewrite copy_at_splice by (rewrite ?zlen_splice; lia).
  f_equal. rewrite <- splice_splice by lia. now rewrite Z.add_0_l.
Qed.

Lemma storeBE_emit (n : nat) (buf w : list byte) (v p : Z) :
  p = zlen w -> zlen w + Z.of_nat n <= zlen buf ->
  storeBE n (splice buf 0 w) p v = Ret (splice buf 0 (w ++ beBytes n v)).
Proof.
  intros -> H. pose proof (zlen_nonneg w).
  rewrite storeBE_splice by (rewrite ?zlen_splice; lia).
  f_equal. rewrite <- splice_splice by (unfold zlen in *; rewrite ?length_beBytes; lia).
  now rewrite Z.add_0_l.
Qed.

Lemma storeNative_emit (o : ByteOrder) (n : nat) (buf w : list byte) (v p : Z) :
  p = zlen w -> zlen w + Z.of_nat n <= zlen buf ->
  storeNative o (splice buf 0 w) p n v = Ret (splice buf 0 (w ++ nativeBytes o n v)).
Proof.
  intros -> H. pose proof (zlen_nonneg w).
  rewrite storeNative_splice by (rewrite ?zlen_splice; lia).
  f_equal.
  rewrite <- splice_splice by (unfold zlen in *; rewrite ?length_nativeBytes; lia).
  now rewrite Z.add_0_l.
Qed.

Lemma slice_all {A : Type} (l : list A) (n : Z) : n = zlen l -> slice l 0 n = Ret l.
Proof.
  intros ->. rewrite slice_Ret by (pose proof (zlen_nonneg l); lia). f_equal.
  cbn [Z.to_nat drop]. rewrite Z.sub_0_r. unfold zlen. rewrite Nat2Z.id. apply firstn_all.
Qed.

Lemma beBytes_2 (n : Z) : beBytes 2 n = [byte.of_Z (n ≫ 8); byte.of_Z n].
Proof. reflexivity. Qed.

Lemma nativeBytes_1 (o : ByteOrder) (x : byte) : nativeBytes o 1 (byte.unsigned x) = [x].
Proof. destruct o; cbn; now rewrite byte.of_Z_unsigned. Qed.

(** The length prefix and payload of a String or Bytes value, when the
    payload fits. *)
Lemma encodeLenPrefixed_emit (buf w src : list byte) (pos n : Z) :
  pos = zlen w -> n = zlen src -> n <= 65535 -> zlen w + 2 + n <= zlen buf ->
  encodeLenPrefixed (splice buf 0 w) pos n (Some src)
  = Ret (splice buf 0 (w ++ beBytes 2 n ++ src), pos + 2 + n).
Proof.
  intros -> -> Hn Hfit. pose proof (zlen_nonneg w). pose proof (zlen_nonneg src).
  unfold encodeLenPrefixed. rewrite zlen_splice by lia.
  replace (zlen src >? zlen buf - zlen w - 2) with false
    by (symmetry; rewrite Z.gtb_ltb; apply Z.ltb_ge; lia).
  replace (zlen src >? 65535) with false
    by (symmetry; rewrite Z.gtb_ltb; apply Z.ltb_ge; lia).
  rewrite (store_emit buf w) by lia. cbn [mbind outcome_bind].
  rewrite (store_emit buf (w ++ _)) by zlen_lia.
  cbn [mbind outcome_bind]. rewrite <- app_assoc. cbn [app].
  destruct (Z.ltb_spec 0 (zlen src)).
  - rewrite slice_all by reflexivity. cbn [mbind outcome_bind].
    rewrite (copy_emit buf (w ++ _)) by zlen_lia.
    rewrite <- app_assoc. reflexivity.
  - assert (src = []) as -> by (destruct src; [reflexivity|zlen_lia]).
    rewrite app_nil_r. change (zlen (@nil byte)) with 0. rewrite Z.add_0_r. reflexivity.
Qed.

Lemma wfField_type (o : ByteOrder) (f : Field) :
  wfField o f ->
  Typ f = x00 \/ Typ f = x01 \/ Typ f = x02 \/ Typ f = x03 \/
  Typ f = x04 \/ Typ f = x05 \/ Typ f = x06.
Proof.
  intros [_ H]. destruct (Typ f); try contradiction; tauto.
Qed.

Lemma zlen_beBytes (w : nat) (v : Z) : zlen (beBytes w v) = Z.of_nat w.
Proof. unfold zlen. now rewrite length_beBytes. Qed.

Lemma zlen_fieldBytes (o : ByteOrder) (f : Field) :
  zlen (fieldBytes o f) = 2 + zlen (Key f) + zlen (valueBytes o f).
Proof. unfold fieldBytes. zlen_lia. Qed.

(** With room for the whole field, [encodeField] writes exactly the field's
    wire bytes at the start of its buffer and returns their number. *)
Lemma encodeField_splice (o : ByteOrder) (sub : list byte) (f : Field) :
  wfField o f -> 10 <= zlen sub -> zlen (fieldBytes o f) <= zlen sub ->
  encodeField o sub f = Ret (splice sub 0 (fieldBytes o f), zlen (fieldBytes o f)).
Proof.
  intros Hwf H10 Hfit. pose proof (wfField_type o f Hwf) as Hty.
  destruct Hwf as [Hkey Hval].
  rewrite zlen_fieldBytes in Hfit.
  pose proof (zlen_nonneg (Key f)) as Hk0. pose proof (zlen_nonneg (valueBytes o f)) as Hv0.
  unfold encodeField.
  replace (zlen sub <? 10) with false by (symmetry; apply Z.ltb_ge; lia).
  replace (zlen (Key f) >? 255) with false
    by (symmetry; rewrite Z.gtb_ltb; apply Z.ltb_ge; lia).
  replace (zlen (Key f) >? zlen sub - 0 - 2) with false
    by (symmetry; rewrite Z.gtb_ltb; apply Z.ltb_ge; lia).
  replace (zlen (Key f) <? 0) with false by (symmetry; apply Z.ltb_ge; lia).
  rewrite store_splice by lia. cbn [mbind outcome_bind].
  rewrite slice_all by reflexivity. cbn [mbind outcome_bind].
  rewrite (copy_emit sub [_]) by zlen_lia.
  cbn [mbind outcome_bind].
  rewrite (store_emit sub ([_] ++ Key f))
    by zlen_lia.
  cbn [mbind outcome_bind].
  set (w := ([byte.of_Z (zlen (Key f))] ++ Key f) ++ [Typ f]).
  assert (Hw : zlen w = 2 + zlen (Key f))
    by (subst w; zlen_lia).
  assert (Hz : zlen (splice sub 0 w) = zlen sub) by (apply zlen_splice; lia).
  rewrite Hz.
  assert (Hfb : fieldBytes o f = w ++ valueBytes o f).
  { subst w. unfold fieldBytes. now rewrite <- !app_assoc. }
  rewrite Hfb, zlen_app, Hw.
  unfold valueBytes in *.
  destruct Hty as [E | [E | [E | [E | [E | [E | E]]]]]]; rewrite E in *.
  - rewrite zlen_beBytes in Hfit.
    replace (zlen sub - (0 + 1 + zlen (Key f) + 1) <? 8) with false
      by (symmetry; apply Z.ltb_ge; lia).
    rewrite storeBE_emit by lia. cbn [mbind outcome_bind]. rewrite zlen_beBytes.
    do 2 f_equal. lia.
  - rewrite zlen_beBytes in Hfit.
    replace (zlen sub - (0 + 1 + zlen (Key f) + 1) <? 8) with false
      by (symmetry; apply Z.ltb_ge; lia).
    rewrite storeBE_emit by lia. cbn [mbind outcome_bind]. rewrite zlen_beBytes.
    do 2 f_equal. lia.
  - rewrite zlen_beBytes in Hfit.
    replace (zlen sub - (0 + 1 + zlen (Key f) + 1) <? 4) with false
      by (symmetry; apply Z.ltb_ge; lia).
    rewrite storeBE_emit by lia. cbn [mbind outcome_bind]. rewrite zlen_beBytes.
    do 2 f_equal. lia.
  - rewrite zlen_beBytes in Hfit.
    replace (zlen sub - (0 + 1 + zlen (Key f) + 1) <? 8) with false
      by (symmetry; apply Z.ltb_ge; lia).
    rewrite storeBE_emit by lia. cbn [mbind outcome_bind]. rewrite zlen_beBytes.
    do 2 f_equal. lia.
  - rewrite zlen_app, zlen_beBytes in Hfit. pose proof (zlen_nonneg (str f)).
    replace (zlen sub - (0 + 1 + zlen (Key f) + 1) <? 2) with false
      by (symmetry; apply Z.ltb_ge; lia).
    rewrite (encodeLenPrefixed_emit sub w (str f)) by lia.
    rewrite zlen_app, zlen_beBytes. do 2 f_equal. lia.
  - rewrite zlen_beBytes in Hfit.
    replace (zlen sub - (0 + 1 + zlen (Key f) + 1) <? 8) with false
      by (symmetry; apply Z.ltb_ge; lia).
    rewrite storeBE_emit by lia. cbn [mbind outcome_bind]. rewrite zlen_beBytes.
    do 2 f_equal. lia.
  - destruct Hval as (mem & Hptr & Hnum & Hmem).
    rewrite Hptr in *. cbn [from_option id] in *. rewrite zlen_app, zlen_beBytes in Hfit.
    replace (zlen sub - (0 + 1 + zlen (Key f) + 1) <? 2) with false
      by (symmetry; apply Z.ltb_ge; lia).
    assert (Hi : i64 (num f) = zlen mem).
    { rewrite Hnum. apply i64_small. assert (65535 < 2 ^ 63) by reflexivity. lia. }
    rewrite Hi, Hnum.
    rewrite (encodeLenPrefixed_emit sub w mem) by lia.
    rewrite zlen_app, zlen_beBytes. do 2 f_equal. lia.
Qed.


Lemma splice_drop {A : Type} (buf : list A) (pos : Z) (bs : list A) :
  0 <= pos -> pos + zlen bs <= zlen buf ->
  take (Z.to_nat pos) buf ++ splice (drop (Z.to_nat pos) buf) 0 bs = splice buf pos bs.
Proof.
  intros Hp Hl. unfold splice. cbn [Z.to_nat]. rewrite take_0. cbn [app].
  rewrite drop_drop. reflexivity.
Qed.

Lemma zlen_drop {A : Type} (buf : list A) (pos : Z) :
  0 <= pos <= zlen buf -> zlen (drop (Z.to_nat pos) buf) = zlen buf - pos.
Proof. intros H. unfold zlen in *. rewrite length_drop. lia. Qed.

Lemma fieldBytes_min (o : ByteOrder) (f : Field) : 2 <= zlen (fieldBytes o f).
Proof.
  rewrite zlen_fieldBytes. pose proof (zlen_nonneg (Key f)).
  pose proof (zlen_nonneg (valueBytes o f)). lia.
Qed.

(** With 64 spare bytes after the last field, the field loop writes the
    wire bytes of every field, one after the other. *)
Lemma encodeFields_splice (o : ByteOrder) (fs : list Field) (buf : list byte) (pos : Z) :
  Forall (wfField o) fs -> 0 <= pos ->
  pos + zlen (fieldsBytes o fs) + 64 <= zlen buf ->
  encodeFields o fs buf pos
  = Ret (splice buf pos (fieldsBytes o fs), pos + zlen (fieldsBytes o fs)).
Proof.
  intros Hwf. revert buf pos. induction Hwf as [|f fs Hf Hfs IH]; intros buf pos Hp Hfit.
  - cbn [encodeFields fieldsBytes map concat]. rewrite splice_nil.
    change (zlen (@nil byte)) with 0. now rewrite Z.add_0_r.
  - cbn [encodeFields]. unfold fieldsBytes in *. cbn [map concat] in *.
    rewrite zlen_app in Hfit.
    pose proof (fieldBytes_min o f) as Hmin.
    pose proof (zlen_nonneg (concat (map (fieldBytes o) fs))) as Hrest.
    replace (pos <? zlen buf - 64) with true by (symmetry; apply Z.ltb_lt; lia).
    rewrite slice_Ret by lia. cbn [mbind outcome_bind].
    replace (Z.to_nat (zlen buf - pos)) with (length (drop (Z.to_nat pos) buf))
      by (rewrite length_drop; unfold zlen; lia).
    rewrite firstn_all.
    rewrite encodeField_splice; [|exact Hf|rewrite zlen_drop; lia|rewrite zlen_drop; lia].
    cbn [mbind outcome_bind].
    rewrite splice_drop by lia.
    rewrite IH; [|lia|rewrite zlen_splice; lia].
    rewrite splice_splice by lia. rewrite zlen_app. do 2 f_equal. lia.
Qed.

Lemma zlen_nativeBytes (o : ByteOrder) (w : nat) (v : Z) :
  zlen (nativeBytes o w v) = Z.of_nat w.
Proof. unfold zlen. now rewrite length_nativeBytes. Qed.

Lemma zlen_headerBytes (o : ByteOrder) (now : Z) (level : byte) (seq : Z) :
  zlen (headerBytes o now level seq) = 22.
Proof.
  unfold headerBytes. rewrite !zlen_app, !zlen_nativeBytes. reflexivity.
Qed.

Lemma writeBinaryHeader_splice (o : ByteOrder) (now : Z) (buf : list byte)
  (level : byte) (seq : Z) :
  22 <= zlen buf ->
  writeBinaryHeader o now buf level seq
  = Ret (splice buf 0 (headerBytes o now level seq), 22).
Proof.
  intros H. unfold writeBinaryHeader.
  rewrite storeNative_splice by (cbn; lia). cbn [mbind outcome_bind].
  rewrite (storeNative_emit o 1 buf) by (rewrite ?zlen_nativeBytes; cbn; lia).
  cbn [mbind outcome_bind].
  rewrite (storeNative_emit o 1 buf)
    by (rewrite ?zlen_app, ?zlen_nativeBytes; cbn; lia).
  cbn [mbind outcome_bind].
  rewrite (storeNative_emit o 8 buf)
    by (rewrite ?zlen_app, ?zlen_nativeBytes; cbn; lia).
  cbn [mbind outcome_bind].
  rewrite (storeNative_emit o 8 buf)
    by (rewrite ?zlen_app, ?zlen_nativeBytes; cbn; lia).
  cbn [mbind outcome_bind].
  rewrite !nativeBytes_1. unfold headerBytes. rewrite <- !app_assoc. reflexivity.
Qed.

Lemma zlen_wireBytes (o : ByteOrder) (now seq : Z) (level : byte) (msg : list byte)
  (fields : list Field) :
  zlen (wireBytes o now seq level msg fields)
  = 24 + zlen msg + zlen (fieldsBytes o fields).
Proof.
  unfold wireBytes. rewrite !zlen_app, zlen_headerBytes, !zlen_cons, !zlen_nil. lia.
Qed.

(** With 64 spare bytes, [formatStructuredMessage] writes the wire bytes of
    the record at the start of the buffer and returns their number. *)
Lemma formatStructuredMessage_splice (o : ByteOrder) (now seq : Z) (buf : list byte)
  (level : byte) (msg : list byte) (fields : list Field) :
  zlen msg <= 255 -> zlen fields <= 255 -> Forall (wfField o) fields ->
  zlen (wireBytes o now seq level msg fields) + 64 <= zlen buf ->
  formatStructuredMessage o now seq buf level msg fields
  = Ret (splice buf 0 (wireBytes o now seq level msg fields),
         zlen (wireBytes o now seq level msg fields), u64 (seq + 1)).
Proof.
  intros Hmsg Hfc Hwf Hfit. rewrite zlen_wireBytes in *.
  pose proof (zlen_nonneg msg). pose proof (zlen_nonneg fields).
  pose proof (zlen_nonneg (fieldsBytes o fields)).
  unfold formatStructuredMessage.
  rewrite writeBinaryHeader_splice by lia. cbn [mbind outcome_bind].
  replace (zlen msg >? 255) with false
    by (symmetry; rewrite Z.gtb_ltb; apply Z.ltb_ge; lia).
  replace (zlen fields >? 255) with false
    by (symmetry; rewrite Z.gtb_ltb; apply Z.ltb_ge; lia).
  rewrite (store_emit buf) by (rewrite zlen_headerBytes; lia).
  cbn [mbind outcome_bind].
  rewrite slice_all by reflexivity. cbn [mbind outcome_bind].
  rewrite (copy_emit buf)
    by (rewrite ?zlen_app, ?zlen_headerBytes, ?zlen_cons; change (zlen (@nil byte)) with 0; lia).
  cbn [mbind outcome_bind].
  rewrite (store_emit buf)
    by (rewrite ?zlen_app, ?zlen_headerBytes, ?zlen_cons; change (zlen (@nil byte)) with 0; lia).
  cbn [mbind outcome_bind].
  replace (Z.to_nat (zlen fields)) with (length fields) by (unfold zlen; lia).
  rewrite firstn_all.
  set (w := ((headerBytes o now level (u64 (seq + 1)) ++ [byte.of_Z (zlen msg)]) ++ msg)
            ++ [byte.of_Z (zlen fields)]).
  assert (Hw : zlen w = 24 + zlen msg).
  { subst w. rewrite !zlen_app, zlen_headerBytes, !zlen_cons.
    change (zlen (@nil byte)) with 0. lia. }
  replace (0 + 22 + 1 + zlen msg + 1) with (0 + zlen w) by lia.
  rewrite encodeFields_splice; [|exact Hwf|lia|rewrite zlen_splice; lia].
  cbn [mbind outcome_bind].
  rewrite splice_splice by lia.
  assert (Hwire : wireBytes o now seq level msg fields = w ++ fieldsBytes o fields).
  { subst w. unfold wireBytes. now rewrite <- !app_assoc. }
  rewrite Hwire, Hw.
  replace (0 + (24 + zlen msg) + zlen (fieldsBytes o fields))
    with (24 + zlen msg + zlen (fieldsBytes o fields)) by lia.
  reflexivity.
Qed.


(** ** The decoder reads the wire bytes back *)

Section ReadBack.
Context (o : ByteOrder) (timeText : Z -> list byte)
        (float64Text : Z -> list byte) (float32to64 : Z -> Z).

Lemma mod_small_pow (v : Z) (w : nat) (k : Z) :
  2 ^ (8 * Z.of_nat w) = k -> 0 <= v < k -> v mod 2 ^ (8 * Z.of_nat w) = v.
Proof. intros -> H. now apply Z.mod_small. Qed.

Lemma readFixed_wire (w : nat) (mk : Z -> Value) (b pre rest : list byte) (v p : Z) :
  b = pre ++ beBytes w v ++ rest -> p = zlen pre -> 0 <= v < 2 ^ (8 * Z.of_nat w) ->
  (if zlen b - p <? Z.of_nat w then Ret (VPlaceholder, p + Z.of_nat w)
   else n ← loadBE w b p; Ret (mk n, p + Z.of_nat w))
  = Ret (mk v, p + Z.of_nat w).
Proof.
  intros Hb Hp Hv.
  rewrite (loadBE_at w b pre rest v p Hb Hp).
  replace (zlen b - p <? Z.of_nat w) with false.
  - cbn [mbind outcome_bind]. now rewrite Z.mod_small.
  - symmetry. apply Z.ltb_ge. subst b p.
    rewrite !zlen_app, zlen_beBytes. pose proof (zlen_nonneg rest). lia.
Qed.

Lemma readPrefixed_wire (mk : list byte -> Value) (b pre rest s : list byte) (p : Z) :
  b = pre ++ (beBytes 2 (zlen s) ++ s) ++ rest -> p = zlen pre -> zlen s <= 65535 ->
  (if zlen b - p <? 2 then Ret (VPlaceholder, p + 2)
   else
     n ← loadBE 2 b p;
     if zlen b - p <? 2 + n then Ret (VPlaceholder, p + 2 + n)
     else s ← slice b (p + 2) (p + 2 + n); Ret (mk s, p + 2 + n))
  = Ret (mk s, p + (2 + zlen s)).
Proof.
  intros Hb Hp Hs. pose proof (zlen_nonneg s). pose proof (zlen_nonneg rest).
  assert (Hlen : zlen b - p = 2 + zlen s + zlen rest).
  { subst b p. rewrite !zlen_app, zlen_beBytes. lia. }
  rewrite Hlen.
  replace (2 + zlen s + zlen rest <? 2) with false by (symmetry; apply Z.ltb_ge; lia).
  rewrite (loadBE_at 2 b pre (s ++ rest) (zlen s) p);
    [|rewrite Hb, <- !app_assoc; reflexivity|exact Hp].
  cbn [mbind outcome_bind].
  rewrite Z.mod_small by (change (2 ^ (8 * Z.of_nat 2)) with 65536; lia).
  replace (2 + zlen s + zlen rest <? 2 + zlen s) with false
    by (symmetry; apply Z.ltb_ge; lia).
  rewrite (slice_at b (pre ++ beBytes 2 (zlen s)) s rest);
    [|rewrite Hb, <- !app_assoc; reflexivity
     |rewrite zlen_app, zlen_beBytes; lia
     |rewrite zlen_app, zlen_beBytes; lia].
  cbn [mbind outcome_bind]. do 2 f_equal. lia.
Qed.

Lemma fieldView_inRange (f : Field) : wfField o f -> valueInRange (snd (fieldView f)).
Proof.
  intros [_ H]. unfold fieldView. cbn [snd].
  destruct (Typ f); try exact I. cbn [valueInRange]. lia.
Qed.

(** The decoder reads back the value the encoder wrote. *)
Lemma readFieldValue_wire (b pre rest : list byte) (f : Field) (p : Z) :
  wfField o f -> b = pre ++ valueBytes o f ++ rest -> p = zlen pre ->
  readFieldValue b p (Typ f) = Ret (snd (fieldView f), p + zlen (valueBytes o f)).
Proof.
  intros Hwf Hb Hp. pose proof (wfField_type o f Hwf) as Hty.
  destruct Hwf as [Hkey Hval]. unfold fieldView, valueBytes in *. cbn [snd].
  destruct Hty as [E | [E | [E | [E | [E | [E | E]]]]]]; rewrite E in *;
    cbn [readFieldValue].
  - rewrite zlen_beBytes. apply (readFixed_wire 8 VInt b pre rest); assumption.
  - rewrite zlen_beBytes. apply (readFixed_wire 8 VUint b pre rest); assumption.
  - rewrite zlen_beBytes. destruct Hval as [Hv Hw]. rewrite Hw in Hb.
    apply (readFixed_wire 4 VFloat32 b pre rest); assumption.
  - rewrite zlen_beBytes. apply (readFixed_wire 8 VFloat64 b pre rest); assumption.
  - rewrite zlen_app, zlen_beBytes.
    apply (readPrefixed_wire VString b pre rest); assumption.
  - rewrite zlen_beBytes. apply (readFixed_wire 8 VBool b pre rest); assumption.
  - destruct Hval as (mem & Hptr & Hnum & Hmem). rewrite Hptr, Hnum in *.
    cbn [from_option id] in *. rewrite zlen_app, zlen_beBytes.
    apply (readPrefixed_wire VBytes b pre rest); [assumption|assumption|lia].
Qed.

Lemma key_byte (f : Field) :
  zlen (Key f) <= 255 -> byte.unsigned (byte.of_Z (zlen (Key f))) = zlen (Key f).
Proof.
  intros H. apply byte_unsigned_of_Z_small. pose proof (zlen_nonneg (Key f)). lia.
Qed.

(** The field loop reads back every field the encoder wrote: key, type and
    value. *)
Lemma decodeFields_wire (fs : list Field) (useColor : bool) (level : byte)
  (b pre : list byte) (pos i : Z) (buf : list byte)
  (acc : list (list byte * byte * Value)) :
  Forall (wfField o) fs -> b = pre ++ fieldsBytes o fs -> pos = zlen pre ->
  exists bufF,
    decodeFields float64Text float32to64 (length fs) i useColor level b pos buf acc
    = Ret (bufF, acc ++ map fieldView fs).
Proof.
  intros Hwf. revert pre pos i buf acc.
  induction Hwf as [|f fs Hf Hfs IH]; intros pre pos i buf acc Hb Hp.
  - exists buf. cbn [length decodeFields map]. now rewrite app_nil_r.
  - cbn [length decodeFields]. unfold fieldsBytes in Hb. cbn [map concat] in Hb.
    fold (fieldsBytes o fs) in Hb. unfold fieldBytes in Hb.
    pose proof (zlen_nonneg pre) as Hpre. pose proof (zlen_nonneg (Key f)) as Hk0.
    pose proof (zlen_nonneg (valueBytes o f)) as Hv0.
    pose proof (zlen_nonneg (fieldsBytes o fs)) as Hr0.
    pose proof Hf as [Hkey _].
    assert (Hlen : zlen b = zlen pre + 2 + zlen (Key f) + zlen (valueBytes o f)
                            + zlen (fieldsBytes o fs)).
    { rewrite Hb. zlen_lia. }
    replace (pos <? zlen b) with true by (symmetry; apply Z.ltb_lt; lia).
    rewrite (index_at b pre (byte.of_Z (zlen (Key f)))
               (Key f ++ [Typ f] ++ valueBytes o f ++ fieldsBytes o fs) pos);
      [|rewrite Hb, <- !app_assoc; reflexivity|exact Hp].
    cbn [mbind outcome_bind]. rewrite (key_byte f Hkey).
    replace (pos + 1 + zlen (Key f) >? zlen b) with false
      by (symmetry; rewrite Z.gtb_ltb; apply Z.ltb_ge; lia).
    replace (pos + 1 + zlen (Key f) >=? zlen b) with false
      by (symmetry; rewrite Z.geb_leb; apply Z.leb_gt; lia).
    rewrite (index_at b (pre ++ [byte.of_Z (zlen (Key f))] ++ Key f) (Typ f)
               (valueBytes o f ++ fieldsBytes o fs) (pos + 1 + zlen (Key f)));
      [|rewrite Hb, <- !app_assoc; reflexivity|zlen_lia].
    cbn [mbind outcome_bind].
    rewrite (slice_at b (pre ++ [byte.of_Z (zlen (Key f))]) (Key f)
               ([Typ f] ++ valueBytes o f ++ fieldsBytes o fs));
      [|rewrite Hb, <- !app_assoc; reflexivity|zlen_lia|zlen_lia].
    cbn [mbind outcome_bind].
    set (buf0 := if 0 <? i then buf ++ [x20] else buf).
    assert (exists buf1,
               (if useColor && (byte.unsigned level <? 5)
                then color ← index levelColors (byte.unsigned level);
                     Ret (buf0 ++ color ++ Key f ++ colorReset ++ [x3d])
                else Ret (buf0 ++ Key f ++ [x3d])) = Ret buf1) as (buf1 & ->).
    { destruct useColor; cbn [andb]; [|eexists; reflexivity].
      destruct (Z.ltb_spec (byte.unsigned level) 5); [|eexists; reflexivity].
      destruct (levelColors_index level) as (c & ->); [assumption|].
      eexists; reflexivity. }
    cbn [mbind outcome_bind].
    rewrite (readFieldValue_wire b (pre ++ [byte.of_Z (zlen (Key f))] ++ Key f ++ [Typ f])
               (fieldsBytes o fs) f);
      [|exact Hf|rewrite Hb, <- !app_assoc; reflexivity|zlen_lia].
    cbn [mbind outcome_bind].
    destruct (appendValue_total float64Text float32to64 buf1 (snd (fieldView f))
                (fieldView_inRange f Hf)) as (buf2 & ->).
    cbn [mbind outcome_bind].
    destruct (IH (pre ++ fieldBytes o f)
                (pos + 1 + zlen (Key f) + 1 + zlen (valueBytes o f)) (i + 1) buf2
                (acc ++ [(Key f, Typ f, snd (fieldView f))])) as (bufF & HF).
    + rewrite Hb. unfold fieldBytes. now rewrite <- !app_assoc.
    + rewrite zlen_app, zlen_fieldBytes. lia.
    + exists bufF. rewrite HF. cbn [map]. rewrite <- app_assoc. cbn [app].
      reflexivity.
Qed.
End ReadBack.


Section RoundTrip.
Context (o : ByteOrder) (timeText : Z -> list byte)
        (float64Text : Z -> list byte) (float32to64 : Z -> Z).

Lemma magic_native : nativeValue o (nativeBytes o 4 MagicHeader) = MagicHeader.
Proof. rewrite nativeValue_nativeBytes. reflexivity. Qed.

(** When the two bytes at offset 14 do not pass for a Basic length, the
    decoder reads a Structured record back: level, time stamp, message and
    every field. *)
Lemma decodeLine_wire (useColor : bool) (now seq : Z) (level : byte)
  (msg : list byte) (fields : list Field) :
  zlen msg <= 255 -> zlen fields <= 255 -> Forall (wfField o) fields ->
  (tsProbe o now = 0 \/
   zlen (wireBytes o now seq level msg fields) < 16 + tsProbe o now) ->
  exists line,
    decodeLine o timeText float64Text float32to64 useColor
      (wireBytes o now seq level msg fields)
    = Ret (inr (line, {| p_level := level; p_timestamp := u64 now; p_msgStart := 23;
                         p_msg := msg; p_fields := map fieldView fields |})).
Proof.
  intros Hmsg Hfc Hwf Hprobe.
  pose proof (zlen_nonneg msg) as Hm0. pose proof (zlen_nonneg fields) as Hf0.
  pose proof (zlen_nonneg (fieldsBytes o fields)) as Hb0.
  set (wire := wireBytes o now seq level msg fields) in *.
  assert (Hlen : zlen wire = 24 + zlen msg + zlen (fieldsBytes o fields))
    by apply zlen_wireBytes.
  set (ts8 := nativeBytes o 8 (u64 now)).
  set (sq8 := nativeBytes o 8 (u64 (seq + 1))).
  set (mg4 := nativeBytes o 4 MagicHeader).
  set (tailB := [byte.of_Z (zlen msg)] ++ msg ++ [byte.of_Z (zlen fields)]
                ++ fieldsBytes o fields).
  assert (Hwire : wire = mg4 ++ [Version; level] ++ sq8 ++ ts8 ++ tailB).
  { subst wire mg4 sq8 ts8 tailB. unfold wireBytes, headerBytes.
    now rewrite <- !app_assoc. }
  assert (Hmg : length mg4 = 4%nat) by apply length_nativeBytes.
  assert (Hsq : length sq8 = 8%nat) by apply length_nativeBytes.
  assert (Hts : length ts8 = 8%nat) by apply length_nativeBytes.
  unfold decodeLine.
  replace (zlen wire <? 16) with false by (symmetry; apply Z.ltb_ge; lia).
  rewrite (loadNative_at o 4 wire [] mg4 ([Version; level] ++ sq8 ++ ts8 ++ tailB) 0);
    [|exact Hwire|reflexivity|exact Hmg].
  cbn [mbind outcome_bind]. subst mg4. rewrite magic_native, Z.eqb_refl. cbn [negb].
  set (mg4 := nativeBytes o 4 MagicHeader) in *.
  rewrite (index_at wire (mg4 ++ [Version]) level (sq8 ++ ts8 ++ tailB) 5);
    [|rewrite Hwire, <- !app_assoc; reflexivity|zlen_lia].
  cbn [mbind outcome_bind].
  (* layout detection *)
  unfold detectFormat.
  replace (zlen wire >=? 16) with true by (symmetry; apply Z.geb_le; lia).
  rewrite (loadNative_at o 2 wire (mg4 ++ [Version; level] ++ sq8) (take 2 ts8)
             (drop 2 ts8 ++ tailB) 14);
    [|rewrite Hwire; rewrite <- (take_drop 2 ts8) at 1; now rewrite <- !app_assoc
     |zlen_lia
     |rewrite length_take; lia].
  cbn [mbind outcome_bind]. change (nativeValue o (take 2 ts8)) with (tsProbe o now).
  assert (Hnot : (0 <? tsProbe o now) && (tsProbe o now <=? 65535)
                 && (zlen wire >=? 16 + tsProbe o now) = false).
  { destruct Hprobe as [-> | Hp]; [reflexivity|].
    replace (zlen wire >=? 16 + tsProbe o now) with false
      by (symmetry; rewrite Z.geb_leb; apply Z.leb_gt; lia).
    apply andb_false_r. }
  rewrite Hnot.
  replace (zlen wire >=? 23) with true by (symmetry; apply Z.geb_le; lia).
  rewrite (index_at wire (mg4 ++ [Version; level] ++ sq8 ++ ts8) (byte.of_Z (zlen msg))
             (msg ++ [byte.of_Z (zlen fields)] ++ fieldsBytes o fields) 22);
    [|rewrite Hwire, <- !app_assoc; reflexivity|zlen_lia].
  cbn [mbind outcome_bind].
  rewrite (byte_unsigned_of_Z_small (zlen msg)) by lia.
  replace (zlen wire >=? 23 + zlen msg) with true by (symmetry; apply Z.geb_le; lia).
  rewrite (loadNative_at o 8 wire (mg4 ++ [Version; level] ++ sq8) ts8 tailB 14);
    [|rewrite Hwire, <- !app_assoc; reflexivity|zlen_lia|exact Hts].
  cbn [mbind outcome_bind]. subst ts8.
  rewrite nativeValue_nativeBytes.
  rewrite (Z.mod_small (u64 now)) by apply u64_range.
  set (ts8 := nativeBytes o 8 (u64 now)) in *.
  (* the body *)
  destruct (decodeLine_body_total timeText float64Text float32to64 useColor wire level
              (u64 now) (zlen msg) 23) as (line & fs & Hbody & Hfs & _);
    [lia|now right|lia|].
  exists line.
  assert (Hmsgeq : take (Z.to_nat (zlen msg)) (drop (Z.to_nat 23) wire) = msg).
  { rewrite Hwire.
    replace (mg4 ++ [Version; level] ++ sq8 ++ ts8 ++ tailB)
      with ((mg4 ++ [Version; level] ++ sq8 ++ ts8 ++ [byte.of_Z (zlen msg)])
            ++ msg ++ [byte.of_Z (zlen fields)] ++ fieldsBytes o fields)
      by (subst tailB; now rewrite <- !app_assoc).
    rewrite drop_app_length' by (rewrite !length_app, Hmg, Hsq, Hts; reflexivity).
    unfold zlen. rewrite Nat2Z.id. apply take_app_length. }
  rewrite Hmsgeq in Hbody.
  destruct Hfs as (fc & buf3 & bufF & Hfc' & Hdec); [lia|].
  assert (Hfcv : fc = byte.of_Z (zlen fields)).
  { rewrite Hwire in Hfc'.
    replace (mg4 ++ [Version; level] ++ sq8 ++ ts8 ++ tailB)
      with ((mg4 ++ [Version; level] ++ sq8 ++ ts8 ++ [byte.of_Z (zlen msg)] ++ msg)
            ++ byte.of_Z (zlen fields) :: fieldsBytes o fields) in Hfc'
      by (subst tailB; now rewrite <- !app_assoc).
    rewrite list_lookup_middle in Hfc'; [congruence|].
    rewrite !length_app, Hmg, Hsq, Hts. cbn [length]. unfold zlen. lia. }
  subst fc. rewrite (byte_unsigned_of_Z_small (zlen fields)) in Hdec by lia.
  replace (Z.to_nat (zlen fields)) with (length fields) in Hdec by (unfold zlen; lia).
  destruct (decodeFields_wire o float64Text float32to64 fields useColor level wire
              (mg4 ++ [Version; level] ++ sq8 ++ ts8 ++ [byte.of_Z (zlen msg)] ++ msg
               ++ [byte.of_Z (zlen fields)])
              (23 + zlen msg + 1) 0 buf3 [] Hwf) as (bufF' & Hdec').
  { rewrite Hwire. subst tailB. now rewrite <- !app_assoc. }
  { zlen_lia. }
  rewrite Hdec in Hdec'. injection Hdec' as _ Hfseq. cbn [app] in Hfseq.
  rewrite Hfseq in Hbody. exact Hbody.
Qed.

(** C1, as the code has it.  A message of at most 255 bytes and at most 255
    fields the format can carry whole, encoded by [formatStructuredMessage]
    into a buffer with 64 bytes to spare, are read back by the terminal
    writer's parser (level, time stamp, message, and key, type and value of
    every field) provided the first two bytes of the time stamp, read as a
    16-bit number, are 0 or exceed the record length less 16, so that the
    record is not taken for a Basic one. *)
Theorem C1_roundtrip (useColor : bool) (now seq : Z) (buf : list byte) (level : byte)
  (msg : list byte) (fields : list Field) :
  zlen msg <= 255 -> zlen fields <= 255 -> Forall (wfField o) fields ->
  zlen (wireBytes o now seq level msg fields) + 64 <= zlen buf ->
  (tsProbe o now = 0 \/
   zlen (wireBytes o now seq level msg fields) < 16 + tsProbe o now) ->
  exists buf' n wire line,
    formatStructuredMessage o now seq buf level msg fields = Ret (buf', n, u64 (seq + 1)) /\
    slice buf' 0 n = Ret wire /\
    decodeLine o timeText float64Text float32to64 useColor wire
    = Ret (inr (line, {| p_level := level; p_timestamp := u64 now; p_msgStart := 23;
                         p_msg := msg; p_fields := map fieldView fields |})).
Proof.
  intros Hmsg Hfc Hwf Hfit Hprobe.
  destruct (decodeLine_wire useColor now seq level msg fields Hmsg Hfc Hwf Hprobe)
    as (line & Hline).
  pose proof (zlen_nonneg (wireBytes o now seq level msg fields)) as Hw0.
  eexists _, _, (wireBytes o now seq level msg fields), line.
  split; [apply formatStructuredMessage_splice; assumption|].
  split; [|exact Hline].
  rewrite slice_Ret by (rewrite ?zlen_splice; lia). f_equal.
  cbn [Z.to_nat drop]. rewrite Z.sub_0_r. unfold zlen at 1. rewrite Nat2Z.id.
  apply take_splice. lia.
Qed.
End RoundTrip.


Lemma C1_roundtrip_witness :
  let fields :=
    [ Int [x6e] 42; Uint [x75] 7; Float32 [x66] 1069547520;
      Float64 [x67] 4609434218613702656; String [x73] [x68; x69];
      Bool [x62] true;
      {| Key := [x64]; Typ := FieldTypeBytes; num := 3; str := [];
         fptr := Some [x01; x02; x03] |} ] in
  exists buf' n wire line,
    formatStructuredMessage LittleEndian 1000000 0 (replicate 512 x00) LevelWarn
      [x68; x65; x6c; x6c; x6f] fields = Ret (buf', n, u64 (0 + 1)) /\
    slice buf' 0 n = Ret wire /\
    decodeLine LittleEndian (fun _ => []) (fun _ => []) (fun z => z) false wire
    = Ret (inr (line, {| p_level := LevelWarn; p_timestamp := u64 1000000;
                         p_msgStart := 23; p_msg := [x68; x65; x6c; x6c; x6f];
                         p_fields := map fieldView fields |})).
Proof.
  cbv zeta.
  apply (C1_roundtrip LittleEndian (fun _ => []) (fun _ => []) (fun z => z) false).
  - vm_compute. discriminate.
  - vm_compute. discriminate.
  - repeat constructor; try (vm_compute; discriminate); try (vm_compute; reflexivity).
    exists [x01; x02; x03]. repeat split; vm_compute; discriminate.
  - vm_compute. discriminate.
  - right. vm_compute. reflexivity.
Defined.

(** C1 as stated fails.  On a little-endian machine a record with time stamp
    1, message "hi" and no field is encoded in 26 bytes; the decoder finds
    the 16-bit number 1 at offset 14, takes the record for a Basic one and
    reads a one-byte message (a zero byte) at offset 16. *)
Lemma C1_counterexample :
  exists buf' wire line p,
    formatStructuredMessage LittleEndian 1 0 (replicate 512 x00) LevelInfo [x68; x69] []
    = Ret (buf', 26, 1) /\
    slice buf' 0 26 = Ret wire /\
    decodeLine LittleEndian (fun _ => []) (fun _ => []) (fun z => z) false wire
    = Ret (inr (line, p)) /\
    p_msgStart p = 16 /\ p_msg p = [x00] /\ p_msg p <> [x68; x69].
Proof.
  do 4 eexists.
  split; [vm_compute; reflexivity|].
  split; [vm_compute; reflexivity|].
  split; [vm_compute; reflexivity|].
  split; [reflexivity|]. split; [reflexivity|]. cbn [p_msg]. discriminate.
Qed.

Lemma C10_empty_basic_witness :
  decodeLine LittleEndian (fun _ => []) (fun _ => []) (fun z => z) false
    [x47; x4f; x4c; x5a; x01; x01; x10; x27; x00; x00; x00; x00; x00; x00; x00; x00]
  = Ret (inl ErrMessageTruncated).
Proof.
  destruct (C10_empty_basic LittleEndian (fun _ => []) (fun _ => []) (fun z => z) false
              [x47; x4f; x4c; x5a; x01; x01; x10; x27; x00; x00; x00; x00; x00; x00; x00; x00])
    as [H _].
  - vm_compute. discriminate.
  - vm_compute. reflexivity.
  - vm_compute. reflexivity.
  - apply H. vm_compute. reflexivity.
Defined.

(** C10 as stated fails.  A 23-byte record with the magic number, a zero
    length at offset 14 and the byte 200 at offset 22 is at least 23 bytes
    long, yet it is not read as Structured: it is rejected. *)
Lemma C10_counterexample :
  let b := [x47; x4f; x4c; x5a; x01; x01; x10; x27; x00; x00; x00; x00; x00; x00;
            x00; x00; x00; x00; x00; x00; x00; x00; xc8] in
  zlen b = 23 /\
  loadNative LittleEndian b 0 4 = Ret MagicHeader /\
  loadNative LittleEndian b 14 2 = Ret 0 /\
  decodeLine LittleEndian (fun _ => []) (fun _ => []) (fun z => z) false b
  = Ret (inl ErrCannotDetermineFormat).
Proof. cbv zeta. repeat split; vm_compute; reflexivity. Qed.


(** ** The buffer pool hands out buffers that are large enough *)

Lemma make0_cap (size : Z) : 0 <= size -> cap (make0 size) = size.
Proof. intros H. unfold cap, make0, zlen. cbn [arr]. rewrite length_replicate. lia. Qed.

Lemma poolAt_valid (bp : BufferPool) (h : Heap) (idx : Z) :
  Forall (Forall (fun p : ptr => (p < length h)%nat)) (pools bp) ->
  Forall (fun p : ptr => (p < length h)%nat) (poolAt bp idx).
Proof.
  intros H. unfold poolAt. destruct (pools bp !! Z.to_nat idx) as [l|] eqn:E; cbn.
  - eapply Forall_lookup_1 in H; [exact H|exact E].
  - constructor.
Qed.

Lemma setPoolAt_valid (bp : BufferPool) (h : Heap) (idx : Z) (l : Pool ptr) :
  Forall (Forall (fun p : ptr => (p < length h)%nat)) (pools bp) ->
  Forall (fun p : ptr => (p < length h)%nat) l ->
  Forall (Forall (fun p : ptr => (p < length h)%nat)) (pools (setPoolAt bp idx l)).
Proof. intros H Hl. unfold setPoolAt. cbn [pools]. now apply Forall_insert. Qed.

Lemma valid_mono (h h' : Heap) (ls : list (Pool ptr)) :
  (length h <= length h')%nat ->
  Forall (Forall (fun p : ptr => (p < length h)%nat)) ls ->
  Forall (Forall (fun p : ptr => (p < length h')%nat)) ls.
Proof.
  intros Hle H. eapply Forall_impl; [|exact H]. intros l Hl.
  eapply Forall_impl; [|exact Hl]. cbn. intros; lia.
Qed.

(** [BufferPool.Get] returns a buffer whose capacity is at
    least the requested size (at least 64 for a non-positive request); the
    pool stays valid and no buffer is lost from the heap. *)
Lemma BufferPool_Get_spec (size : Z) (ps : PoolState) :
  poolsValid ps ->
  exists p bp h s,
    BufferPool_Get size (gpool ps) (gheap ps) = Ret (p, bp, h) /\
    deref h p = Ret s /\
    (if size <=? 0 then 64 else size) <= cap s /\
    poolsValid {| gpool := bp; gheap := h |} /\
    (length (gheap ps) <= length h)%nat.
Proof.
  intros Hv. unfold BufferPool_Get, poolsValid in *.
  set (sz := if size <=? 0 then 64 else size).
  assert (Hsz : 0 < sz) by (subst sz; destruct (Z.leb_spec size 0); lia).
  rewrite sizeClass_zero. cbn [Z.geb Z.compare].
  pose proof (poolAt_valid (gpool ps) (gheap ps) 0 Hv) as Hp0.
  destruct (poolAt (gpool ps) 0) as [|p l] eqn:E; cbn [Pool_Get alloc].
  - (* a new buffer of the first class *)
    assert (Hd : deref (gheap ps ++ [make0 (classSize 0)]) (length (gheap ps))
                 = Ret (make0 (classSize 0))).
    { unfold deref. rewrite lookup_app_r, Nat.sub_diag by lia. reflexivity. }
    assert (Hc : cap (make0 (classSize 0)) = 64) by reflexivity.
    rewrite Hd. cbn [mbind outcome_bind]. rewrite Hc.
    destruct (Z.ltb_spec 64 sz).
    + eexists _, _, _, _. split; [reflexivity|]. unfold deref.
      rewrite list_lookup_insert_eq by (rewrite length_app; cbn; lia).
      split; [reflexivity|]. split; [rewrite make0_cap; lia|].
      cbn [gpool gheap].
      split; [|rewrite length_insert, length_app; lia].
      apply setPoolAt_valid; [|constructor].
      eapply valid_mono; [|exact Hv]. rewrite length_insert, length_app; lia.
    + eexists _, _, _, _. split; [reflexivity|]. rewrite Hd.
      split; [reflexivity|]. split; [rewrite Hc; lia|].
      cbn [gpool gheap]. split; [|rewrite length_app; lia].
      apply setPoolAt_valid; [|constructor].
      eapply valid_mono; [|exact Hv]. rewrite length_app; lia.
  - (* a pooled buffer *)
    inversion Hp0 as [|? ? Hp Hl]; subst.
    destruct (lookup_lt_is_Some_2 (gheap ps) p Hp) as [s Hs].
    assert (Hd : deref (gheap ps) p = Ret s) by (unfold deref; now rewrite Hs).
    rewrite Hd. cbn [mbind outcome_bind].
    destruct (Z.ltb_spec (cap s) sz).
    + eexists _, _, _, _. split; [reflexivity|]. unfold deref.
      rewrite list_lookup_insert_eq by lia.
      split; [reflexivity|]. split; [rewrite make0_cap; lia|].
      cbn [gpool gheap]. split; [|rewrite length_insert; lia].
      apply setPoolAt_valid.
      * eapply valid_mono; [|exact Hv]. rewrite length_insert; lia.
      * eapply Forall_impl; [|exact Hl]. cbn. intros. rewrite length_insert. lia.
    + eexists _, _, _, _. split; [reflexivity|]. rewrite Hd.
      split; [reflexivity|]. split; [lia|].
      cbn [gpool gheap]. split; [|lia].
      apply setPoolAt_valid; assumption.
Qed.

Lemma BufferPool_Put_spec (p : ptr) (bp : BufferPool) (h : Heap) (s : Slice) :
  h !! p = Some s ->
  BufferPool_Put p bp h = Ret (bp, <[p := reslice s 0]> h).
Proof.
  intros Hs. unfold BufferPool_Put, deref. rewrite Hs. cbn [mbind outcome_bind].
  destruct (cap s =? 0); [reflexivity|].
  pose proof (leadingZeros64_range _ (u64_range (cap s - 1))) as H.
  revert H. generalize (leadingZeros64 (u64 (cap s - 1))) as z. intros z H.
  destruct (Z.leb_spec 0 (64 - z - 6)); [lia|]. reflexivity.
Qed.


(** ** The loggers: what a log call puts on the wire *)

Lemma splice_full {A : Type} (buf w : list A) : zlen w = zlen buf -> splice buf 0 w = w.
Proof.
  intros H. unfold splice. cbn [Z.to_nat]. rewrite take_0. cbn [app Nat.add].
  rewrite drop_ge by (unfold zlen in H; lia). apply app_nil_r.
Qed.

Lemma zlen_take {A : Type} (n : nat) (l : list A) :
  zlen (take n l) = Z.min (Z.of_nat n) (zlen l).
Proof. unfold zlen. rewrite length_take. lia. Qed.

(** The clamp [if msgLen > n { msgLen = n }] gives the length of the first
    [n] elements. *)
Lemma clamp_take {A : Type} (n : nat) (l : list A) :
  (if zlen l >? Z.of_nat n then Z.of_nat n else zlen l) = zlen (take n l).
Proof.
  rewrite zlen_take, Z.gtb_ltb.
  destruct (Z.ltb_spec (Z.of_nat n) (zlen l)); lia.
Qed.

Lemma slice_take {A : Type} (n : nat) (l : list A) :
  slice l 0 (zlen (take n l)) = Ret (take n l).
Proof.
  pose proof (zlen_nonneg (take n l)). pose proof (zlen_take n l).
  rewrite slice_Ret by lia. f_equal. change (Z.to_nat 0) with 0%nat. rewrite drop_0.
  rewrite Z.sub_0_r. unfold zlen. rewrite Nat2Z.id, length_take.
  destruct (Nat.le_ge_cases n (length l)).
  - now rewrite Nat.min_l.
  - rewrite Nat.min_r by lia. now rewrite !take_ge by lia.
Qed.

Lemma zlen_replicate {A : Type} (n : nat) (x : A) : zlen (replicate n x) = Z.of_nat n.
Proof. unfold zlen. now rewrite length_replicate. Qed.

Lemma zlen_basicBytes (o : ByteOrder) (now : Z) (level : byte) (msg : list byte) :
  zlen (basicBytes o now level msg) = 16 + zlen msg.
Proof.
  unfold basicBytes. rewrite !zlen_app, !zlen_nativeBytes, !zlen_cons.
  change (zlen (@nil byte)) with 0. lia.
Qed.

Lemma zlen_ultimateBytes (o : ByteOrder) (now seq : Z) (level : byte) (msg : list byte) :
  zlen (ultimateBytes o now seq level msg) = 23 + zlen (take 200 msg).
Proof.
  unfold ultimateBytes. rewrite !zlen_app, zlen_headerBytes, !zlen_cons.
  change (zlen (@nil byte)) with 0. lia.
Qed.

(** [Logger.formatMessage] writes the 16-byte header and then the whole
    message. *)
Lemma formatMessage_splice (o : ByteOrder) (now : Z) (buf : list byte) (level : byte)
  (msg : list byte) :
  16 + zlen msg <= zlen buf ->
  formatMessage o now buf level msg = Ret (splice buf 0 (basicBytes o now level msg)).
Proof.
  intros H. pose proof (zlen_nonneg msg). unfold formatMessage.
  rewrite storeNative_splice by (cbn; lia). cbn [mbind outcome_bind].
  rewrite (store_emit buf) by (rewrite ?zlen_nativeBytes; cbn; lia).
  cbn [mbind outcome_bind].
  rewrite (store_emit buf)
    by (rewrite ?zlen_app, ?zlen_nativeBytes, ?zlen_cons;
        change (zlen (@nil byte)) with 0; cbn; lia).
  cbn [mbind outcome_bind].
  rewrite (storeNative_emit o 8 buf)
    by (rewrite ?zlen_app, ?zlen_nativeBytes, ?zlen_cons;
        change (zlen (@nil byte)) with 0; cbn; lia).
  cbn [mbind outcome_bind].
  rewrite (storeNative_emit o 2 buf)
    by (rewrite ?zlen_app, ?zlen_nativeBytes, ?zlen_cons;
        change (zlen (@nil byte)) with 0; cbn; lia).
  cbn [mbind outcome_bind].
  rewrite (copy_emit buf)
    by (rewrite ?zlen_app, ?zlen_nativeBytes, ?zlen_cons;
        change (zlen (@nil byte)) with 0; cbn; lia).
  unfold basicBytes. rewrite <- !app_assoc. reflexivity.
Qed.

(** [formatUltimateMessage], called with the length of the bytes [m] it is
    to copy. *)
Lemma formatUltimateMessage_emit (o : ByteOrder) (now seq : Z) (buf : list byte)
  (level : byte) (msg m : list byte) :
  slice msg 0 (zlen m) = Ret m -> 23 + zlen m <= zlen buf ->
  formatUltimateMessage o now seq buf level msg (zlen m)
  = Ret (splice buf 0 (headerBytes o now level (u64 (seq + 1)) ++ [byte.of_Z (zlen m)] ++ m)).
Proof.
  intros Hs H. pose proof (zlen_nonneg m). unfold formatUltimateMessage.
  rewrite storeNative_splice by (cbn; lia). cbn [mbind outcome_bind].
  rewrite (storeNative_emit o 1 buf) by (rewrite ?zlen_nativeBytes; cbn; lia).
  cbn [mbind outcome_bind].
  rewrite (storeNative_emit o 1 buf)
    by (rewrite ?zlen_app, ?zlen_nativeBytes; cbn; lia).
  cbn [mbind outcome_bind].
  rewrite (storeNative_emit o 8 buf)
    by (rewrite ?zlen_app, ?zlen_nativeBytes; cbn; lia).
  cbn [mbind outcome_bind].
  rewrite (storeNative_emit o 8 buf)
    by (rewrite ?zlen_app, ?zlen_nativeBytes; cbn; lia).
  cbn [mbind outcome_bind].
  rewrite (storeNative_emit o 1 buf)
    by (rewrite ?zlen_app, ?zlen_nativeBytes; cbn; lia).
  cbn [mbind outcome_bind].
  rewrite !nativeBytes_1.
  assert (Hw : ((((nativeBytes o 4 MagicHeader ++ [Version]) ++ [level]) ++
                 nativeBytes o 8 (u64 (seq + 1))) ++ nativeBytes o 8 (u64 now)) ++
               [byte.of_Z (zlen m)]
               = headerBytes o now level (u64 (seq + 1)) ++ [byte.of_Z (zlen m)]).
  { unfold headerBytes. now rewrite <- !app_assoc. }
  rewrite Hw.
  destruct (Z.ltb_spec 0 (zlen m)) as [Hpos|Hz].
  - rewrite Hs. cbn [mbind outcome_bind].
    rewrite (copy_emit buf)
      by (rewrite ?zlen_app, ?zlen_headerBytes, ?zlen_cons;
          change (zlen (@nil byte)) with 0; lia).
    now rewrite <- app_assoc.
  - assert (m = []) as -> by (destruct m; [reflexivity|unfold zlen in Hz; cbn in Hz; lia]).
    reflexivity.
Qed.

(** [GetBuffer(n)] resliced to [n] bytes. *)
Lemma getBufferSlice_spec (n : Z) (ps : PoolState) :
  0 < n -> poolsValid ps ->
  exists p buf ps' s,
    getBufferSlice n ps = Ret (p, buf, ps') /\
    zlen buf = n /\
    deref (gheap ps') p = Ret s /\
    poolsValid ps'.
Proof.
  intros Hn Hv. destruct (BufferPool_Get_spec n ps Hv) as (p & bp & h & s & HG & Hd & Hc & Hv' & _).
  replace (n <=? 0) with false in Hc by (symmetry; apply Z.leb_gt; lia).
  unfold getBufferSlice. rewrite HG. cbn [mbind outcome_bind]. rewrite Hd.
  cbn [mbind outcome_bind]. unfold cap in Hc.
  rewrite slice_Ret by lia. cbn [mbind outcome_bind].
  eexists _, _, _, _. split; [reflexivity|]. cbn [gheap].
  split; [|split; [exact Hd|exact Hv']].
  change (Z.to_nat 0) with 0%nat. rewrite drop_0. unfold zlen in *. rewrite length_take. lia.
Qed.

(** The end of a pooled log call: the bytes written through the slice land
    in the buffer, and the buffer goes back to [PutBuffer]. *)
Lemma returnBuffer_spec (p : ptr) (buf : list byte) (ps : PoolState) (s : Slice) :
  deref (gheap ps) p = Ret s -> poolsValid ps ->
  exists ps',
    (h ← writeBack p buf (gheap ps); PutBuffer p {| gpool := gpool ps; gheap := h |})
    = Ret ps' /\ poolsValid ps'.
Proof.
  intros Hd Hv. unfold writeBack. rewrite Hd. cbn [mbind outcome_bind].
  assert (Hp : (p < length (gheap ps))%nat).
  { unfold deref in Hd. destruct (gheap ps !! p) eqn:E; [|discriminate].
    eapply lookup_lt_Some; exact E. }
  unfold PutBuffer. cbn [gpool gheap].
  erewrite BufferPool_Put_spec by (apply list_lookup_insert_eq; exact Hp).
  cbn [mbind outcome_bind]. eexists. split; [reflexivity|].
  unfold poolsValid in *. cbn [gpool gheap].
  eapply valid_mono; [|exact Hv]. rewrite !length_insert. lia.
Qed.

(** [Logger.log] hands the writer the 16-byte header followed by the whole
    message, whatever its length. *)
Lemma Logger_log_spec (o : ByteOrder) (now : Z) (level : byte) (msg : list byte)
  (ps : PoolState) :
  poolsValid ps ->
  exists ps',
    Logger_log o now level msg ps = Ret (basicBytes o now level msg, ps') /\
    poolsValid ps'.
Proof.
  intros Hv. pose proof (zlen_nonneg msg) as Hm. unfold Logger_log. cbv zeta.
  destruct (Z.leb_spec (16 + zlen msg) 256) as [Hs|Hl].
  - rewrite slice_Ret by (rewrite ?zlen_replicate; lia). cbn [mbind outcome_bind].
    set (buf := take _ _).
    assert (Hb : zlen buf = 16 + zlen msg).
    { subst buf. change (Z.to_nat 0) with 0%nat. rewrite drop_0. unfold zlen. rewrite length_take, length_replicate.
      unfold zlen in *. lia. }
    rewrite formatMessage_splice by lia. cbn [mbind outcome_bind].
    rewrite splice_full by (rewrite zlen_basicBytes; lia).
    exists ps. split; [reflexivity|exact Hv].
  - destruct (getBufferSlice_spec (16 + zlen msg) ps) as (p & buf & ps1 & s & HG & Hb & Hd & Hv1);
      [lia|exact Hv|].
    rewrite HG. cbn [mbind outcome_bind].
    rewrite formatMessage_splice by lia. cbn [mbind outcome_bind].
    rewrite splice_full by (rewrite zlen_basicBytes; lia).
    destruct (returnBuffer_spec p (basicBytes o now level msg) ps1 s Hd Hv1) as (ps2 & HR & Hv2).
    unfold writeBack in *.
    destruct (deref (gheap ps1) p) as [s1| | |]; try discriminate.
    cbn [mbind outcome_bind] in *. rewrite HR. cbn [mbind outcome_bind].
    exists ps2. split; [reflexivity|exact Hv2].
Qed.

(** [UltimateLogger.log] hands the writer the 22-byte header, a length byte
    and the first 200 bytes of the message. *)
Lemma UltimateLogger_log_spec (o : ByteOrder) (now seq : Z) (level : byte)
  (msg : list byte) (ps : PoolState) :
  poolsValid ps ->
  exists ps',
    UltimateLogger_log o now seq level msg ps
    = Ret (ultimateBytes o now seq level msg, u64 (seq + 1), ps') /\
    poolsValid ps'.
Proof.
  intros Hv. unfold UltimateLogger_log. cbv zeta.
  change 200 with (Z.of_nat 200). rewrite (clamp_take 200 msg).
  set (m := take 200 msg).
  pose proof (zlen_nonneg m) as Hm.
  pose proof (slice_take 200 msg) as Hs. fold m in Hs.
  destruct (Z.leb_spec (23 + zlen m) 128) as [Hsm|Hl].
  - rewrite slice_Ret by (rewrite ?zlen_replicate; lia). cbn [mbind outcome_bind].
    set (buf := take _ _).
    assert (Hb : zlen buf = 23 + zlen m).
    { subst buf. change (Z.to_nat 0) with 0%nat. rewrite drop_0. unfold zlen. rewrite length_take, length_replicate.
      unfold zlen in *. lia. }
    rewrite (formatUltimateMessage_emit o now seq buf level msg m Hs) by lia.
    cbn [mbind outcome_bind].
    rewrite splice_full
      by (rewrite ?zlen_app, zlen_headerBytes, ?zlen_cons;
          change (zlen (@nil byte)) with 0; lia).
    exists ps. split; [reflexivity|exact Hv].
  - destruct (getBufferSlice_spec (23 + zlen m) ps) as (p & buf & ps1 & s & HG & Hb & Hd & Hv1);
      [lia|exact Hv|].
    rewrite HG. cbn [mbind outcome_bind].
    rewrite (formatUltimateMessage_emit o now seq buf level msg m Hs) by lia.
    cbn [mbind outcome_bind].
    rewrite splice_full
      by (rewrite ?zlen_app, zlen_headerBytes, ?zlen_cons;
          change (zlen (@nil byte)) with 0; lia).
    destruct (returnBuffer_spec p
                (headerBytes o now level (u64 (seq + 1)) ++ [byte.of_Z (zlen m)] ++ m)
                ps1 s Hd Hv1) as (ps2 & HR & Hv2).
    unfold writeBack in *.
    destruct (deref (gheap ps1) p) as [s1| | |]; try discriminate.
    cbn [mbind outcome_bind] in *. rewrite HR. cbn [mbind outcome_bind].
    exists ps2. split; [reflexivity|exact Hv2].
Qed.

(** [formatStructuredMessage] looks at the first 255 bytes of the message
    and at the first 255 fields only. *)
Lemma formatStructuredMessage_take (o : ByteOrder) (now seq : Z) (buf : list byte)
  (level : byte) (msg : list byte) (fields : list Field) :
  formatStructuredMessage o now seq buf level msg fields
  = formatStructuredMessage o now seq buf level (take 255 msg) (take 255 fields).
Proof.
  unfold formatStructuredMessage.
  destruct (writeBinaryHeader o now buf level (u64 (seq + 1))) as [[b n]| | |];
    try reflexivity.
  cbn [mbind outcome_bind]. cbv zeta.
  change 255 with (Z.of_nat 255).
  rewrite !(clamp_take 255).
  rewrite !take_take, !Nat.min_id.
  rewrite (slice_take 255 msg).
  rewrite (slice_all (take 255 msg)) by reflexivity.
  unfold zlen. rewrite !Nat2Z.id, !length_take.
  replace (Nat.min (Nat.min 255 (length fields)) 255) with (Nat.min 255 (length fields)) by lia.
  reflexivity.
Qed.

Lemma slice_splice_0 {A : Type} (buf w : list A) :
  zlen w <= zlen buf -> slice (splice buf 0 w) 0 (zlen w) = Ret w.
Proof.
  intros H. pose proof (zlen_nonneg w).
  rewrite slice_Ret by (rewrite ?zlen_splice; lia). f_equal.
  change (Z.to_nat 0) with 0%nat. rewrite drop_0. rewrite Z.sub_0_r. unfold zlen at 1. rewrite Nat2Z.id.
  now apply take_splice.
Qed.



(** ** The ring as a bounded queue *)

(** X1.  For a size from 1 to [2^62], [nextPowerOf2] returns the least
    power of two that is at least the size. *)
Theorem nextPowerOf2_least (n : Z) :
  1 <= n <= 2 ^ 62 ->
  exists k, 0 <= k <= 62 /\ nextPowerOf2 n = 2 ^ k /\ n <= 2 ^ k /\
            forall j, 0 <= j -> n <= 2 ^ j -> 2 ^ k <= 2 ^ j.
Proof.
  intros Hn. exists (Z.log2_up n). split; [now apply log2_up_bounds|].
  split; [now apply nextPowerOf2_log2_up|].
  split.
  - destruct (Z.eq_dec n 1) as [->|Hn1]; [vm_compute; discriminate|].
    apply Z.log2_up_spec. lia.
  - intros j Hj Hle. apply Z.pow_le_mono_r; [lia|].
    apply Z.log2_up_le_pow2; lia.
Qed.

Lemma nextPowerOf2_least_witness :
  exists k, 0 <= k <= 62 /\ nextPowerOf2 5 = 2 ^ k /\ 5 <= 2 ^ k /\
            forall j, 0 <= j -> 5 <= 2 ^ j -> 2 ^ k <= 2 ^ j.
Proof. apply (nextPowerOf2_least 5). vm_compute. split; discriminate. Defined.

Lemma ringTrace_repr {T : Type} (ops : list (RingOp T)) :
  forall (r : RingBuffer T) (c : Z) (l : list T),
    ring_repr r c l ->
    exists r', ringTrace ops r = Ret (fst (queueTrace c ops l), r') /\
               ring_repr r' c (snd (queueTrace c ops l)).
Proof.
  induction ops as [|op ops IH]; intros r c l Hr.
  - exists r. split; [reflexivity|exact Hr].
  - destruct op as [x|]; cbn [ringTrace queueTrace].
    + pose proof (Put_repr r c l x Hr) as HP.
      destruct (Z.eqb_spec (zlen l) (c - 1)) as [Hfull|Hroom].
      * rewrite decide_True in HP by exact Hfull. rewrite HP. cbn [mbind outcome_bind].
        destruct (IH r c l Hr) as (r' & Hrun & Hr').
        rewrite Hrun. cbn [mbind outcome_bind].
        destruct (queueTrace c ops l) as [rs q']. exists r'. split; [reflexivity|exact Hr'].
      * rewrite decide_False in HP by exact Hroom.
        destruct HP as (r1 & -> & Hr1). cbn [mbind outcome_bind].
        destruct (IH r1 c (l ++ [x]) Hr1) as (r' & Hrun & Hr').
        rewrite Hrun. cbn [mbind outcome_bind].
        destruct (queueTrace c ops (l ++ [x])) as [rs q']. exists r'.
        split; [reflexivity|exact Hr'].
    + pose proof (Get_repr r c l Hr) as HG.
      destruct l as [|x l0].
      * rewrite HG. cbn [mbind outcome_bind].
        destruct (IH r c [] Hr) as (r' & Hrun & Hr').
        rewrite Hrun. cbn [mbind outcome_bind].
        destruct (queueTrace c ops []) as [rs q']. exists r'. split; [reflexivity|exact Hr'].
      * destruct HG as (r1 & -> & Hr1). cbn [mbind outcome_bind].
        destruct (IH r1 c l0 Hr1) as (r' & Hrun & Hr').
        rewrite Hrun. cbn [mbind outcome_bind].
        destruct (queueTrace c ops l0) as [rs q']. exists r'. split; [reflexivity|exact Hr'].
Qed.



(** ** The asynchronous writer, run by one goroutine *)

Lemma Write_loop_room (fuel : nat) (n : Z) (entry : LogEntry) (aw : AsyncWriterV2)
  (c : Z) (l : list LogEntry) :
  ring_repr (rb aw) c l -> zlen l <> c - 1 ->
  exists r',
    Write_loop (S fuel) n entry aw
    = Ret ((n, None), {| rb := r'; writer := writer aw; done := done aw; pool := pool aw |}) /\
    ring_repr r' c (l ++ [entry]).
Proof.
  intros Hr Hroom. pose proof (Put_repr (rb aw) c l entry Hr) as HP.
  rewrite decide_False in HP by exact Hroom. destruct HP as (r' & HP & Hr').
  exists r'. cbn [Write_loop]. rewrite HP. cbn [mbind outcome_bind].
  split; [reflexivity|exact Hr'].
Qed.

Lemma Write_loop_full_open (fuel : nat) (n : Z) (entry : LogEntry) (aw : AsyncWriterV2)
  (c : Z) (e : LogEntry) (l : list LogEntry) :
  done aw = false -> ring_repr (rb aw) c (e :: l) -> zlen (e :: l) = c - 1 ->
  exists r',
    Write_loop (S (S fuel)) n entry aw
    = Ret ((n, None),
           {| rb := r'; writer := writer aw ++ [contents (data e)]; done := false;
              pool := resetEntry e :: pool aw |}) /\
    ring_repr r' c (l ++ [entry]).
Proof.
  intros Hd Hr Hfull. pose proof (Put_repr (rb aw) c (e :: l) entry Hr) as HP.
  rewrite decide_True in HP by exact Hfull.
  destruct (Get_repr (rb aw) c (e :: l) Hr) as (r1 & HG & Hr1).
  change (Write_loop (S (S fuel)) n entry aw) with
    ('(ok, r) ← RingBuffer_Put entry (rb aw);
     if ok : bool then
       Ret ((n, None), {| rb := r; writer := writer aw; done := done aw; pool := pool aw |})
     else if done aw then
       Ret ((0, Some ErrClosedPipe),
            {| rb := rb aw; writer := writer aw; done := done aw;
               pool := Pool_Put entry (pool aw) |})
     else
       '(got, r) ← RingBuffer_Get (rb aw);
       match got with
       | Some consumed =>
           Write_loop (S fuel) n entry
             {| rb := r; writer := writer aw ++ [contents (data consumed)];
                done := done aw; pool := Pool_Put (resetEntry consumed) (pool aw) |}
       | None =>
           Write_loop (S fuel) n entry
             {| rb := r; writer := writer aw; done := done aw; pool := pool aw |}
       end).
  rewrite HP. cbn [mbind outcome_bind]. rewrite Hd, HG. cbn [mbind outcome_bind].
  set (aw1 := {| rb := r1; writer := writer aw ++ [contents (data e)]; done := false;
                 pool := Pool_Put (resetEntry e) (pool aw) |}).
  destruct (Write_loop_room fuel n entry aw1 c l) as (r' & HW & Hr').
  - exact Hr1.
  - unfold zlen in *. cbn [length] in Hfull. lia.
  - exists r'. split; [exact HW|exact Hr'].
Qed.

Lemma Write_loop_capacity_one (fuel : nat) (n : Z) (entry : LogEntry) :
  forall aw : AsyncWriterV2,
    done aw = false -> ring_repr (rb aw) 1 [] ->
    Write_loop fuel n entry aw = OutOfFuel.
Proof.
  induction fuel as [|fuel IH]; intros aw Hd Hr; [reflexivity|].
  pose proof (Put_repr (rb aw) 1 [] entry Hr) as HP.
  rewrite decide_True in HP by reflexivity.
  pose proof (Get_repr (rb aw) 1 [] Hr) as HG. cbn beta iota in HG.
  cbn [Write_loop]. rewrite HP. cbn [mbind outcome_bind]. rewrite Hd, HG.
  cbn [mbind outcome_bind]. apply IH; [reflexivity|exact Hr].
Qed.

(** X3.  A writer made with [bufferSize] 1 has a ring of one slot, which
    never accepts an entry: unless the writer is closed, a [Write] keeps
    retrying and has not returned after any number of turns. *)
Theorem Write_capacity_one_never_returns (sink : list (list byte)) (fuel : nat)
  (b : list byte) :
  exists aw,
    NewAsyncWriterV2 sink 1 = Ret aw /\
    zlen (buffer (rb aw)) = 1 /\
    AsyncWriterV2_Write fuel b aw = OutOfFuel.
Proof.
  destruct (NewRingBuffer_repr (T := LogEntry) 1 ltac:(lia)) as (r & Hnew & Hr & _).
  change (2 ^ Z.log2_up 1) with 1 in Hr.
  exists {| rb := r; writer := sink; done := false; pool := [] |}.
  split; [unfold NewAsyncWriterV2; rewrite Hnew; reflexivity|].
  split; [destruct Hr as (_ & Hlen & _); exact Hlen|].
  destruct (Write_unfold fuel b {| rb := r; writer := sink; done := false; pool := [] |})
    as (entry & p & _ & ->).
  apply Write_loop_capacity_one; [reflexivity|exact Hr].
Qed.

(** X4.  Back pressure: when the ring is full and the writer is open, the
    goroutine that calls [Write] delivers the oldest entry to the sink
    itself, returns that entry to the pool truncated, and then queues its
    own entry. *)
Theorem Write_full_helps_consume (fuel : nat) (b : list byte) (aw : AsyncWriterV2)
  (c : Z) (e : LogEntry) (l : list LogEntry) :
  done aw = false ->
  ring_repr (rb aw) c (e :: l) ->
  zlen (e :: l) = c - 1 ->
  exists entry p r',
    contents (data entry) = b /\
    AsyncWriterV2_Write (S (S fuel)) b aw
    = Ret ((zlen b, None),
           {| rb := r'; writer := writer aw ++ [contents (data e)]; done := false;
              pool := resetEntry e :: p |}) /\
    ring_repr r' c (l ++ [entry]).
Proof.
  intros Hd Hr Hfull.
  destruct (Write_unfold (S (S fuel)) b aw) as (entry & p & Hc & HW).
  destruct (Write_loop_full_open fuel (zlen b) entry
              {| rb := rb aw; writer := writer aw; done := done aw; pool := p |}
              c e l Hd Hr Hfull) as (r' & HL & Hr').
  exists entry, p, r'. split; [exact Hc|]. split; [|exact Hr'].
  rewrite HW. exact HL.
Qed.

Lemma Write_full_helps_consume_witness :
  let e := {| data := {| arr := [x61]; len := 1 |} |} in
  let aw := mkAsyncWriter (mkRing 1 1 0 [Some e; None]) [] false [] in
  exists entry p r',
    contents (data entry) = [x62; x63] /\
    AsyncWriterV2_Write 2 [x62; x63] aw
    = Ret ((zlen [x62; x63], None),
           {| rb := r'; writer := writer aw ++ [contents (data e)]; done := false;
              pool := resetEntry e :: p |}) /\
    ring_repr r' 2 ([] ++ [entry]).
Proof.
  cbv zeta.
  apply (Write_full_helps_consume 0 [x62; x63]
           (mkAsyncWriter (mkRing 1 1 0 [Some {| data := {| arr := [x61]; len := 1 |} |}; None])
              [] false [])
           2 {| data := {| arr := [x61]; len := 1 |} |} []).
  - reflexivity.
  - split; [exists 1; split; [lia|reflexivity]|].
    split; [reflexivity|]. split; [reflexivity|].
    split; [vm_compute; split; [discriminate|reflexivity]|].
    split; [vm_compute; split; [discriminate|reflexivity]|].
    split; [reflexivity|].
    intros j Hj.
    assert (Hc : j = 0 \/ j = 1) by lia.
    destruct Hc as [-> | ->]; reflexivity.
  - reflexivity.
Defined.

Lemma worker_drain_repr (l : list LogEntry) :
  forall (fuel : nat) (aw : AsyncWriterV2) (c : Z),
    ring_repr (rb aw) c l -> (length l < fuel)%nat ->
    exists r',
      worker_drain fuel aw
      = Ret {| rb := r'; writer := writer aw ++ payloads l; done := done aw;
               pool := rev (map resetEntry l) ++ pool aw |} /\
      ring_repr r' c [].
Proof.
  induction l as [|e l IH]; intros fuel aw c Hr Hf.
  - destruct fuel as [|fuel]; [cbn in Hf; lia|].
    pose proof (Get_repr (rb aw) c [] Hr) as HG. cbn beta iota in HG.
    cbn [worker_drain]. rewrite HG. cbn [mbind outcome_bind].
    exists (rb aw). split; [|exact Hr].
    destruct aw as [r w d p]. cbn [rb writer done pool payloads map rev app].
    now rewrite app_nil_r.
  - destruct fuel as [|fuel]; [cbn in Hf; lia|].
    destruct (Get_repr (rb aw) c (e :: l) Hr) as (r1 & HG & Hr1).
    cbn [worker_drain]. rewrite HG. cbn [mbind outcome_bind].
    destruct (IH fuel (consume e aw r1) c Hr1 ltac:(cbn [length] in Hf; lia))
      as (r' & HW & Hr').
    exists r'. split; [|exact Hr'].
    rewrite HW. unfold consume, Pool_Put, payloads. cbn [rb writer done pool map rev].
    rewrite <- !app_assoc. reflexivity.
Qed.

(** X5.  After [Close], a worker writes the bytes of every queued entry to
    the sink, oldest first, returns the entries to the pool truncated and
    leaves the ring empty. *)
Theorem worker_drains_in_order (fuel : nat) (aw : AsyncWriterV2) (c : Z)
  (l : list LogEntry) :
  done aw = true ->
  ring_repr (rb aw) c l ->
  (length l < fuel)%nat ->
  exists aw',
    worker fuel aw = Ret aw' /\
    writer aw' = writer aw ++ payloads l /\
    pool aw' = rev (map resetEntry l) ++ pool aw /\
    ring_repr (rb aw') c [].
Proof.
  intros Hd Hr Hf. destruct fuel as [|fuel]; [lia|].
  destruct (worker_drain_repr l (S fuel) aw c Hr Hf) as (r' & HW & Hr').
  eexists. split.
  - change (worker (S fuel) aw) with
      (if done aw then worker_drain (S fuel) aw
       else '(got, r) ← RingBuffer_Get (rb aw);
            match got with
            | Some entry => worker fuel (consume entry aw r)
            | None => worker fuel aw
            end).
    rewrite Hd. exact HW.
  - cbn [writer pool rb]. split; [reflexivity|]. split; [reflexivity|exact Hr'].
Qed.

Lemma worker_drains_in_order_witness :
  let e1 := {| data := {| arr := [x61]; len := 1 |} |} in
  let e2 := {| data := {| arr := [x62; x63]; len := 2 |} |} in
  let aw := mkAsyncWriter (mkRing 3 2 0 [Some e1; Some e2; None; None]) [] true [] in
  exists aw',
    worker 3 aw = Ret aw' /\
    writer aw' = writer aw ++ payloads [e1; e2] /\
    pool aw' = rev (map resetEntry [e1; e2]) ++ pool aw /\
    ring_repr (rb aw') 4 [].
Proof.
  cbv zeta.
  apply (worker_drains_in_order 3
           (mkAsyncWriter
              (mkRing 3 2 0 [Some {| data := {| arr := [x61]; len := 1 |} |};
                             Some {| data := {| arr := [x62; x63]; len := 2 |} |}; None; None])
              [] true []) 4).
  - reflexivity.
  - split; [exists 2; split; [lia|reflexivity]|].
    split; [reflexivity|]. split; [reflexivity|].
    split; [vm_compute; split; [discriminate|reflexivity]|].
    split; [vm_compute; split; [discriminate|reflexivity]|].
    split; [reflexivity|].
    intros j Hj.
    assert (Hc : j = 0 \/ j = 1 \/ j = 2 \/ j = 3) by lia.
    destruct Hc as [-> | [-> | [-> | ->]]]; reflexivity.
  - cbn. lia.
Defined.

Lemma payloads_app (l k : list LogEntry) : payloads (l ++ k) = payloads l ++ payloads k.
Proof. unfold payloads. apply map_app. Qed.

Lemma writeAll_inv (bs : list (list byte)) :
  forall (aw : AsyncWriterV2) (c : Z) (l : list LogEntry),
    done aw = false -> ring_repr (rb aw) c l -> 2 <= c ->
    exists aw' l',
      writeAll 2 bs aw = Ret (map (fun b => (zlen b, None)) bs, aw') /\
      done aw' = false /\
      ring_repr (rb aw') c l' /\
      writer aw' ++ payloads l' = (writer aw ++ payloads l) ++ bs.
Proof.
  induction bs as [|b bs IH]; intros aw c l Hd Hr Hc.
  - exists aw, l. split; [reflexivity|]. split; [exact Hd|]. split; [exact Hr|].
    now rewrite app_nil_r.
  - cbn [writeAll map].
    destruct (Write_unfold 2 b aw) as (entry & p & Hcont & HW). rewrite HW.
    set (aw0 := {| rb := rb aw; writer := writer aw; done := done aw; pool := p |}).
    destruct (decide (zlen l = c - 1)) as [Hfull|Hroom].
    + destruct l as [|e l0]; [unfold zlen in Hfull; cbn [length] in Hfull; lia|].
      destruct (Write_loop_full_open 0 (zlen b) entry aw0 c e l0 Hd Hr Hfull)
        as (r' & HL & Hr').
      rewrite HL. cbn [mbind outcome_bind].
      set (aw1 := {| rb := r'; writer := writer aw0 ++ [contents (data e)]; done := false;
                     pool := resetEntry e :: pool aw0 |}).
      destruct (IH aw1 c (l0 ++ [entry]) eq_refl Hr' Hc) as (aw' & l' & HA & Hd' & Hr2 & Hw).
      rewrite HA. cbn [mbind outcome_bind].
      exists aw', l'. split; [reflexivity|]. split; [exact Hd'|]. split; [exact Hr2|].
      rewrite Hw. subst aw1 aw0. cbn [writer].
      rewrite payloads_app. unfold payloads at 2 3. cbn [map]. rewrite Hcont.
      rewrite <- !app_assoc. reflexivity.
    + destruct (Write_loop_room 1 (zlen b) entry aw0 c l Hr Hroom) as (r' & HL & Hr').
      rewrite HL. cbn [mbind outcome_bind].
      set (aw1 := {| rb := r'; writer := writer aw0; done := done aw0; pool := pool aw0 |}).
      destruct (IH aw1 c (l ++ [entry]) Hd Hr' Hc) as (aw' & l' & HA & Hd' & Hr2 & Hw).
      rewrite HA. cbn [mbind outcome_bind].
      exists aw', l'. split; [reflexivity|]. split; [exact Hd'|]. split; [exact Hr2|].
      rewrite Hw. subst aw1 aw0. cbn [writer].
      rewrite payloads_app. unfold payloads at 2. cbn [map]. rewrite Hcont.
      rewrite <- !app_assoc. reflexivity.
Qed.

(** X6.  Nothing is lost and nothing is reordered: on a writer made for a
    size from 2 to [2^62], any number of [Write]s by one goroutine all
    return their length and no error, and after [Close] a worker leaves in
    the sink exactly the byte strings written, in the order they were
    written. *)
Theorem async_writer_delivers_in_order (R : Z) (bs : list (list byte)) :
  2 <= R <= 2 ^ 62 ->
  exists aw0 aw1 aw2,
    NewAsyncWriterV2 [] R = Ret aw0 /\
    writeAll 2 bs aw0 = Ret (map (fun b => (zlen b, None)) bs, aw1) /\
    worker (Z.to_nat (2 ^ Z.log2_up R)) (AsyncWriterV2_Close aw1) = Ret aw2 /\
    writer aw2 = bs.
Proof.
  intros HR.
  destruct (NewRingBuffer_repr (T := LogEntry) R ltac:(lia)) as (r & Hnew & Hr & _).
  set (c := 2 ^ Z.log2_up R) in *.
  assert (Hc : 2 <= c).
  { subst c. destruct (Z.log2_up_spec R ltac:(lia)) as [_ Hhi]. lia. }
  set (aw0 := {| rb := r; writer := []; done := false; pool := [] |}).
  destruct (writeAll_inv bs aw0 c [] eq_refl Hr Hc) as (aw1 & l & HA & Hd & Hr1 & Hw).
  pose proof (ring_repr_length _ _ _ Hr1) as Hlen.
  destruct (worker_drains_in_order (Z.to_nat c) (AsyncWriterV2_Close aw1) c l)
    as (aw2 & HWk & Hsink & _).
  - reflexivity.
  - exact Hr1.
  - unfold zlen in Hlen. lia.
  - exists aw0, aw1, aw2.
    split; [unfold NewAsyncWriterV2; rewrite Hnew; reflexivity|].
    split; [exact HA|]. split; [exact HWk|].
    rewrite Hsink. cbn [AsyncWriterV2_Close writer]. exact Hw.
Qed.

Lemma async_writer_delivers_in_order_witness :
  let bs := [[x61]; [x62; x63]; []; [x64]; [x65]] in
  exists aw0 aw1 aw2,
    NewAsyncWriterV2 [] 3 = Ret aw0 /\
    writeAll 2 bs aw0 = Ret (map (fun b => (zlen b, None)) bs, aw1) /\
    worker (Z.to_nat (2 ^ Z.log2_up 3)) (AsyncWriterV2_Close aw1) = Ret aw2 /\
    writer aw2 = bs.
Proof.
  cbv zeta. apply (async_writer_delivers_in_order 3). vm_compute. split; discriminate.
Defined.


(** ** The buffer pool, for every size *)

(** X7.  Whatever its argument, [leadingZeros64] returns a number between
    464 and 512, never the number of leading zero bits, which is at most
    64. *)
Theorem leadingZeros64_out_of_range (x : Z) :
  0 <= x < 2 ^ 64 ->
  464 <= leadingZeros64 x <= 512 /\ 64 - leadingZeros64 x - 6 < 0.
Proof.
  intros Hx. pose proof (leadingZeros64_range x Hx) as H.
  revert H. generalize (leadingZeros64 x) as z. intros z H. lia.
Qed.

Lemma leadingZeros64_out_of_range_witness :
  464 <= leadingZeros64 1 <= 512 /\ 64 - leadingZeros64 1 - 6 < 0.
Proof. apply (leadingZeros64_out_of_range 1). vm_compute. split; [discriminate|reflexivity]. Defined.

(** X8.  [BufferPool.Put] never stores a buffer: for every pool and every
    buffer it only truncates the buffer and leaves each class pool as it
    was.  A nil pointer makes it panic. *)
Theorem BufferPool_Put_never_pools (p : ptr) (bp : BufferPool) (h : Heap) :
  match h !! p with
  | Some s => BufferPool_Put p bp h = Ret (bp, <[p := reslice s 0]> h)
  | None => BufferPool_Put p bp h = Panic
  end.
Proof.
  destruct (h !! p) as [s|] eqn:E.
  - now apply BufferPool_Put_spec.
  - unfold BufferPool_Put, deref. rewrite E. reflexivity.
Qed.

(** X9.  On the pool as [NewBufferPool] makes it, and so at any later time
    since [Put] never changes it, every [Get] allocates: the buffer is a new
    one of capacity 64 or the size asked for, whichever is larger, and the
    pool is as before. *)
Theorem BufferPool_Get_always_allocates (size : Z) (h : Heap) :
  BufferPool_Get size NewBufferPool h
  = Ret (length h, NewBufferPool, h ++ [make0 (Z.max 64 size)]).
Proof.
  unfold BufferPool_Get. rewrite sizeClass_zero. cbn [Z.geb Z.compare].
  change (poolAt NewBufferPool 0) with (@nil nat).
  change (setPoolAt NewBufferPool 0 []) with NewBufferPool.
  cbn [Pool_Get alloc]. unfold deref.
  rewrite lookup_app_r, Nat.sub_diag by lia. cbn [lookup list_lookup mbind outcome_bind].
  change (cap (make0 (classSize 0))) with 64.
  set (sz := if size <=? 0 then 64 else size).
  assert (Hsz : Z.max 64 size = Z.max 64 sz)
    by (subst sz; destruct (Z.leb_spec size 0); lia).
  rewrite Hsz.
  destruct (Z.ltb_spec 64 sz) as [Hbig|Hsmall].
  - f_equal. f_equal. rewrite Z.max_r by lia.
    rewrite insert_app_r_alt, Nat.sub_diag by lia. reflexivity.
  - rewrite Z.max_l by lia. reflexivity.
Qed.

(** X10.  Whatever the pool holds, [BufferPool.Get] returns a buffer whose
    capacity is at least the size asked for (at least 64 when the size is not
    positive), and every pointer kept in the pool stays valid. *)
Theorem BufferPool_Get_capacity (size : Z) (ps : PoolState) :
  poolsValid ps ->
  exists p bp h s,
    BufferPool_Get size (gpool ps) (gheap ps) = Ret (p, bp, h) /\
    h !! p = Some s /\
    size <= cap s /\
    (size <= 0 -> 64 <= cap s) /\
    poolsValid {| gpool := bp; gheap := h |}.
Proof.
  intros Hv.
  destruct (BufferPool_Get_spec size ps Hv) as (p & bp & h & s & HG & Hd & Hc & Hv' & _).
  exists p, bp, h, s. split; [exact HG|].
  unfold deref in Hd. destruct (h !! p) as [s'|] eqn:E; [|discriminate].
  injection Hd as ->. split; [reflexivity|].
  split; [destruct (Z.leb_spec size 0); lia|].
  split; [destruct (Z.leb_spec size 0); lia|exact Hv'].
Qed.

Lemma BufferPool_Get_capacity_witness :
  let ps := {| gpool := {| pools := [[0%nat]] |}; gheap := [make0 64] |} in
  exists p bp h s,
    BufferPool_Get 100 (gpool ps) (gheap ps) = Ret (p, bp, h) /\
    h !! p = Some s /\
    100 <= cap s /\
    (100 <= 0 -> 64 <= cap s) /\
    poolsValid {| gpool := bp; gheap := h |}.
Proof.
  cbv zeta.
  apply (BufferPool_Get_capacity 100 {| gpool := {| pools := [[0%nat]] |}; gheap := [make0 64] |}).
  unfold poolsValid. cbn. repeat constructor.
Defined.

(** ** The compatibility ring buffer *)

Lemma land_pow2_pred (k : Z) : 0 <= k -> Z.land (2 ^ k) (2 ^ k - 1) = 0.
Proof.
  intros Hk. replace (2 ^ k - 1) with (Z.ones k) by (rewrite Z.ones_equiv; lia).
  rewrite Z.land_ones by lia. apply Z.mod_same. apply Z.pow_nonzero; lia.
Qed.

Lemma land_pred_nonzero (n : Z) : 1 <= n -> n <> 2 ^ Z.log2 n -> Z.land n (n - 1) <> 0.
Proof.
  intros Hn Hne Hz.
  destruct (Z.log2_spec n ltac:(lia)) as [Hlo Hhi].
  pose proof (Z.log2_nonneg n) as Hk.
  assert (Hpred : Z.log2 (n - 1) = Z.log2 n) by (apply Z.log2_unique; lia).
  assert (Hb1 : Z.testbit n (Z.log2 n) = true) by (apply Z.bit_log2; lia).
  assert (Hb2 : Z.testbit (n - 1) (Z.log2 n) = true)
    by (rewrite <- Hpred; apply Z.bit_log2; lia).
  assert (Hb : Z.testbit (Z.land n (n - 1)) (Z.log2 n) = true)
    by (rewrite Z.land_spec, Hb1, Hb2; reflexivity).
  rewrite Hz, Z.bits_0 in Hb. discriminate.
Qed.

(** X11.  [NewCompatRingBuffer] accepts exactly the powers of two: for a
    size from 1 to [2^62] it returns an empty ring of that capacity when the
    size is a power of two and panics otherwise. *)
Theorem NewCompatRingBuffer_power_of_two (size : Z) :
  1 <= size <= 2 ^ 62 ->
  if size =? 2 ^ Z.log2 size
  then exists orb,
         NewCompatRingBuffer size = Ret orb /\
         ring_repr (orb_rb orb) size [] /\ orb_pool orb = []
  else NewCompatRingBuffer size = Panic.
Proof.
  intros Hs. assert (H63 : 2 ^ 62 < 2 ^ 63) by reflexivity.
  unfold NewCompatRingBuffer. rewrite (i64_small (size - 1)) by lia.
  destruct (Z.eqb_spec size (2 ^ Z.log2 size)) as [Hp|Hnp].
  - pose proof (Z.log2_nonneg size) as Hk.
    replace (Z.land size (size - 1)) with 0
      by (rewrite Hp; symmetry; apply land_pow2_pred; exact Hk).
    cbn [Z.eqb negb].
    destruct (NewRingBuffer_repr (T := LogEntry) size Hs) as (r & Hnew & Hr & _).
    rewrite Hnew. cbn [mbind outcome_bind].
    eexists. split; [reflexivity|]. cbn [orb_rb orb_pool]. split; [|reflexivity].
    assert (Hup : Z.log2_up size = Z.log2 size).
    { transitivity (Z.log2_up (2 ^ Z.log2 size));
        [f_equal; exact Hp|apply Z.log2_up_pow2; exact Hk]. }
    rewrite Hup, <- Hp in Hr. exact Hr.
  - pose proof (land_pred_nonzero size ltac:(lia) Hnp) as Hl.
    destruct (Z.eqb_spec (Z.land size (size - 1)) 0) as [Hz|_]; [contradiction|].
    reflexivity.
Qed.

Lemma NewCompatRingBuffer_power_of_two_witness :
  if 8 =? 2 ^ Z.log2 8
  then exists orb,
         NewCompatRingBuffer 8 = Ret orb /\
         ring_repr (orb_rb orb) 8 [] /\ orb_pool orb = []
  else NewCompatRingBuffer 8 = Panic.
Proof. apply (NewCompatRingBuffer_power_of_two 8). vm_compute. split; discriminate. Defined.

(** X12.  The compatibility ring is a queue of byte strings.  On a ring
    that holds the entries [l], [Put] appends a copy of its argument and
    returns true unless the ring is full, when it returns false and changes
    nothing; [Get] returns the bytes of the oldest entry and removes it, or
    nothing when the ring is empty. *)
Theorem OldRingBuffer_queue_step (orb : OldRingBuffer) (c : Z) (l : list LogEntry)
  (d : list byte) :
  ring_repr (orb_rb orb) c l ->
  (exists orb' l',
     OldRingBuffer_Put d orb = Ret (negb (zlen l =? c - 1), orb') /\
     ring_repr (orb_rb orb') c l' /\
     payloads l' = if zlen l =? c - 1 then payloads l else payloads l ++ [d]) /\
  (exists orb' l',
     OldRingBuffer_Get orb = Ret (hd_error (payloads l), orb') /\
     ring_repr (orb_rb orb') c l' /\
     payloads l' = tl (payloads l)).
Proof.
  intros Hr. split.
  - unfold OldRingBuffer_Put, Pool_Get, newLogEntry.
    set (e0 := match orb_pool orb with
               | [] => {| data := {| arr := []; len := 0 |} |}
               | x :: _ => x
               end).
    set (p0 := match orb_pool orb with [] => [] | _ :: p' => p' end).
    assert (Hsel : (let '(entry, p, _) :=
                      match orb_pool orb with
                      | [] => let '(x, s') := ({| data := {| arr := []; len := 0 |} |}, tt)
                              in (x, [], s')
                      | x :: p' => (x, p', tt)
                      end in
                    let entry := fillEntry entry d in
                    '(ok, r) ← RingBuffer_Put entry (orb_rb orb);
                    Ret (ok, {| orb_rb := r; orb_pool := p |}))
                   = ('(ok, r) ← RingBuffer_Put (fillEntry e0 d) (orb_rb orb);
                      Ret (ok, {| orb_rb := r; orb_pool := p0 |})))
      by (subst e0 p0; destruct (orb_pool orb); reflexivity).
    cbv zeta in Hsel. cbv zeta. rewrite Hsel. clear Hsel.
    pose proof (Put_repr (orb_rb orb) c l (fillEntry e0 d) Hr) as HP.
    destruct (Z.eqb_spec (zlen l) (c - 1)) as [Hfull|Hroom].
    + rewrite decide_True in HP by exact Hfull. rewrite HP. cbn [mbind outcome_bind negb].
      eexists _, l. split; [reflexivity|]. split; [exact Hr|reflexivity].
    + rewrite decide_False in HP by exact Hroom. destruct HP as (r' & -> & Hr').
      cbn [mbind outcome_bind negb].
      eexists _, _. split; [reflexivity|]. split; [exact Hr'|].
      rewrite payloads_app. unfold payloads at 2. cbn [map].
      now rewrite contents_fillEntry.
  - unfold OldRingBuffer_Get.
    pose proof (Get_repr (orb_rb orb) c l Hr) as HG.
    destruct l as [|e l0].
    + rewrite HG. cbn [mbind outcome_bind].
      eexists _, []. split; [reflexivity|]. split; [exact Hr|reflexivity].
    + destruct HG as (r' & -> & Hr'). cbn [mbind outcome_bind].
      eexists _, l0. split; [reflexivity|]. split; [exact Hr'|reflexivity].
Qed.

Lemma OldRingBuffer_queue_step_witness :
  let e := {| data := {| arr := [x61]; len := 1 |} |} in
  let orb := mkOldRing (mkRing 3 1 0 [Some e; None; None; None]) [] in
  (exists orb' l',
     OldRingBuffer_Put [x62] orb = Ret (negb (zlen [e] =? 4 - 1), orb') /\
     ring_repr (orb_rb orb') 4 l' /\
     payloads l' = if zlen [e] =? 4 - 1 then payloads [e] else payloads [e] ++ [[x62]]) /\
  (exists orb' l',
     OldRingBuffer_Get orb = Ret (hd_error (payloads [e]), orb') /\
     ring_repr (orb_rb orb') 4 l' /\
     payloads l' = tl (payloads [e])).
Proof.
  cbv zeta.
  apply (OldRingBuffer_queue_step
           (mkOldRing (mkRing 3 1 0 [Some {| data := {| arr := [x61]; len := 1 |} |};
                                     None; None; None]) [])
           4 [{| data := {| arr := [x61]; len := 1 |} |}] [x62]).
  split; [exists 2; split; [lia|reflexivity]|].
  split; [reflexivity|]. split; [reflexivity|].
  split; [vm_compute; split; [discriminate|reflexivity]|].
  split; [vm_compute; split; [discriminate|reflexivity]|].
  split; [reflexivity|].
  intros j Hj.
  assert (Hc : j = 0 \/ j = 1 \/ j = 2 \/ j = 3) by lia.
  destruct Hc as [-> | [-> | [-> | ->]]]; reflexivity.
Defined.


(** ** The encoder stays inside its buffer *)

Lemma store_len {A : Type} (b : list A) (i : Z) (v : A) :
  0 <= i < zlen b -> exists b', store b i v = Ret b' /\ zlen b' = zlen b.
Proof.
  intros H. unfold store. rewrite decide_True by lia. eexists. split; [reflexivity|].
  unfold zlen. now rewrite length_insert.
Qed.

Lemma copy_at_len {A : Type} (b : list A) (pos : Z) (src : list A) :
  0 <= pos <= zlen b -> exists b', copy_at b pos src = Ret b' /\ zlen b' = zlen b.
Proof.
  intros H. unfold copy_at. rewrite decide_True by lia. eexists. split; [reflexivity|].
  cbv zeta. unfold zlen in *. rewrite !length_app, !length_take, length_drop. lia.
Qed.

Lemma storeBE_len (w : nat) (b : list byte) (pos v : Z) :
  0 <= pos -> pos + Z.of_nat w <= zlen b ->
  exists b', storeBE w b pos v = Ret b' /\ zlen b' = zlen b.
Proof.
  intros Hp Hl. rewrite storeBE_splice by lia. eexists. split; [reflexivity|].
  apply zlen_splice; [lia|]. rewrite zlen_beBytes. lia.
Qed.

Lemma encodeLenPrefixed_total (buf : list byte) (pos n : Z) (payload : option (list byte)) :
  0 <= pos -> pos + 2 <= zlen buf ->
  (forall src, payload = Some src -> n <= zlen src) ->
  exists buf' pos',
    encodeLenPrefixed buf pos n payload = Ret (buf', pos') /\
    zlen buf' = zlen buf /\ pos + 2 <= pos' <= zlen buf.
Proof.
  intros Hp Hl Hsrc. unfold encodeLenPrefixed.
  set (n1 := if n >? zlen buf - pos - 2 then zlen buf - pos - 2 else n).
  set (n2 := if n1 >? 65535 then 65535 else n1).
  assert (Hn2 : n2 <= n /\ n2 <= zlen buf - pos - 2).
  { subst n2 n1. rewrite !Z.gtb_ltb.
    destruct (Z.ltb_spec (zlen buf - pos - 2) n);
      destruct (Z.ltb_spec 65535 (zlen buf - pos - 2));
      destruct (Z.ltb_spec 65535 n); lia. }
  clearbody n2. clear n1.
  destruct (store_len buf pos (byte.of_Z (n2 ≫ 8))) as (b1 & -> & Hb1); [lia|].
  cbn [mbind outcome_bind].
  destruct (store_len b1 (pos + 1) (byte.of_Z n2)) as (b2 & -> & Hb2); [lia|].
  cbn [mbind outcome_bind].
  destruct payload as [src|].
  - destruct (Z.ltb_spec 0 n2) as [Hpos|Hz].
    + specialize (Hsrc src eq_refl).
      rewrite slice_Ret by lia. cbn [mbind outcome_bind].
      set (d := take _ _).
      assert (Hd : zlen d = n2).
      { subst d. change (Z.to_nat 0) with 0%nat. rewrite drop_0.
        unfold zlen in *. rewrite length_take. lia. }
      destruct (copy_at_len b2 (pos + 2) d) as (b3 & -> & Hb3); [lia|].
      cbn [mbind outcome_bind]. eexists _, _. split; [reflexivity|]. lia.
    + eexists _, _. split; [reflexivity|]. lia.
  - eexists _, _. split; [reflexivity|]. lia.
Qed.

(** [encodeField] returns for every buffer and leaves its length as it
    was; the count it returns is at most that length. *)
Lemma encodeField_inside (o : ByteOrder) (buf : list byte) (f : Field) :
  ptrValid f ->
  exists buf' n,
    encodeField o buf f = Ret (buf', n) /\
    zlen buf' = zlen buf /\ 0 <= n <= zlen buf.
Proof.
  intros Hptr. pose proof (zlen_nonneg buf) as Hb0. pose proof (zlen_nonneg (Key f)) as Hk0.
  unfold encodeField.
  destruct (Z.ltb_spec (zlen buf) 10) as [Hshort|H10].
  { eexists _, _. split; [reflexivity|]. lia. }
  cbv zeta.
  set (k1 := if zlen (Key f) >? 255 then 255 else zlen (Key f)).
  set (k := if k1 >? zlen buf - 0 - 2 then zlen buf - 0 - 2 else k1).
  assert (Hk : 0 <= k <= zlen (Key f) /\ k <= zlen buf - 2).
  { subst k k1. rewrite !Z.gtb_ltb.
    destruct (Z.ltb_spec 255 (zlen (Key f)));
      destruct (Z.ltb_spec (zlen buf - 0 - 2) 255);
      destruct (Z.ltb_spec (zlen buf - 0 - 2) (zlen (Key f))); lia. }
  clearbody k. clear k1.
  replace (k <? 0) with false by (symmetry; apply Z.ltb_ge; lia).
  destruct (store_len buf 0 (byte.of_Z k)) as (b1 & -> & Hb1); [lia|].
  cbn [mbind outcome_bind].
  rewrite slice_Ret by lia. cbn [mbind outcome_bind].
  destruct (copy_at_len b1 (0 + 1) (take (Z.to_nat (k - 0)) (drop (Z.to_nat 0) (Key f))))
    as (b2 & -> & Hb2); [lia|].
  cbn [mbind outcome_bind].
  destruct (store_len b2 (0 + 1 + k) (Typ f)) as (b3 & -> & Hb3); [lia|].
  cbn [mbind outcome_bind].
  assert (Hfixed : forall w : nat, (w <= 8)%nat ->
            forall v, exists buf' n,
              (if zlen b3 - (0 + 1 + k + 1) <? Z.of_nat w then Ret (b3, 0 + 1 + k + 1)
               else b ← storeBE w b3 (0 + 1 + k + 1) v; Ret (b, 0 + 1 + k + 1 + Z.of_nat w))
              = Ret (buf', n) /\ zlen buf' = zlen buf /\ 0 <= n <= zlen buf).
  { intros w Hw v. destruct (Z.ltb_spec (zlen b3 - (0 + 1 + k + 1)) (Z.of_nat w)).
    - eexists _, _. split; [reflexivity|]. lia.
    - destruct (storeBE_len w b3 (0 + 1 + k + 1) v) as (b4 & -> & Hb4); [lia|lia|].
      cbn [mbind outcome_bind]. eexists _, _. split; [reflexivity|]. lia. }
  assert (Hvar : forall n payload,
            (forall src, payload = Some src -> n <= zlen src) ->
            exists buf' m,
              (if zlen b3 - (0 + 1 + k + 1) <? 2 then Ret (b3, 0 + 1 + k + 1)
               else encodeLenPrefixed b3 (0 + 1 + k + 1) n payload)
              = Ret (buf', m) /\ zlen buf' = zlen buf /\ 0 <= m <= zlen buf).
  { intros n payload Hsrc. destruct (Z.ltb_spec (zlen b3 - (0 + 1 + k + 1)) 2).
    - eexists _, _. split; [reflexivity|]. lia.
    - destruct (encodeLenPrefixed_total b3 (0 + 1 + k + 1) n payload) as (b4 & m & -> & Hb4 & Hm);
        [lia|lia|exact Hsrc|].
      eexists _, _. split; [reflexivity|]. lia. }
  assert (Hother : exists buf' n,
            Ret (b3, 0 + 1 + k + 1) = Ret (buf', n) /\ zlen buf' = zlen buf /\ 0 <= n <= zlen buf).
  { eexists _, _. split; [reflexivity|]. lia. }
  destruct (Typ f) eqn:Ety; try exact Hother;
    try exact (Hfixed 8%nat ltac:(lia) (num f)).
  - exact (Hfixed 4%nat ltac:(lia) (float32Word o (num f))).
  - apply Hvar. intros src [= <-]. lia.
  - apply Hvar. intros src Hsrc. exact (Hptr Ety src Hsrc).
Qed.

(** X13.  [encodeField] is safe on every buffer: whatever the field and
    however short the buffer, it returns, having written only inside the
    buffer, and the count it returns is at most the buffer's length.  Only a
    Bytes field whose pointer has fewer bytes behind it than the field
    announces is excluded. *)
Theorem encodeField_total (o : ByteOrder) (buf : list byte) (f : Field) :
  ptrValid f ->
  exists buf' n,
    encodeField o buf f = Ret (buf', n) /\
    length buf' = length buf /\ 0 <= n <= zlen buf.
Proof.
  intros Hptr. destruct (encodeField_inside o buf f Hptr) as (buf' & n & HE & Hlen & Hn).
  exists buf', n. split; [exact HE|]. split; [|exact Hn].
  unfold zlen in Hlen. lia.
Qed.

Lemma encodeField_total_witness :
  exists buf' n,
    encodeField LittleEndian (replicate 12 x00) (String [x6b; x65; x79] (replicate 40 x61))
    = Ret (buf', n) /\
    length buf' = length (replicate 12 x00) /\ 0 <= n <= zlen (replicate 12 x00).
Proof.
  apply (encodeField_total LittleEndian (replicate 12 x00)
           (String [x6b; x65; x79] (replicate 40 x61))).
  unfold ptrValid. cbn. discriminate.
Defined.


(** ** The structured logger never leaves its buffer *)

Lemma encodeFields_inside (o : ByteOrder) (fs : list Field) :
  Forall ptrValid fs ->
  forall (buf : list byte) (pos : Z),
    0 <= pos <= zlen buf ->
    exists buf' pos',
      encodeFields o fs buf pos = Ret (buf', pos') /\
      zlen buf' = zlen buf /\ pos <= pos' <= zlen buf /\
      take (Z.to_nat pos) buf' = take (Z.to_nat pos) buf.
Proof.
  induction 1 as [|f fs Hf Hfs IH]; intros buf pos Hp.
  - eexists _, _. split; [reflexivity|]. split; [reflexivity|]. split; [lia|reflexivity].
  - cbn [encodeFields]. destruct (Z.ltb_spec pos (zlen buf - 64)) as [Hroom|Hstop].
    + rewrite slice_Ret by lia. cbn [mbind outcome_bind].
      set (sub := take (Z.to_nat (zlen buf - pos)) (drop (Z.to_nat pos) buf)).
      assert (Hsub : zlen sub = zlen buf - pos).
      { subst sub. unfold zlen in *. rewrite length_take, length_drop. lia. }
      destruct (encodeField_inside o sub f Hf) as (sub' & n & -> & Hs' & Hn).
      cbn [mbind outcome_bind].
      set (buf1 := take (Z.to_nat pos) buf ++ sub').
      assert (Hb1 : zlen buf1 = zlen buf).
      { subst buf1. rewrite zlen_app. unfold zlen in *. rewrite length_take. lia. }
      destruct (IH buf1 (pos + n)) as (buf' & pos' & -> & Hb' & Hp' & Htk); [lia|].
      eexists _, _. split; [reflexivity|]. split; [lia|]. split; [lia|].
      assert (H1 : take (Z.to_nat pos) buf'
                   = take (Z.to_nat pos) (take (Z.to_nat (pos + n)) buf'))
        by (rewrite take_take; f_equal; lia).
      rewrite H1, Htk, take_take.
      replace (Nat.min (Z.to_nat pos) (Z.to_nat (pos + n))) with (Z.to_nat pos) by lia.
      apply take_app_length'. rewrite length_take. unfold zlen in *. lia.
    + eexists _, _. split; [reflexivity|]. split; [reflexivity|]. split; [lia|reflexivity].
Qed.

Lemma formatStructuredMessage_inside (o : ByteOrder) (now seq : Z) (buf : list byte)
  (level : byte) (msg : list byte) (fields : list Field) :
  Forall ptrValid fields ->
  24 + zlen (take 255 msg) <= zlen buf ->
  exists buf' n,
    formatStructuredMessage o now seq buf level msg fields = Ret (buf', n, u64 (seq + 1)) /\
    zlen buf' = zlen buf /\
    24 + zlen (take 255 msg) <= n <= zlen buf /\
    take (Z.to_nat (24 + zlen (take 255 msg))) buf'
    = headerBytes o now level (u64 (seq + 1)) ++ [byte.of_Z (zlen (take 255 msg))] ++
      take 255 msg ++ [byte.of_Z (zlen (take 255 fields))].
Proof.
  intros Hptr Hfit. pose proof (zlen_nonneg (take 255 msg)) as Hm0.
  unfold formatStructuredMessage.
  rewrite writeBinaryHeader_splice by lia. cbn [mbind outcome_bind]. cbv zeta.
  change 255 with (Z.of_nat 255). rewrite !(clamp_take 255).
  set (m := take 255 msg) in *.
  rewrite (store_emit buf) by (rewrite zlen_headerBytes; lia).
  cbn [mbind outcome_bind].
  pose proof (slice_take 255 msg) as Hsl. fold m in Hsl. rewrite Hsl.
  cbn [mbind outcome_bind].
  rewrite (copy_emit buf)
    by (rewrite ?zlen_app, ?zlen_headerBytes, ?zlen_cons; change (zlen (@nil byte)) with 0; lia).
  cbn [mbind outcome_bind].
  rewrite (store_emit buf)
    by (rewrite ?zlen_app, ?zlen_headerBytes, ?zlen_cons; change (zlen (@nil byte)) with 0; lia).
  cbn [mbind outcome_bind].
  set (w := ((headerBytes o now level (u64 (seq + 1)) ++ [byte.of_Z (zlen m)]) ++ m)
            ++ [byte.of_Z (zlen (take 255 fields))]).
  assert (Hw : zlen w = 24 + zlen m).
  { subst w. rewrite !zlen_app, zlen_headerBytes, !zlen_cons.
    change (zlen (@nil byte)) with 0. lia. }
  assert (Hfs : take (Z.to_nat (zlen (take 255 fields))) fields = take 255 fields).
  { unfold zlen. rewrite Nat2Z.id, length_take.
    destruct (Nat.le_ge_cases 255 (length fields)).
    - now rewrite Nat.min_l.
    - rewrite Nat.min_r by lia. now rewrite !take_ge by lia. }
  rewrite Hfs.
  destruct (encodeFields_inside o (take 255 fields) (Forall_take _ _ _ Hptr)
              (splice buf 0 w) (0 + 22 + 1 + zlen m + 1))
    as (buf' & pos' & -> & Hb' & Hp' & Htk).
  { rewrite zlen_splice by lia. lia. }
  cbn [mbind outcome_bind]. rewrite zlen_splice in * by lia.
  eexists _, _. split; [reflexivity|]. split; [exact Hb'|]. split; [lia|].
  replace (0 + 22 + 1 + zlen m + 1) with (24 + zlen m) in Htk by lia.
  rewrite Htk. replace (Z.to_nat (24 + zlen m)) with (length w) by (rewrite <- Hw; unfold zlen; lia).
  rewrite take_splice by lia. subst w. rewrite <- !app_assoc. reflexivity.
Qed.

Lemma estimate_ge (fields : list Field) :
  forall init : Z,
    init <= fold_left (fun acc f => acc + (2 + zlen (Key f) + 16)) fields init.
Proof.
  induction fields as [|f fs IH]; intros init; cbn [fold_left]; [lia|].
  pose proof (zlen_nonneg (Key f)). specialize (IH (init + (2 + zlen (Key f) + 16))). lia.
Qed.

(** X14.  [StructuredLogger.logFields] never panics.  For every message
    and every list of fields it hands the writer a record that begins with
    the 22-byte header, the length byte, the message cut at 255 bytes and
    the count byte; the sequence counter goes up by one and the pool stays
    valid. *)
Theorem logFields_total (o : ByteOrder) (now seq : Z) (level : byte) (msg : list byte)
  (fields : list Field) (ps : PoolState) :
  poolsValid ps ->
  Forall ptrValid fields ->
  exists out ps',
    logFields o now seq level msg fields ps = Ret (out, u64 (seq + 1), ps') /\
    poolsValid ps' /\
    take (Z.to_nat (24 + zlen (take 255 msg))) out
    = headerBytes o now level (u64 (seq + 1)) ++ [byte.of_Z (zlen (take 255 msg))] ++
      take 255 msg ++ [byte.of_Z (zlen (take 255 fields))].
Proof.
  intros Hv Hptr. pose proof (zlen_nonneg (take 255 msg)) as Hm0.
  unfold logFields. cbv zeta.
  change 255 with (Z.of_nat 255). rewrite (clamp_take 255 msg).
  set (m := take 255 msg) in *.
  set (est := fold_left _ fields (24 + zlen m)).
  assert (Hest : 24 + zlen m <= est) by (subst est; apply estimate_ge).
  assert (Hout : forall buf' n (w : list byte),
            zlen w = 24 + zlen m -> 24 + zlen m <= n <= zlen buf' ->
            take (Z.to_nat (24 + zlen m)) buf' = w ->
            exists out, slice buf' 0 n = Ret out /\ take (Z.to_nat (24 + zlen m)) out = w).
  { intros buf' n w Hw Hn Htk. rewrite slice_Ret by lia. eexists. split; [reflexivity|].
    change (Z.to_nat 0) with 0%nat. rewrite drop_0, take_take.
    rewrite Nat.min_l by lia. exact Htk. }
  set (w := headerBytes o now level (u64 (seq + 1)) ++ [byte.of_Z (zlen m)] ++ m ++
            [byte.of_Z (zlen (take 255 fields))]).
  assert (Hw : zlen w = 24 + zlen m).
  { subst w. rewrite !zlen_app, zlen_headerBytes, !zlen_cons.
    change (zlen (@nil byte)) with 0. lia. }
  destruct (Z.leb_spec est 512) as [Hsmall|Hbig].
  - destruct (formatStructuredMessage_inside o now seq (replicate 512 x00) level msg fields Hptr)
      as (buf' & n & -> & Hb' & Hn & Htk).
    { rewrite zlen_replicate. fold m. lia. }
    cbn [mbind outcome_bind]. fold m in Hn, Htk. rewrite zlen_replicate in *.
    destruct (Hout buf' n w Hw ltac:(lia) Htk) as (out & -> & Ho).
    cbn [mbind outcome_bind]. exists out, ps. split; [reflexivity|]. split; [exact Hv|exact Ho].
  - destruct (BufferPool_Get_spec (est + 256) ps Hv) as (p & bp & h & s & -> & Hd & Hc & Hv' & _).
    cbn [mbind outcome_bind]. rewrite Hd. cbn [mbind outcome_bind].
    replace (est + 256 <=? 0) with false in Hc by (symmetry; apply Z.leb_gt; lia).
    replace (cap s <? est) with false by (symmetry; apply Z.ltb_ge; lia).
    destruct (formatStructuredMessage_inside o now seq (arr s) level msg fields Hptr)
      as (buf' & n & -> & Hb' & Hn & Htk).
    { fold m. unfold cap in Hc. lia. }
    cbn [mbind outcome_bind]. fold m in Hn, Htk.
    destruct (Hout buf' n w Hw ltac:(lia) Htk) as (out & -> & Ho).
    cbn [mbind outcome_bind].
    assert (Hp : (p < length h)%nat).
    { unfold deref in Hd. destruct (h !! p) eqn:E; [|discriminate].
      eapply lookup_lt_Some; exact E. }
    unfold PutBuffer. cbn [gpool gheap].
    erewrite BufferPool_Put_spec by (apply list_lookup_insert_eq; exact Hp).
    cbn [mbind outcome_bind]. eexists _, _. split; [reflexivity|]. split; [|exact Ho].
    unfold poolsValid in *. cbn [gpool gheap] in *.
    eapply valid_mono; [|exact Hv']. rewrite !length_insert. lia.
Qed.

Lemma logFields_total_witness :
  let fields := [String [x6b] (replicate 600 x76); Int [x6e] 5] in
  let ps := {| gpool := NewBufferPool; gheap := [] |} in
  exists out ps',
    logFields LittleEndian 7 0 LevelInfo (replicate 300 x41) fields ps
    = Ret (out, u64 (0 + 1), ps') /\
    poolsValid ps' /\
    take (Z.to_nat (24 + zlen (take 255 (replicate 300 x41)))) out
    = headerBytes LittleEndian 7 LevelInfo (u64 (0 + 1)) ++
      [byte.of_Z (zlen (take 255 (replicate 300 x41)))] ++
      take 255 (replicate 300 x41) ++ [byte.of_Z (zlen (take 255 fields))].
Proof.
  cbv zeta.
  apply (logFields_total LittleEndian 7 0 LevelInfo (replicate 300 x41)
           [String [x6b] (replicate 600 x76); Int [x6e] 5]
           {| gpool := NewBufferPool; gheap := [] |}).
  - unfold poolsValid. cbn. repeat constructor.
  - repeat constructor; unfold ptrValid; cbn; discriminate.
Defined.

(** X15.  A structured log call without fields puts on the wire the
    header, the length byte, the message cut at 255 bytes and a zero count,
    and nothing else; it does not touch the pool. *)
Theorem logFields_no_fields (o : ByteOrder) (now seq : Z) (level : byte)
  (msg : list byte) (ps : PoolState) :
  logFields o now seq level msg [] ps
  = Ret (headerBytes o now level (u64 (seq + 1)) ++ [byte.of_Z (zlen (take 255 msg))] ++
         take 255 msg ++ [x00], u64 (seq + 1), ps).
Proof.
  pose proof (zlen_nonneg (take 255 msg)) as Hm0. pose proof (zlen_take 255 msg) as Hm.
  unfold logFields. cbv zeta. cbn [fold_left].
  change 255 with (Z.of_nat 255) at 1 2. rewrite (clamp_take 255 msg).
  replace (24 + zlen (take 255 msg) <=? 512) with true by (symmetry; apply Z.leb_le; lia).
  rewrite formatStructuredMessage_take.
  change (take 255 (@nil Field)) with (@nil Field).
  assert (Hm255 : zlen (take 255 msg) <= 255)
    by (change (Z.of_nat 255) with 255 in Hm; lia).
  rewrite formatStructuredMessage_splice.
  2: exact Hm255.
  2: discriminate.
  2: constructor.
  2: rewrite zlen_wireBytes, zlen_replicate; change (zlen (fieldsBytes o [])) with 0;
     change (Z.of_nat 512) with 512; lia.
  cbn [mbind outcome_bind].
  rewrite slice_splice_0
    by (rewrite zlen_wireBytes, zlen_replicate; change (zlen (fieldsBytes o [])) with 0;
        change (Z.of_nat 512) with 512; lia).
  cbn [mbind outcome_bind]. unfold wireBytes, fieldsBytes. cbn [map concat].
  rewrite app_nil_r. reflexivity.
Qed.

(** ** What each logger does to a long message *)

(** C5, amended.  The three loggers treat a long message differently.
    [Logger.log] never cuts it: a message of at most 65535 bytes goes on the
    wire whole, behind a two-byte length equal to the number of message
    bytes.  [UltimateLogger.log] cuts the message at 200 bytes and
    [formatStructuredMessage] at 255 bytes; both write a one-byte length
    equal to the number of message bytes written.  For the formatter to
    return at all, its buffer must hold the header, the message and the
    count byte, and a Bytes field must point to as many bytes as it
    announces, which the [Bytes] constructor sees to. *)
Theorem C5_message_on_the_wire (o : ByteOrder) (now seq : Z) (level : byte)
  (msg : list byte) (fields : list Field) (buf : list byte) (ps : PoolState) :
  poolsValid ps ->
  Forall ptrValid fields ->
  24 + zlen (take 255 msg) <= zlen buf ->
  (zlen msg <= 65535 ->
   exists ps',
     Logger_log o now level msg ps
     = Ret (nativeBytes o 4 MagicHeader ++ [Version; level] ++ nativeBytes o 8 (u64 now) ++
            nativeBytes o 2 (zlen msg) ++ msg, ps')) /\
  (exists ps',
     UltimateLogger_log o now seq level msg ps
     = Ret (headerBytes o now level (u64 (seq + 1)) ++
            [byte.of_Z (zlen (take 200 msg))] ++ take 200 msg, u64 (seq + 1), ps')) /\
  (exists buf' n,
     formatStructuredMessage o now seq buf level msg fields = Ret (buf', n, u64 (seq + 1)) /\
     24 + zlen (take 255 msg) <= n <= zlen buf /\
     take (Z.to_nat (24 + zlen (take 255 msg))) buf'
     = headerBytes o now level (u64 (seq + 1)) ++
       [byte.of_Z (zlen (take 255 msg))] ++ take 255 msg ++
       [byte.of_Z (zlen (take 255 fields))]).
Proof.
  intros Hv Hptr Hfit. split; [|split].
  - intros H16. destruct (Logger_log_spec o now level msg ps Hv) as (ps' & H & _).
    exists ps'. rewrite H. unfold basicBytes, u16.
    pose proof (zlen_nonneg msg). rewrite Z.mod_small by (change (2 ^ 16) with 65536; lia).
    reflexivity.
  - destruct (UltimateLogger_log_spec o now seq level msg ps Hv) as (ps' & H & _).
    exists ps'. exact H.
  - destruct (formatStructuredMessage_inside o now seq buf level msg fields Hptr Hfit)
      as (buf' & n & HF & _ & Hn & Htk).
    exists buf', n. split; [exact HF|]. split; [exact Hn|exact Htk].
Qed.

Lemma C5_message_on_the_wire_witness :
  let msg := replicate 300 x41 in
  let fields := [String [x6b] [x76]] in
  let ps := {| gpool := NewBufferPool; gheap := [] |} in
  (zlen msg <= 65535 ->
   exists ps',
     Logger_log LittleEndian 7 LevelInfo msg ps
     = Ret (nativeBytes LittleEndian 4 MagicHeader ++ [Version; LevelInfo] ++
            nativeBytes LittleEndian 8 (u64 7) ++
            nativeBytes LittleEndian 2 (zlen msg) ++ msg, ps')) /\
  (exists ps',
     UltimateLogger_log LittleEndian 7 0 LevelInfo msg ps
     = Ret (headerBytes LittleEndian 7 LevelInfo (u64 (0 + 1)) ++
            [byte.of_Z (zlen (take 200 msg))] ++ take 200 msg, u64 (0 + 1), ps')) /\
  (exists buf' n,
     formatStructuredMessage LittleEndian 7 0 (replicate 512 x00) LevelInfo msg fields
     = Ret (buf', n, u64 (0 + 1)) /\
     24 + zlen (take 255 msg) <= n <= zlen (replicate 512 x00) /\
     take (Z.to_nat (24 + zlen (take 255 msg))) buf'
     = headerBytes LittleEndian 7 LevelInfo (u64 (0 + 1)) ++
       [byte.of_Z (zlen (take 255 msg))] ++ take 255 msg ++
       [byte.of_Z (zlen (take 255 fields))]).
Proof.
  cbv zeta.
  apply (C5_message_on_the_wire LittleEndian 7 0 LevelInfo (replicate 300 x41)
           [String [x6b] [x76]] (replicate 512 x00)
           {| gpool := NewBufferPool; gheap := [] |}).
  - unfold poolsValid. cbn. repeat constructor.
  - repeat constructor; unfold ptrValid; cbn; discriminate.
  - vm_compute. discriminate.
Defined.

(** C5 as stated fails for two of the three loggers.  [Logger.log] puts all
    256 bytes of a 256-byte message on the wire behind the length 256, and
    [UltimateLogger.log] puts 200 bytes of a 201-byte message behind the
    length byte 200. *)
Lemma C5_counterexample :
  let ps := {| gpool := NewBufferPool; gheap := [] |} in
  (exists out ps',
     Logger_log LittleEndian 0 LevelInfo (replicate 256 x41) ps = Ret (out, ps') /\
     drop 16 out = replicate 256 x41 /\
     take 2 (drop 14 out) = [x00; x01]) /\
  (exists out s ps',
     UltimateLogger_log LittleEndian 0 0 LevelInfo (replicate 201 x41) ps
     = Ret (out, s, ps') /\
     drop 23 out = replicate 200 x41 /\
     out !! 22%nat = Some xc8).
Proof.
  cbv zeta. split.
  - do 2 eexists. split; [vm_compute; reflexivity|].
    split; vm_compute; reflexivity.
  - do 3 eexists. split; [vm_compute; reflexivity|].
    split; vm_compute; reflexivity.
Qed.


(** ** Fields: constructors and limits *)

(** X16.  The constructors make fields the wire format carries whole, so
    the round trip applies to them: any key of at most 255 bytes with an
    integer, a float given by its bits, a boolean, a string of at most 65535
    bytes or a non-empty byte slice of at most 65535 bytes.  For [Float32]
    this holds on a little-endian machine. *)
Theorem constructors_wellformed (o : ByteOrder) (key : list byte) (v bits : Z)
  (s mem : list byte) (b : bool) :
  zlen key <= 255 ->
  zlen s <= 65535 ->
  1 <= zlen mem <= 65535 ->
  wfField o (Int key v) /\ wfField o (Int64 key v) /\
  wfField o (Uint key v) /\ wfField o (Uint64 key (u64 v)) /\
  wfField LittleEndian (Float32 key bits) /\ wfField o (Float64 key bits) /\
  wfField o (String key s) /\ wfField o (Bool key b) /\
  exists f, Bytes key mem = Ret f /\ wfField o f /\ ptrValid f.
Proof.
  intros Hk Hs Hmem. pose proof (u64_range v) as Hv. pose proof (u64_range bits) as Hbits.
  assert (H32 : 0 <= u32 bits < 2 ^ 32) by (apply Z.mod_pos_bound; reflexivity).
  assert (H3264 : 2 ^ 32 < 2 ^ 64) by reflexivity.
  assert (H1 : 1 < 2 ^ 64) by reflexivity.
  unfold wfField, Int, Int64, Uint, Uint64, Float32, Float64, String, Bool.
  unfold FieldTypeInt, FieldTypeUint, FieldTypeFloat32, FieldTypeFloat64,
    FieldTypeString, FieldTypeBool.
  cbn [Key Typ num str fptr].
  split; [split; [exact Hk|exact Hv]|].
  split; [split; [exact Hk|exact Hv]|].
  split; [split; [exact Hk|exact Hv]|].
  split; [split; [exact Hk|apply u64_range]|].
  split.
  { split; [exact Hk|]. rewrite (u64_small (u32 bits)) by lia.
    split; [exact H32|]. unfold float32Word. apply Z.mod_small. exact H32. }
  split; [split; [exact Hk|exact Hbits]|].
  split; [split; [exact Hk|exact Hs]|].
  split; [split; [exact Hk|destruct b; lia]|].
  destruct mem as [|x mem']; [unfold zlen in Hmem; cbn in Hmem; lia|].
  eexists. split; [reflexivity|].
  assert (H16 : 65535 < 2 ^ 63) by reflexivity.
  assert (H63 : 2 ^ 64 = 2 * 2 ^ 63) by reflexivity.
  unfold FieldTypeBytes. cbn [Key Typ num str fptr].
  split.
  - split; [exact Hk|].
    exists (x :: mem'). split; [reflexivity|]. split; [apply u64_small; lia|exact Hmem].
  - unfold ptrValid. cbn [Typ fptr num]. intros _ m [= <-].
    rewrite u64_small by lia. rewrite i64_small by lia. lia.
Qed.

Lemma constructors_wellformed_witness :
  wfField BigEndian (Int [x6b] (-5)) /\ wfField BigEndian (Int64 [x6b] (-5)) /\
  wfField BigEndian (Uint [x6b] (-5)) /\ wfField BigEndian (Uint64 [x6b] (u64 (-5))) /\
  wfField LittleEndian (Float32 [x6b] 1069547520) /\
  wfField BigEndian (Float64 [x6b] 1069547520) /\
  wfField BigEndian (String [x6b] [x76]) /\ wfField BigEndian (Bool [x6b] true) /\
  exists f, Bytes [x6b] [x01; x02] = Ret f /\ wfField BigEndian f /\ ptrValid f.
Proof.
  apply (constructors_wellformed BigEndian [x6b] (-5) 1069547520 [x76] [x01; x02] true).
  - vm_compute. discriminate.
  - vm_compute. discriminate.
  - vm_compute. split; discriminate.
Defined.

(** X17.  On a big-endian machine [encodeField] reads the high half of the
    64-bit slot of a Float32 field, where [Float32] has put nothing: every
    float32 value is encoded as the bits of 0. *)
Theorem Float32_lost_on_big_endian (buf key : list byte) (bits : Z) :
  encodeField BigEndian buf (Float32 key bits) = encodeField BigEndian buf (Float32 key 0).
Proof.
  assert (H : float32Word BigEndian (num (Float32 key bits))
              = float32Word BigEndian (num (Float32 key 0))).
  { unfold float32Word, Float32. cbn [num].
    assert (H32 : 0 <= u32 bits < 2 ^ 32) by (apply Z.mod_pos_bound; reflexivity).
    assert (H3264 : 2 ^ 32 < 2 ^ 64) by reflexivity.
    rewrite (u64_small (u32 bits)) by lia.
    rewrite (Z.shiftr_div_pow2 (u32 bits) 32) by lia.
    rewrite Z.div_small by exact H32. reflexivity. }
  unfold encodeField. cbn [Key Typ Float32 FieldTypeFloat32] in *. cbv zeta.
  rewrite H. reflexivity.
Qed.

(** X18.  [encodeField] looks at the first 255 bytes of the key only: a
    longer key is cut, on every buffer. *)
Theorem encodeField_long_key (o : ByteOrder) (buf : list byte) (f : Field) :
  encodeField o buf f
  = encodeField o buf {| Key := take 255 (Key f); Typ := Typ f; num := num f;
                         str := str f; fptr := fptr f |}.
Proof.
  unfold encodeField. cbn [Key Typ num str fptr].
  destruct (zlen buf <? 10); [reflexivity|]. cbv zeta.
  change 255 with (Z.of_nat 255). rewrite !(clamp_take 255).
  rewrite take_take, Nat.min_id.
  set (k := if zlen (take 255 (Key f)) >? zlen buf - 0 - 2
            then zlen buf - 0 - 2 else zlen (take 255 (Key f))).
  assert (Hk : k <= zlen (take 255 (Key f))).
  { subst k. rewrite Z.gtb_ltb.
    destruct (Z.ltb_spec (zlen buf - 0 - 2) (zlen (take 255 (Key f)))); lia. }
  pose proof (zlen_take 255 (Key f)) as Ht.
  destruct (Z.ltb_spec k 0) as [Hneg|Hpos]; [reflexivity|].
  rewrite (slice_Ret (Key f)) by lia.
  rewrite (slice_Ret (take 255 (Key f))) by lia.
  change (Z.to_nat 0) with 0%nat. rewrite !drop_0, take_take.
  replace (Nat.min (Z.to_nat (k - 0)) 255) with (Z.to_nat (k - 0))
    by (change (Z.of_nat 255) with 255 in Ht; lia).
  reflexivity.
Qed.

Lemma encodeFields_no_room (o : ByteOrder) (fs : list Field) (buf : list byte) (pos : Z) :
  zlen buf - 64 <= pos -> encodeFields o fs buf pos = Ret (buf, pos).
Proof.
  intros H. destruct fs as [|f fs]; [reflexivity|]. cbn [encodeFields].
  replace (pos <? zlen buf - 64) with false by (symmetry; apply Z.ltb_ge; lia).
  reflexivity.
Qed.

(** X19.  When the buffer has room for the header, the message and the
    count byte but not 64 bytes more, [formatStructuredMessage] writes no
    field at all, although the count byte it has written announces them. *)
Theorem formatStructuredMessage_drops_fields (o : ByteOrder) (now seq : Z)
  (buf : list byte) (level : byte) (msg : list byte) (fields : list Field) :
  24 + zlen (take 255 msg) <= zlen buf <= 24 + zlen (take 255 msg) + 64 ->
  formatStructuredMessage o now seq buf level msg fields
  = Ret (splice buf 0
           (headerBytes o now level (u64 (seq + 1)) ++ [byte.of_Z (zlen (take 255 msg))] ++
            take 255 msg ++ [byte.of_Z (zlen (take 255 fields))]),
         24 + zlen (take 255 msg), u64 (seq + 1)).
Proof.
  intros Hfit. pose proof (zlen_nonneg (take 255 msg)) as Hm0.
  unfold formatStructuredMessage.
  rewrite writeBinaryHeader_splice by lia. cbn [mbind outcome_bind]. cbv zeta.
  change 255 with (Z.of_nat 255). rewrite !(clamp_take 255).
  pose proof (slice_take 255 msg) as Hsl.
  set (m := take 255 msg) in *.
  rewrite (store_emit buf) by (rewrite zlen_headerBytes; lia).
  cbn [mbind outcome_bind]. rewrite Hsl. cbn [mbind outcome_bind].
  rewrite (copy_emit buf)
    by (rewrite ?zlen_app, ?zlen_headerBytes, ?zlen_cons; change (zlen (@nil byte)) with 0; lia).
  cbn [mbind outcome_bind].
  rewrite (store_emit buf)
    by (rewrite ?zlen_app, ?zlen_headerBytes, ?zlen_cons; change (zlen (@nil byte)) with 0; lia).
  cbn [mbind outcome_bind].
  set (w := ((headerBytes o now level (u64 (seq + 1)) ++ [byte.of_Z (zlen m)]) ++ m)
            ++ [byte.of_Z (zlen (take 255 fields))]).
  assert (Hw : zlen w = 24 + zlen m).
  { subst w. rewrite !zlen_app, zlen_headerBytes, !zlen_cons.
    change (zlen (@nil byte)) with 0. lia. }
  rewrite encodeFields_no_room by (rewrite zlen_splice by lia; lia).
  cbn [mbind outcome_bind]. subst w. rewrite <- !app_assoc. cbn [app].
  do 3 f_equal. lia.
Qed.

Lemma formatStructuredMessage_drops_fields_witness :
  formatStructuredMessage LittleEndian 7 0 (replicate 60 x00) LevelInfo [x68; x69]
    [Int [x6e] 5]
  = Ret (splice (replicate 60 x00) 0
           (headerBytes LittleEndian 7 LevelInfo (u64 (0 + 1)) ++
            [byte.of_Z (zlen (take 255 [x68; x69]))] ++
            take 255 [x68; x69] ++ [byte.of_Z (zlen (take 255 [Int [x6e] 5]))]),
         24 + zlen (take 255 [x68; x69]), u64 (0 + 1)).
Proof.
  apply (formatStructuredMessage_drops_fields LittleEndian 7 0 (replicate 60 x00) LevelInfo
           [x68; x69] [Int [x6e] 5]).
  vm_compute. split; discriminate.
Defined.


(** ** The text the terminal writer renders *)

Lemma decimalValue_snoc (ds : list byte) (d : byte) :
  decimalValue (ds ++ [d]) = 10 * decimalValue ds + (byte.unsigned d - 48).
Proof. unfold decimalValue. rewrite fold_left_app. reflexivity. Qed.

Lemma digitsLoop_spec (room : nat) :
  forall (v : Z) (tmp : list byte),
    0 <= v < 10 ^ Z.of_nat room ->
    exists ds,
      digitsLoop room v tmp = Ret (ds ++ tmp) /\
      decimalValue ds = v /\
      forallb isDigit ds = true /\
      (length ds <= room)%nat /\
      (0 < v -> ds <> []).
Proof.
  induction room as [|room IH]; intros v tmp Hv.
  - cbn [digitsLoop]. assert (v = 0) by (cbn in Hv; lia). subst v.
    exists []. repeat split; [apply Nat.le_0_l|intros H0; lia].
  - cbn [digitsLoop]. destruct (Z.ltb_spec 0 v) as [Hpos|Hz].
    + destruct (IH (v / 10) (byte.of_Z (v mod 10 + 48) :: tmp)) as (ds & -> & Hval & Hdig & Hlen & _).
      { split; [apply Z.div_pos; lia|]. apply Z.div_lt_upper_bound; [lia|].
        rewrite <- Z.pow_succ_r by lia. rewrite <- Nat2Z.inj_succ. lia. }
      pose proof (Z.mod_pos_bound v 10 ltac:(lia)) as Hmod.
      assert (Hd : byte.unsigned (byte.of_Z (v mod 10 + 48)) = v mod 10 + 48)
        by (apply byte_unsigned_of_Z_small; lia).
      exists (ds ++ [byte.of_Z (v mod 10 + 48)]).
      split; [now rewrite <- app_assoc|].
      split; [rewrite decimalValue_snoc, Hval, Hd; pose proof (Z.div_mod v 10); lia|].
      split.
      { rewrite forallb_app, Hdig. cbn [forallb andb]. unfold isDigit. rewrite Hd.
        rewrite andb_true_r. apply andb_true_intro. split; [apply Z.leb_le|apply Z.leb_le]; lia. }
      split; [rewrite length_app; cbn [length]; lia|].
      intros _ Hnil. apply app_eq_nil in Hnil. destruct Hnil as [_ Hnil]. discriminate.
    + assert (v = 0) by lia. subst v. exists [].
      repeat split; [apply Nat.le_0_l|intros H0; lia].
Qed.

Lemma appendUint_spec (buf : list byte) (v : Z) :
  0 <= v < 2 ^ 64 ->
  exists ds,
    appendUint buf v = Ret (buf ++ ds) /\
    decimalValue ds = v /\
    forallb isDigit ds = true /\
    1 <= zlen ds <= 20.
Proof.
  intros Hv. unfold appendUint. destruct (Z.eqb_spec v 0) as [->|Hnz].
  - exists [x30]. repeat split; discriminate.
  - assert (H20 : 2 ^ 64 < 10 ^ Z.of_nat 20) by reflexivity.
    destruct (digitsLoop_spec 20 v []) as (ds & -> & Hval & Hdig & Hlen & Hne); [lia|].
    cbn [mbind outcome_bind]. rewrite app_nil_r. exists ds.
    split; [reflexivity|]. split; [exact Hval|]. split; [exact Hdig|].
    specialize (Hne ltac:(lia)). unfold zlen. destruct ds; [contradiction|].
    cbn [length] in *. lia.
Qed.

(** X20.  [appendUint] appends the decimal digits of its argument: between
    1 and 20 bytes, each an ASCII digit, that denote the number. *)
Theorem appendUint_decimal (buf : list byte) (v : Z) :
  0 <= v < 2 ^ 64 ->
  exists ds,
    appendUint buf v = Ret (buf ++ ds) /\
    decimalValue ds = v /\
    forallb isDigit ds = true /\
    1 <= zlen ds <= 20.
Proof. intros Hv. destruct (appendUint_spec buf v Hv) as (ds & H). exists ds. exact H. Qed.

Lemma appendUint_decimal_witness :
  exists ds,
    appendUint [x3d] 18446744073709551615 = Ret ([x3d] ++ ds) /\
    decimalValue ds = 18446744073709551615 /\
    forallb isDigit ds = true /\
    1 <= zlen ds <= 20.
Proof.
  apply (appendUint_decimal [x3d] 18446744073709551615). vm_compute.
  split; [discriminate|reflexivity].
Defined.

(** X21.  [appendInt] appends a minus sign for a negative number and then
    the decimal digits of the absolute value; this holds for the least
    int64 too, whose negation wraps. *)
Theorem appendInt_decimal (buf : list byte) (v : Z) :
  - 2 ^ 63 <= v < 2 ^ 63 ->
  exists ds,
    appendInt buf v = Ret (buf ++ (if v <? 0 then [x2d] else []) ++ ds) /\
    decimalValue ds = Z.abs v /\
    forallb isDigit ds = true.
Proof.
  intros Hv. assert (H64 : 2 ^ 64 = 2 * 2 ^ 63) by reflexivity.
  unfold appendInt. destruct (Z.ltb_spec v 0) as [Hneg|Hpos].
  - assert (Hu : u64 (i64 (- v)) = Z.abs v).
    { destruct (Z.eq_dec v (- 2 ^ 63)) as [->|Hne]; [reflexivity|].
      rewrite i64_small by lia. rewrite u64_small by lia. lia. }
    rewrite Hu.
    destruct (appendUint_spec (buf ++ [x2d]) (Z.abs v)) as (ds & -> & Hval & Hdig & _); [lia|].
    exists ds. rewrite <- app_assoc. split; [reflexivity|]. split; assumption.
  - rewrite u64_small by lia.
    destruct (appendUint_spec buf v) as (ds & -> & Hval & Hdig & _); [lia|].
    exists ds. cbn [app]. split; [reflexivity|]. split; [lia|exact Hdig].
Qed.

Lemma appendInt_decimal_witness :
  exists ds,
    appendInt [] (- 2 ^ 63)
    = Ret ([] ++ (if - 2 ^ 63 <? 0 then [x2d] else []) ++ ds) /\
    decimalValue ds = Z.abs (- 2 ^ 63) /\
    forallb isDigit ds = true.
Proof. apply (appendInt_decimal [] (- 2 ^ 63)). vm_compute. split; [discriminate|reflexivity]. Defined.

Lemma hex_byte (b : byte) :
  (hi ← index hexDigits (byte.unsigned b ≫ 4);
   lo ← index hexDigits (Z.land (byte.unsigned b) 15);
   Ret (byte.of_Z (16 * hexValue hi + hexValue lo))) = Ret b.
Proof. destruct b; vm_compute; reflexivity. Qed.

(** X22.  [appendHex] appends two lower-case hexadecimal digits for each
    byte, high digit first: reading the digits back gives the bytes. *)
Theorem appendHex_roundtrip (data buf : list byte) :
  exists hx,
    appendHex buf data = Ret (buf ++ hx) /\
    unhex hx = data /\
    length hx = (2 * length data)%nat.
Proof.
  revert buf. induction data as [|b data IH]; intros buf.
  - exists []. rewrite app_nil_r. repeat split.
  - cbn [appendHex]. pose proof (hex_byte b) as Hb.
    destruct (index hexDigits (byte.unsigned b ≫ 4)) as [hi| | |];
      cbn [mbind outcome_bind] in Hb |- *; try discriminate.
    destruct (index hexDigits (Z.land (byte.unsigned b) 15)) as [lo| | |];
      cbn [mbind outcome_bind] in Hb |- *; try discriminate.
    injection Hb as Hb.
    destruct (IH (buf ++ [hi; lo])) as (hx & -> & Hun & Hlen).
    exists (hi :: lo :: hx). rewrite <- app_assoc. split; [reflexivity|].
    split; [cbn [unhex]; now rewrite Hb, Hun|cbn [length]; lia].
Qed.

Lemma scanRest_spec (s : list byte) :
  forall hs : bool,
    fst (scanRest s hs) = existsb isSpecial s /\
    (existsb isSpecial s = false -> snd (scanRest s hs) = hs || existsb isSpace s).
Proof.
  induction s as [|a s IH]; intros hs.
  - cbn. split; [reflexivity|intros _; now rewrite orb_false_r].
  - cbn [scanRest existsb]. destruct (isSpecial a); cbn [orb].
    + split; [reflexivity|discriminate].
    + destruct (IH (if isSpace a then true else hs)) as [H1 H2].
      split; [exact H1|]. intros Hno. rewrite (H2 Hno).
      destruct (isSpace a), hs; reflexivity.
Qed.

Lemma scan_spec (n : nat) :
  forall (s : list byte) (hs : bool),
    (length s <= n)%nat ->
    let '(ne, hs1, rest) := scanUnrolled s hs in
    let '(ne2, hs2) := if negb ne then scanRest rest hs1 else (ne, hs1) in
    ne2 = existsb isSpecial s /\
    (existsb isSpecial s = false -> hs2 = hs || existsb isSpace s).
Proof.
  induction n as [|n IH]; intros s hs Hlen.
  - destruct s; [|cbn in Hlen; lia]. cbn. split; [reflexivity|intros _; now rewrite orb_false_r].
  - destruct s as [|a [|b [|c [|d rest]]]];
      try (cbn [scanUnrolled negb];
           match goal with
           | |- context [scanRest ?l ?h] =>
               destruct (scanRest_spec l h) as [H1 H2];
               destruct (scanRest l h) as [ne2 hs2]; cbn [fst snd] in *;
               split; [exact H1|exact H2]
           end).
    cbn [scanUnrolled existsb].
    destruct (isSpecial a); cbn [orb].
    { cbn [negb]. split; [reflexivity|discriminate]. }
    destruct (isSpecial b); cbn [orb].
    { cbn [negb]. split; [reflexivity|discriminate]. }
    destruct (isSpecial c); cbn [orb].
    { cbn [negb]. split; [reflexivity|discriminate]. }
    destruct (isSpecial d); cbn [orb].
    { cbn [negb]. split; [reflexivity|discriminate]. }
    specialize (IH rest (if isSpace a || isSpace b || isSpace c || isSpace d then true else hs)
                  ltac:(cbn [length] in Hlen; lia)).
    destruct (scanUnrolled rest _) as [[ne hs1] rest'].
    destruct (if negb ne then scanRest rest' hs1 else (ne, hs1)) as [ne2 hs2].
    destruct IH as [H1 H2]. split; [exact H1|]. intros Hno. rewrite (H2 Hno).
    destruct (isSpace a), (isSpace b), (isSpace c), (isSpace d), hs; reflexivity.
Qed.

Lemma escapeBytes_one (b : byte) (buf : list byte) :
  match b with
  | x5c => buf ++ [x5c; x5c]
  | x22 => buf ++ [x5c; x22]
  | x0a => buf ++ [x5c; x6e]
  | x0d => buf ++ [x5c; x72]
  | x09 => buf ++ [x5c; x74]
  | _ => buf ++ [b]
  end = buf ++ escapeBytes [] [b].
Proof. destruct b; reflexivity. Qed.

Lemma escapeBytes_acc (s : list byte) :
  forall buf : list byte, escapeBytes buf s = buf ++ escapeBytes [] s.
Proof.
  induction s as [|b s IH]; intros buf.
  - cbn. now rewrite app_nil_r.
  - cbn [escapeBytes]. rewrite !escapeBytes_one.
    rewrite (IH (buf ++ escapeBytes [] [b])), (IH ([] ++ escapeBytes [] [b])).
    now rewrite <- !app_assoc.
Qed.

Lemma unescape_one (b : byte) (rest : list byte) :
  unescape (escapeBytes [] [b] ++ rest) = b :: unescape rest.
Proof. destruct b; reflexivity. Qed.

(** X23.  [escapeStringOptimized] decides by two scans, the first four
    bytes at a time, and the scans miss nothing: the string is quoted and
    escaped exactly when it holds a quote, a backslash, a line feed, a
    carriage return or a tab; otherwise it is quoted exactly when it holds a
    space, and otherwise copied.  Undoing the escapes gives the string
    back. *)
Theorem escapeStringOptimized_spec (buf s : list byte) :
  escapeStringOptimized buf s
  = buf ++ (if existsb isSpecial s then [x22] ++ escapeBytes [] s ++ [x22]
            else if existsb isSpace s then [x22] ++ s ++ [x22]
            else s) /\
  unescape (escapeBytes [] s) = s.
Proof.
  split.
  - unfold escapeStringOptimized.
    pose proof (scan_spec (length s) s false (Nat.le_refl _)) as H.
    destruct (scanUnrolled s false) as [[ne hs1] rest].
    destruct (if negb ne then scanRest rest hs1 else (ne, hs1)) as [ne2 hs2].
    destruct H as [H1 H2]. subst ne2.
    destruct (existsb isSpecial s); cbn [negb andb].
    + rewrite escapeBytes_acc. now rewrite <- !app_assoc.
    + rewrite (H2 eq_refl). cbn [orb].
      destruct (existsb isSpace s); [now rewrite <- !app_assoc|reflexivity].
  - induction s as [|b s IH]; [reflexivity|].
    cbn [escapeBytes]. rewrite escapeBytes_one, escapeBytes_acc. cbn [app].
    rewrite unescape_one. now rewrite IH.
Qed.

(** X24.  [fieldValueSize] agrees with the decoder: given the bytes from
    the start of a value, it returns the cursor [decodeFieldValueBuf]
    returns, for every type byte; a String or Bytes value needs its two
    length bytes to be there. *)
Theorem fieldValueSize_agrees (b : list byte) (t : byte) :
  2 <= zlen b \/ (t <> x04 /\ t <> x06) ->
  exists v n,
    readFieldValue b 0 t = Ret (v, n) /\ fieldValueSize b t = Ret n.
Proof.
  intros H.
  destruct (readFieldValue_total b 0 t ltac:(lia)) as (v & n & HR & _ & _).
  exists v, n. split; [exact HR|]. revert HR.
  unfold readFieldValue, fieldValueSize.
  destruct t; try (intros [= _ <-]; reflexivity);
    try (destruct (zlen b - 0 <? 8); [intros [= _ <-]; reflexivity|];
         destruct (loadBE 8 b 0); cbn [mbind outcome_bind]; try discriminate;
         intros [= _ <-]; reflexivity);
    try (destruct (zlen b - 0 <? 4); [intros [= _ <-]; reflexivity|];
         destruct (loadBE 4 b 0); cbn [mbind outcome_bind]; try discriminate;
         intros [= _ <-]; reflexivity).
  - destruct H as [H|[H _]]; [|contradiction].
    replace (zlen b - 0 <? 2) with false by (symmetry; apply Z.ltb_ge; lia).
    replace (zlen b >=? 2) with true by (symmetry; apply Z.geb_le; lia).
    destruct (loadBE 2 b 0) as [n0| | |]; cbn [mbind outcome_bind]; try discriminate.
    destruct (zlen b - 0 <? 2 + n0); [intros [= _ <-]; reflexivity|].
    destruct (slice b (0 + 2) (0 + 2 + n0)); cbn [mbind outcome_bind]; try discriminate.
    intros [= _ <-]. reflexivity.
  - destruct H as [H|[_ H]]; [|contradiction].
    replace (zlen b - 0 <? 2) with false by (symmetry; apply Z.ltb_ge; lia).
    replace (zlen b >=? 2) with true by (symmetry; apply Z.geb_le; lia).
    destruct (loadBE 2 b 0) as [n0| | |]; cbn [mbind outcome_bind]; try discriminate.
    destruct (zlen b - 0 <? 2 + n0); [intros [= _ <-]; reflexivity|].
    destruct (slice b (0 + 2) (0 + 2 + n0)); cbn [mbind outcome_bind]; try discriminate.
    intros [= _ <-]. reflexivity.
Qed.

Lemma fieldValueSize_agrees_witness :
  exists v n,
    readFieldValue [x00; x03; x61; x62; x63] 0 x04 = Ret (v, n) /\
    fieldValueSize [x00; x03; x61; x62; x63] x04 = Ret n.
Proof.
  apply (fieldValueSize_agrees [x00; x03; x61; x62; x63] x04).
  left. vm_compute. discriminate.
Defined.


(** ** From the loggers to the terminal writer *)

Section LoggersToTerminal.
Context (o : ByteOrder) (timeText : Z -> list byte)
      (float64Text : Z -> list byte) (float32to64 : Z -> Z).

Lemma decodeLine_basic (useColor : bool) (now : Z) (level : byte) (msg : list byte) :
1 <= zlen msg <= 65535 ->
exists line,
  decodeLine o timeText float64Text float32to64 useColor (basicBytes o now level msg)
  = Ret (inr (line, {| p_level := level; p_timestamp := u64 now; p_msgStart := 16;
                       p_msg := msg; p_fields := [] |})).
Proof.
intros Hmsg.
set (wire := basicBytes o now level msg).
assert (Hlen : zlen wire = 16 + zlen msg) by apply zlen_basicBytes.
set (mg4 := nativeBytes o 4 MagicHeader).
set (ts8 := nativeBytes o 8 (u64 now)).
assert (Hu16 : u16 (zlen msg) = zlen msg)
  by (unfold u16; apply Z.mod_small; change (2 ^ 16) with 65536; lia).
set (ln2 := nativeBytes o 2 (zlen msg)).
assert (Hwire : wire = mg4 ++ [Version; level] ++ ts8 ++ ln2 ++ msg)
  by (subst wire ln2; unfold basicBytes; rewrite Hu16; reflexivity).
assert (Hmg : length mg4 = 4%nat) by apply length_nativeBytes.
assert (Hts : length ts8 = 8%nat) by apply length_nativeBytes.
assert (Hln : length ln2 = 2%nat) by apply length_nativeBytes.
unfold decodeLine.
replace (zlen wire <? 16) with false by (symmetry; apply Z.ltb_ge; lia).
rewrite (loadNative_at o 4 wire [] mg4 ([Version; level] ++ ts8 ++ ln2 ++ msg) 0);
  [|exact Hwire|reflexivity|exact Hmg].
cbn [mbind outcome_bind]. subst mg4. rewrite nativeValue_nativeBytes.
change (MagicHeader mod 2 ^ (8 * Z.of_nat 4)) with MagicHeader.
rewrite Z.eqb_refl. cbn [negb].
set (mg4 := nativeBytes o 4 MagicHeader) in *.
rewrite (index_at wire (mg4 ++ [Version]) level (ts8 ++ ln2 ++ msg) 5);
  [|rewrite Hwire, <- !app_assoc; reflexivity|zlen_lia].
cbn [mbind outcome_bind].
unfold detectFormat.
replace (zlen wire >=? 16) with true by (symmetry; apply Z.geb_le; lia).
rewrite (loadNative_at o 2 wire (mg4 ++ [Version; level] ++ ts8) ln2 msg 14);
  [|rewrite Hwire, <- !app_assoc; reflexivity|zlen_lia|exact Hln].
cbn [mbind outcome_bind]. subst ln2. rewrite nativeValue_nativeBytes.
rewrite (Z.mod_small (zlen msg)) by (change (2 ^ (8 * Z.of_nat 2)) with 65536; lia).
set (ln2 := nativeBytes o 2 (zlen msg)) in *.
replace (0 <? zlen msg) with true by (symmetry; apply Z.ltb_lt; lia).
replace (zlen msg <=? 65535) with true by (symmetry; apply Z.leb_le; lia).
replace (zlen wire >=? 16 + zlen msg) with true by (symmetry; apply Z.geb_le; lia).
cbn [andb].
rewrite (loadNative_at o 8 wire (mg4 ++ [Version; level]) ts8 (ln2 ++ msg) 6);
  [|rewrite Hwire, <- !app_assoc; reflexivity|zlen_lia|exact Hts].
cbn [mbind outcome_bind]. subst ts8. rewrite nativeValue_nativeBytes.
rewrite (Z.mod_small (u64 now)) by apply u64_range.
set (ts8 := nativeBytes o 8 (u64 now)) in *.
destruct (decodeLine_body_total timeText float64Text float32to64 useColor wire level
            (u64 now) (zlen msg) 16) as (line & fs & Hbody & _ & Hnone);
  [lia|now left|lia|].
exists line.
assert (Hmsgeq : take (Z.to_nat (zlen msg)) (drop (Z.to_nat 16) wire) = msg).
{ rewrite Hwire.
  replace (mg4 ++ [Version; level] ++ ts8 ++ ln2 ++ msg)
    with ((mg4 ++ [Version; level] ++ ts8 ++ ln2) ++ msg)
    by (now rewrite <- !app_assoc).
  rewrite drop_app_length' by (rewrite !length_app, Hmg, Hts, Hln; reflexivity).
  unfold zlen. rewrite Nat2Z.id. apply firstn_all. }
rewrite Hmsgeq in Hbody. rewrite (Hnone ltac:(lia)) in Hbody. exact Hbody.
Qed.

Lemma decodeLine_ultimate (useColor : bool) (now seq : Z) (level : byte) (msg : list byte) :
(tsProbe o now = 0 \/ 23 + zlen (take 200 msg) < 16 + tsProbe o now) ->
exists line,
  decodeLine o timeText float64Text float32to64 useColor
    (ultimateBytes o now seq level msg)
  = Ret (inr (line, {| p_level := level; p_timestamp := u64 now; p_msgStart := 23;
                       p_msg := take 200 msg; p_fields := [] |})).
Proof.
intros Hprobe.
set (m := take 200 msg) in *.
pose proof (zlen_nonneg m) as Hm0.
assert (Hm200 : zlen m <= 200)
  by (subst m; rewrite zlen_take; change (Z.of_nat 200) with 200; lia).
set (wire := ultimateBytes o now seq level msg).
assert (Hlen : zlen wire = 23 + zlen m) by apply zlen_ultimateBytes.
set (mg4 := nativeBytes o 4 MagicHeader).
set (sq8 := nativeBytes o 8 (u64 (seq + 1))).
set (ts8 := nativeBytes o 8 (u64 now)).
assert (Hwire : wire = mg4 ++ [Version; level] ++ sq8 ++ ts8 ++ [byte.of_Z (zlen m)] ++ m).
{ subst wire mg4 sq8 ts8 m. unfold ultimateBytes, headerBytes. now rewrite <- !app_assoc. }
assert (Hmg : length mg4 = 4%nat) by apply length_nativeBytes.
assert (Hsq : length sq8 = 8%nat) by apply length_nativeBytes.
assert (Hts : length ts8 = 8%nat) by apply length_nativeBytes.
unfold decodeLine.
replace (zlen wire <? 16) with false by (symmetry; apply Z.ltb_ge; lia).
rewrite (loadNative_at o 4 wire [] mg4
           ([Version; level] ++ sq8 ++ ts8 ++ [byte.of_Z (zlen m)] ++ m) 0);
  [|exact Hwire|reflexivity|exact Hmg].
cbn [mbind outcome_bind]. subst mg4. rewrite nativeValue_nativeBytes.
change (MagicHeader mod 2 ^ (8 * Z.of_nat 4)) with MagicHeader.
rewrite Z.eqb_refl. cbn [negb].
set (mg4 := nativeBytes o 4 MagicHeader) in *.
rewrite (index_at wire (mg4 ++ [Version]) level
           (sq8 ++ ts8 ++ [byte.of_Z (zlen m)] ++ m) 5);
  [|rewrite Hwire, <- !app_assoc; reflexivity|zlen_lia].
cbn [mbind outcome_bind].
unfold detectFormat.
replace (zlen wire >=? 16) with true by (symmetry; apply Z.geb_le; lia).
rewrite (loadNative_at o 2 wire (mg4 ++ [Version; level] ++ sq8) (take 2 ts8)
           (drop 2 ts8 ++ [byte.of_Z (zlen m)] ++ m) 14);
  [|rewrite Hwire; rewrite <- (take_drop 2 ts8) at 1; now rewrite <- !app_assoc
   |zlen_lia
   |rewrite length_take; lia].
cbn [mbind outcome_bind]. change (nativeValue o (take 2 ts8)) with (tsProbe o now).
assert (Hnot : (0 <? tsProbe o now) && (tsProbe o now <=? 65535)
               && (zlen wire >=? 16 + tsProbe o now) = false).
{ destruct Hprobe as [-> | Hp]; [reflexivity|].
  replace (zlen wire >=? 16 + tsProbe o now) with false
    by (symmetry; rewrite Z.geb_leb; apply Z.leb_gt; lia).
  apply andb_false_r. }
rewrite Hnot.
replace (zlen wire >=? 23) with true by (symmetry; apply Z.geb_le; lia).
rewrite (index_at wire (mg4 ++ [Version; level] ++ sq8 ++ ts8) (byte.of_Z (zlen m)) m 22);
  [|rewrite Hwire, <- !app_assoc; reflexivity|zlen_lia].
cbn [mbind outcome_bind].
rewrite (byte_unsigned_of_Z_small (zlen m)) by lia.
replace (zlen wire >=? 23 + zlen m) with true by (symmetry; apply Z.geb_le; lia).
rewrite (loadNative_at o 8 wire (mg4 ++ [Version; level] ++ sq8) ts8
           ([byte.of_Z (zlen m)] ++ m) 14);
  [|rewrite Hwire, <- !app_assoc; reflexivity|zlen_lia|exact Hts].
cbn [mbind outcome_bind]. subst ts8. rewrite nativeValue_nativeBytes.
rewrite (Z.mod_small (u64 now)) by apply u64_range.
set (ts8 := nativeBytes o 8 (u64 now)) in *.
destruct (decodeLine_body_total timeText float64Text float32to64 useColor wire level
            (u64 now) (zlen m) 23) as (line & fs & Hbody & _ & Hnone);
  [lia|now right|lia|].
exists line.
assert (Hmsgeq : take (Z.to_nat (zlen m)) (drop (Z.to_nat 23) wire) = m).
{ rewrite Hwire.
  replace (mg4 ++ [Version; level] ++ sq8 ++ ts8 ++ [byte.of_Z (zlen m)] ++ m)
    with ((mg4 ++ [Version; level] ++ sq8 ++ ts8 ++ [byte.of_Z (zlen m)]) ++ m)
    by (now rewrite <- !app_assoc).
  rewrite drop_app_length' by (rewrite !length_app, Hmg, Hsq, Hts; reflexivity).
  unfold zlen. rewrite Nat2Z.id. apply firstn_all. }
rewrite Hmsgeq in Hbody. rewrite (Hnone ltac:(lia)) in Hbody. exact Hbody.
Qed.

(** X25.  What [Logger.log] writes, the terminal writer reads back: for a
  message of 1 to 65535 bytes the record is taken for a Basic one and the
  level, the time stamp and the whole message are recovered, with no
  field. *)
Theorem Logger_to_terminal (useColor : bool) (now : Z) (level : byte) (msg : list byte)
(ps : PoolState) :
poolsValid ps ->
1 <= zlen msg <= 65535 ->
exists out ps' line,
  Logger_log o now level msg ps = Ret (out, ps') /\
  decodeLine o timeText float64Text float32to64 useColor out
  = Ret (inr (line, {| p_level := level; p_timestamp := u64 now; p_msgStart := 16;
                       p_msg := msg; p_fields := [] |})).
Proof.
intros Hv Hmsg.
destruct (Logger_log_spec o now level msg ps Hv) as (ps' & HL & _).
destruct (decodeLine_basic useColor now level msg Hmsg) as (line & HD).
exists (basicBytes o now level msg), ps', line. split; [exact HL|exact HD].
Qed.

(** X26.  A log call with an empty message cannot be displayed: the
  16-byte record [Logger.log] writes for it is rejected by the terminal
  writer as truncated, which returns 0 and writes no line. *)
Theorem Logger_empty_message_rejected (useColor : bool) (outErr : option error) (now : Z)
(level : byte) (ps : PoolState) :
exists out,
  Logger_log o now level [] ps = Ret (out, ps) /\
  zlen out = 16 /\
  TerminalWriter_Write o timeText float64Text float32to64 useColor outErr out
  = Ret (0, Some ErrMessageTruncated, None).
Proof.
exists (basicBytes o now level []).
assert (HL : Logger_log o now level [] ps = Ret (basicBytes o now level [], ps)).
{ unfold Logger_log. cbv zeta.
  change (zlen (@nil byte)) with 0. change (16 + 0 <=? 256) with true. cbv iota.
  rewrite slice_Ret by (rewrite ?zlen_replicate; change (Z.of_nat 256) with 256; lia).
  cbn [mbind outcome_bind].
  set (buf := take (Z.to_nat (16 + 0 - 0)) (drop (Z.to_nat 0) (replicate 256 x00))).
  assert (Hb : zlen buf = 16) by reflexivity.
  rewrite formatMessage_splice by (rewrite Hb; change (zlen (@nil byte)) with 0; lia).
  cbn [mbind outcome_bind].
  rewrite splice_full; [reflexivity|].
  rewrite zlen_basicBytes, Hb. reflexivity. }
split; [exact HL|]. split; [now rewrite zlen_basicBytes|].
set (wire := basicBytes o now level []).
assert (Hlen : zlen wire = 16) by (subst wire; now rewrite zlen_basicBytes).
set (mg4 := nativeBytes o 4 MagicHeader).
set (ts8 := nativeBytes o 8 (u64 now)).
set (ln2 := nativeBytes o 2 (u16 (zlen (@nil byte)))).
assert (Hwire : wire = mg4 ++ [Version; level] ++ ts8 ++ ln2 ++ []) by reflexivity.
assert (Hmg : length mg4 = 4%nat) by apply length_nativeBytes.
assert (Hts : length ts8 = 8%nat) by apply length_nativeBytes.
assert (Hln : length ln2 = 2%nat) by apply length_nativeBytes.
unfold TerminalWriter_Write, decodeLine.
replace (zlen wire <? 16) with false by (rewrite Hlen; reflexivity).
rewrite (loadNative_at o 4 wire [] mg4 ([Version; level] ++ ts8 ++ ln2 ++ []) 0);
  [|exact Hwire|reflexivity|exact Hmg].
cbn [mbind outcome_bind]. subst mg4. rewrite nativeValue_nativeBytes.
change (MagicHeader mod 2 ^ (8 * Z.of_nat 4)) with MagicHeader.
rewrite Z.eqb_refl. cbn [negb].
set (mg4 := nativeBytes o 4 MagicHeader) in *.
rewrite (index_at wire (mg4 ++ [Version]) level (ts8 ++ ln2 ++ []) 5);
  [|rewrite Hwire, <- !app_assoc; reflexivity|zlen_lia].
cbn [mbind outcome_bind].
unfold detectFormat.
replace (zlen wire >=? 16) with true by (rewrite Hlen; reflexivity).
rewrite (loadNative_at o 2 wire (mg4 ++ [Version; level] ++ ts8) ln2 [] 14);
  [|rewrite Hwire, <- !app_assoc; reflexivity|zlen_lia|exact Hln].
cbn [mbind outcome_bind]. subst ln2. rewrite nativeValue_nativeBytes.
change (u16 (zlen (@nil byte)) mod 2 ^ (8 * Z.of_nat 2)) with 0.
cbn [Z.ltb Z.compare andb].
replace (zlen wire >=? 23) with false by (rewrite Hlen; reflexivity).
reflexivity.
Qed.

(** X27.  What [UltimateLogger.log] writes, the terminal writer reads back
  as a Structured record without fields: the level, the time stamp and the
  message cut at 200 bytes, provided the two bytes of the time stamp at
  offset 14 do not pass for a Basic length. *)
Theorem UltimateLogger_to_terminal (useColor : bool) (now seq : Z) (level : byte)
(msg : list byte) (ps : PoolState) :
poolsValid ps ->
(tsProbe o now = 0 \/ 23 + zlen (take 200 msg) < 16 + tsProbe o now) ->
exists out ps' line,
  UltimateLogger_log o now seq level msg ps = Ret (out, u64 (seq + 1), ps') /\
  decodeLine o timeText float64Text float32to64 useColor out
  = Ret (inr (line, {| p_level := level; p_timestamp := u64 now; p_msgStart := 23;
                       p_msg := take 200 msg; p_fields := [] |})).
Proof.
intros Hv Hprobe.
destruct (UltimateLogger_log_spec o now seq level msg ps Hv) as (ps' & HL & _).
destruct (decodeLine_ultimate useColor now seq level msg Hprobe) as (line & HD).
exists (ultimateBytes o now seq level msg), ps', line. split; [exact HL|exact HD].
Qed.
End LoggersToTerminal.

Lemma Logger_to_terminal_witness :
  exists out ps' line,
    Logger_log LittleEndian 5 LevelWarn [x68; x69] {| gpool := NewBufferPool; gheap := [] |}
    = Ret (out, ps') /\
    decodeLine LittleEndian (fun _ => []) (fun _ => []) (fun z => z) true out
    = Ret (inr (line, {| p_level := LevelWarn; p_timestamp := u64 5; p_msgStart := 16;
                         p_msg := [x68; x69]; p_fields := [] |})).
Proof.
  apply (Logger_to_terminal LittleEndian (fun _ => []) (fun _ => []) (fun z => z) true 5
           LevelWarn [x68; x69] {| gpool := NewBufferPool; gheap := [] |}).
  - unfold poolsValid. cbn. repeat constructor.
  - vm_compute. split; discriminate.
Defined.

Lemma UltimateLogger_to_terminal_witness :
  exists out ps' line,
    UltimateLogger_log LittleEndian 1000000 0 LevelWarn (replicate 300 x41)
      {| gpool := NewBufferPool; gheap := [] |} = Ret (out, u64 (0 + 1), ps') /\
    decodeLine LittleEndian (fun _ => []) (fun _ => []) (fun z => z) false out
    = Ret (inr (line, {| p_level := LevelWarn; p_timestamp := u64 1000000; p_msgStart := 23;
                         p_msg := take 200 (replicate 300 x41); p_fields := [] |})).
Proof.
  apply (UltimateLogger_to_terminal LittleEndian (fun _ => []) (fun _ => []) (fun z => z) false
           1000000 0 LevelWarn (replicate 300 x41) {| gpool := NewBufferPool; gheap := [] |}).
  - unfold poolsValid. cbn. repeat constructor.
  - right. vm_compute. reflexivity.
Defined.

